(** * Daily schedule generation engine of baby-checklist (src/lib/activities.ts)

    A shallow embedding of the time utilities, the free-text appointment
    parser, the activity selection passes and the time-slot allocation of
    [generateChecklist], followed by the properties of the specification.

    Conventions of the embedding.
    - JavaScript numbers that hold minutes, durations and counts are integers
      and are modelled by [Z]; [Math.floor (a / b)] is [Z.div] for [b > 0] and
      [%] is the truncating [Z.rem].  The baby's age in months is an integer
      or [NaN] and is modelled by [Age].
    - Strings are [string]s of 8-bit code units; case mapping is that of
      ASCII letters, white space is that of Latin-1 text.
    - Regular expression literals are values of [regex], matched by a
      backtracking matcher with the priorities of the JavaScript engine
      (greedy quantifiers, left alternative first, leftmost start). *)

From Stdlib Require Import ZArith String Ascii List Bool Lia DecimalString.
From Stdlib Require Import QArith Permutation Sorted DecimalPos DecimalZ.
Import ListNotations.
Open Scope string_scope.
Open Scope list_scope.
Open Scope Z_scope.

Set Implicit Arguments.

(* ===================================================================== *)
(** ** Strings *)
(* ===================================================================== *)

Module Str.

Definition code (c : ascii) : N := N_of_ascii c.

Definition isUpper (c : ascii) : bool := (65 <=? code c)%N && (code c <=? 90)%N.
Definition isLower (c : ascii) : bool := (97 <=? code c)%N && (code c <=? 122)%N.
Definition isDigit (c : ascii) : bool := (48 <=? code c)%N && (code c <=? 57)%N.

(** White space and line terminators, the class [\s] and the characters
    removed by [trim]: TAB, LF, VT, FF, CR, SPACE and NBSP. *)
Definition isSpace (c : ascii) : bool :=
  let n := code c in
  ((9 <=? n)%N && (n <=? 13)%N) || (n =? 32)%N || (n =? 160)%N.

(** Line terminators, excluded by [.]. *)
Definition isLineTerminator (c : ascii) : bool :=
  (code c =? 10)%N || (code c =? 13)%N.

Definition lowerChar (c : ascii) : ascii :=
  if isUpper c then ascii_of_N (code c + 32) else c.
Definition upperChar (c : ascii) : ascii :=
  if isLower c then ascii_of_N (code c - 32) else c.

Fixpoint map (f : ascii -> ascii) (s : string) : string :=
  match s with
  | EmptyString => EmptyString
  | String c s' => String (f c) (map f s')
  end.

Definition toLowerCase : string -> string := map lowerChar.
Definition toUpperCase : string -> string := map upperChar.

Fixpoint trimStart (s : string) : string :=
  match s with
  | String c s' => if isSpace c then trimStart s' else s
  | EmptyString => EmptyString
  end.

(** [trimEnd] keeps a character when it is not a space or when something
    that is kept follows it. *)
Fixpoint trimEnd (s : string) : string :=
  match s with
  | EmptyString => EmptyString
  | String c s' =>
      match trimEnd s' with
      | EmptyString => if isSpace c then EmptyString else String c EmptyString
      | t => String c t
      end
  end.

Definition trim (s : string) : string := trimEnd (trimStart s).

Definition isEmpty (s : string) : bool :=
  match s with EmptyString => true | _ => false end.

(** [s.includes(k)] *)
Fixpoint includes (k s : string) : bool :=
  String.prefix k s ||
  match s with
  | EmptyString => false
  | String _ s' => includes k s'
  end.

(** [xs.join(sep)] *)
Fixpoint join (sep : string) (xs : list string) : string :=
  match xs with
  | [] => ""
  | [x] => x
  | x :: rest => (x ++ sep ++ join sep rest)%string
  end.

(** Decimal rendering of an integer, as [Number.prototype.toString] and
    template literals do for integral numbers. *)
Definition ofZ (z : Z) : string := NilZero.string_of_int (Z.to_int z).

(** [s.padStart(n, c)] for a one-character pad string. *)
Definition padStart (n : nat) (c : ascii) (s : string) : string :=
  (string_of_list_ascii (repeat c (n - String.length s)) ++ s)%string.

Definition digitVal (c : ascii) : Z := Z.of_N (code c) - 48.

Fixpoint digitsVal (acc : Z) (s : string) : Z :=
  match s with
  | String c s' => if isDigit c then digitsVal (10 * acc + digitVal c) s' else acc
  | EmptyString => acc
  end.

(** [parseInt(s)] on a string whose first non-blank character is a decimal
    digit: the value of the longest run of leading digits.  Every call in
    the source passes text captured by a pattern that starts with [\d], so
    the [NaN] result of [parseInt] never arises there; this model gives [0]
    on text without a leading digit. *)
Definition parseInt (s : string) : Z := digitsVal 0 (trimStart s).

End Str.

(* ===================================================================== *)
(** ** Regular expressions *)
(* ===================================================================== *)

Module Re.

(** The fragment of the pattern language the source uses.  Every pattern of
    the source carries the [i] flag, so literal characters compare without
    regard to case.  The only starred sub-patterns of the source are single
    character classes ([\s*], [\s+], [.*]). *)
Inductive regex : Type :=
| Eps                                   (* empty pattern *)
| Chr (c : ascii)                       (* literal character, flag i *)
| Cls (p : ascii -> bool)               (* character class *)
| Seq (a b : regex)                     (* ab *)
| Alt (a b : regex)                     (* a|b *)
| Opt (a : regex)                       (* a? (greedy) *)
| Star (p : ascii -> bool)              (* [class]* (greedy) *)
| Grp (n : nat) (a : regex)             (* n-th capturing group *)
| NotAhead (a : regex)                  (* (?!a) *)
| Eos.                                  (* $ *)

(** Captures: group number to captured text. *)
Definition caps := list (nat * string).

Fixpoint getCap (n : nat) (c : caps) : option string :=
  match c with
  | [] => None
  | (m, s) :: c' => if Nat.eqb n m then Some s else getCap n c'
  end.

Definition ciEq (a b : ascii) : bool :=
  Ascii.eqb (Str.upperChar a) (Str.upperChar b).

(** The text consumed between input [s] and its suffix [s']. *)
Definition consumed (s s' : string) : string :=
  String.substring 0 (String.length s - String.length s') s.

(** Backtracking matcher in continuation-passing style: [k] receives the
    rest of the input and the captures and may fail, which makes the
    matcher try its next alternative. *)
Fixpoint run (R : Type) (r : regex) (s : string) (c : caps)
         (k : string -> caps -> option R) {struct r} : option R :=
  match r with
  | Eps => k s c
  | Chr x =>
      match s with
      | String y s' => if ciEq x y then k s' c else None
      | EmptyString => None
      end
  | Cls p =>
      match s with
      | String y s' => if p y then k s' c else None
      | EmptyString => None
      end
  | Seq a b => run a s c (fun s' c' => run b s' c' k)
  | Alt a b =>
      match run a s c k with
      | Some x => Some x
      | None => run b s c k
      end
  | Opt a =>
      match run a s c k with
      | Some x => Some x
      | None => k s c
      end
  | Star p =>
      (fix star (t : string) : option R :=
         match t with
         | String y t' =>
             if p y then
               match star t' with
               | Some x => Some x
               | None => k t c
               end
             else k t c
         | EmptyString => k t c
         end) s
  | Grp n a => run a s c (fun s' c' => k s' ((n, consumed s s') :: c'))
  | NotAhead a =>
      match run a s c (fun _ _ => Some tt) with
      | Some _ => None
      | None => k s c
      end
  | Eos =>
      match s with
      | EmptyString => k s c
      | _ => None
      end
  end.

(** Match anchored at the start of [s]: the rest of the input and the
    captures. *)
Definition matchAt (r : regex) (s : string) : option (string * caps) :=
  run r s [] (fun s' c => Some (s', c)).

(** Result of an unanchored search: the text before the match, the matched
    text, the text after it, and the captures. *)
Record found := { before : string; whole : string; after : string; groups : caps }.

Fixpoint searchFrom (r : regex) (pre : string) (s : string) : option found :=
  match matchAt r s with
  | Some (rest, c) =>
      Some {| before := pre; whole := consumed s rest; after := rest; groups := c |}
  | None =>
      match s with
      | EmptyString => None
      | String y s' => searchFrom r (pre ++ String y EmptyString)%string s'
      end
  end.

(** [s.match(r)] for a pattern without the [g] flag. *)
Definition exec (r : regex) (s : string) : option found := searchFrom r "" s.

(** [r.test(s)] *)
Definition test (r : regex) (s : string) : bool :=
  match exec r s with Some _ => true | None => false end.

(** [m[n]] of a match result; a group that did not take part is
    [undefined], which no call site of the source can observe (the groups
    it reads are not optional); it is read as the empty string. *)
Definition group (n : nat) (m : found) : string :=
  match getCap n (groups m) with Some s => s | None => "" end.

(** [s.replace(r, '')] for a pattern without the [g] flag. *)
Definition remove (r : regex) (s : string) : string :=
  match exec r s with
  | Some m => (before m ++ after m)%string
  | None => s
  end.

(** [s.split(r)] for a pattern without capturing groups whose matches are
    never empty.  [skip] counts the characters of a separator still to be
    dropped, [cur] is the piece being collected. *)
Fixpoint splitGo (r : regex) (s : string) (skip : nat) (cur : string) : list string :=
  match s with
  | EmptyString => [cur]
  | String y s' =>
      match skip with
      | S n => splitGo r s' n cur
      | O =>
          match matchAt r s with
          | Some (rest, _) =>
              match (String.length s - String.length rest)%nat with
              | O => splitGo r s' O (cur ++ String y EmptyString)%string
              | S n => cur :: splitGo r s' n ""
              end
          | None => splitGo r s' O (cur ++ String y EmptyString)%string
          end
      end
  end.

Definition split (r : regex) (s : string) : list string := splitGo r s O "".

(** Pattern combinators that keep the literals readable. *)
Fixpoint lit (s : string) : regex :=
  match s with
  | EmptyString => Eps
  | String c EmptyString => Chr c
  | String c s' => Seq (Chr c) (lit s')
  end.

Fixpoint seqs (rs : list regex) : regex :=
  match rs with
  | [] => Eps
  | [r] => r
  | r :: rs' => Seq r (seqs rs')
  end.

Fixpoint alts (rs : list regex) : regex :=
  match rs with
  | [] => NotAhead Eps
  | [r] => r
  | r :: rs' => Alt r (alts rs')
  end.

Definition digit : regex := Cls Str.isDigit.           (* \d *)
Definition digits12 : regex := Seq digit (Opt digit).   (* \d{1,2} *)
Definition digits2 : regex := Seq digit digit.          (* \d{2} *)
Definition ws0 : regex := Star Str.isSpace.             (* \s* *)
Definition ws1 : regex := Seq (Cls Str.isSpace) ws0.    (* \s+ *)
Definition anyStar : regex :=                           (* .* *)
  Star (fun c => negb (Str.isLineTerminator c)).
Definition oneOf (s : string) : regex :=                (* [...] under flag i *)
  Cls (fun c => existsb (ciEq c) (list_ascii_of_string s)).

End Re.

Import Re.

(* ===================================================================== *)
(** ** Time utilities *)
(* ===================================================================== *)

(** /(\d{1,2}):(\d{2})\s*(AM|PM)/i *)
Definition reClock12 : regex :=
  seqs [Grp 1 digits12; Chr ":"; Grp 2 digits2; ws0; Grp 3 (Alt (lit "AM") (lit "PM"))].

(** /(\d{1,2})\s*(AM|PM)/i *)
Definition reHour12 : regex :=
  seqs [Grp 1 digits12; ws0; Grp 2 (Alt (lit "AM") (lit "PM"))].

(** /(\d{1,2}):(\d{2})(?!\s*[AP])/i *)
Definition reClock24 : regex :=
  seqs [Grp 1 digits12; Chr ":"; Grp 2 digits2; NotAhead (Seq ws0 (oneOf "AP"))].

(** /(?:at\s+)?(\d{1,2})(?:\s|$|,)/i *)
Definition reBareHour : regex :=
  seqs [Opt (Seq (lit "at") ws1); Grp 1 digits12; alts [Cls Str.isSpace; Eos; Chr ","]].

(** The hour of a 12-hour clock reading as an hour of the day. *)
Definition to24 (hours : Z) (isPM : bool) : Z :=
  let hours := if isPM && negb (hours =? 12) then hours + 12 else hours in
  if negb isPM && (hours =? 12) then 0 else hours.

Definition parseTimeToMinutes (time : string) : Z :=
  match exec reClock12 time with
  | Some m =>
      let hours := Str.parseInt (group 1 m) in
      let minutes := Str.parseInt (group 2 m) in
      let isPM := String.eqb (Str.toUpperCase (group 3 m)) "PM" in
      to24 hours isPM * 60 + minutes
  | None =>
  match exec reHour12 time with
  | Some m =>
      let hours := Str.parseInt (group 1 m) in
      let isPM := String.eqb (Str.toUpperCase (group 2 m)) "PM" in
      to24 hours isPM * 60
  | None =>
  match exec reClock24 time with
  | Some m =>
      let hours := Str.parseInt (group 1 m) in
      let minutes := Str.parseInt (group 2 m) in
      hours * 60 + minutes
  | None =>
  match exec reBareHour time with
  | Some m =>
      let hours := Str.parseInt (group 1 m) in
      let hours := if (1 <=? hours) && (hours <=? 6) then hours + 12 else hours in
      hours * 60
  | None => 0
  end end end end.

Definition minutesToTimeString (mins : Z) : string :=
  let hours := mins / 60 in
  let minutes := Z.rem mins 60 in
  let isPM := 12 <=? hours in
  let displayHours :=
    if 12 <? hours then hours - 12 else if hours =? 0 then 12 else hours in
  (Str.ofZ displayHours ++ ":" ++ Str.padStart 2 "0" (Str.ofZ minutes) ++ " "
    ++ (if isPM then "PM" else "AM"))%string.

Inductive TimeBlock : Type := morning | midday | afternoon | evening.

Definition getTimeBlock (mins : Z) : TimeBlock :=
  if mins <? 720 then morning
  else if mins <? 840 then midday
  else if mins <? 1020 then afternoon
  else evening.

(* ===================================================================== *)
(** ** Appointment parser *)
(* ===================================================================== *)

Inductive AppointmentType : Type := outing | visitor | appointment | other.

Record ParsedAppointment : Type := {
  description : string;
  startTime : option string;
  endTime : option string;
  startMins : option Z;
  endMins : option Z;
  aptType : AppointmentType;
  fulfillsTask : option string
}.

(** /[,;\n]|(?:\s+and\s+)/i *)
Definition reDelimiter : regex :=
  Alt (Cls (fun c => existsb (Ascii.eqb c) [","%char; ";"%char; "010"%char]))
      (seqs [ws1; lit "and"; ws1]).

(** /walk|stroll|park|outside/i *)
Definition reWalk : regex := alts (map lit ["walk"; "stroll"; "park"; "outside"]).

(** /visit|friend|coming over|guest|playdate|play date|someone.*over/i *)
Definition reVisitor : regex :=
  alts (map lit ["visit"; "friend"; "coming over"; "guest"; "playdate"; "play date"]
        ++ [seqs [lit "someone"; anyStar; lit "over"]]).

(** /doctor|appointment|checkup|check-up|clinic|hospital/i *)
Definition reMedical : regex :=
  alts (map lit ["doctor"; "appointment"; "checkup"; "check-up"; "clinic"; "hospital"]).

(** /library|cafe|coffee|lunch|brunch|shopping|errand|museum|zoo/i *)
Definition reErrand : regex :=
  alts (map lit ["library"; "cafe"; "coffee"; "lunch"; "brunch"; "shopping";
                 "errand"; "museum"; "zoo"]).

(** \d{1,2}(?::\d{2})?\s*(?:am|pm)? *)
Definition reTimeToken : regex :=
  seqs [digits12; Opt (Seq (Chr ":") digits2); ws0; Opt (Alt (lit "am") (lit "pm"))].

(** /(?:at\s+)?(\d{1,2}(?::\d{2})?\s*(?:am|pm)?)/i *)
Definition reSingleTime : regex :=
  seqs [Opt (Seq (lit "at") ws1); Grp 1 reTimeToken].

(** /(?:from\s+)?(\d{1,2}(?::\d{2})?\s*(?:am|pm)?)\s*(?:-|to|until|til)\s*(\d{1,2}(?::\d{2})?\s*(?:am|pm)?)/i *)
Definition reRange : regex :=
  seqs [Opt (Seq (lit "from") ws1); Grp 1 reTimeToken; ws0;
        alts [Chr "-"; lit "to"; lit "until"; lit "til"]; ws0; Grp 2 reTimeToken].

(** /am|pm/i and /pm/i *)
Definition reAmPm : regex := Alt (lit "am") (lit "pm").
Definition rePm : regex := lit "pm".

(** The keyword classification of one lower-cased clause: the type and the
    recurring task the appointment fulfils. *)
Definition classify (trimmed : string) : AppointmentType * option string :=
  if test reWalk trimmed then (outing, Some "Going for a walk")
  else if test reVisitor trimmed then (visitor, None)
  else if test reMedical trimmed then (appointment, None)
  else if test reErrand trimmed then (outing, None)
  else (other, None).

(** The body of the loop of [parseAppointments] for one part of the text;
    [None] is the [continue] on an empty clause. *)
Definition parsePart (part : string) : option ParsedAppointment :=
  let trimmed := Str.toLowerCase (Str.trim part) in
  if Str.isEmpty trimmed then None else
  let '(ty, fulfils) := classify trimmed in
  let singleTimeMatch := exec reSingleTime trimmed in
  let rangeMatch := exec reRange trimmed in
  match rangeMatch with
  | Some m =>
      let startTimeStr := group 1 m in
      let endTimeStr := group 2 m in
      let endTimeStr :=
        if negb (test reAmPm endTimeStr) && test rePm startTimeStr
        then (endTimeStr ++ " PM")%string
        else if negb (test reAmPm endTimeStr) then
          let endHour := Str.parseInt endTimeStr in
          if (1 <=? endHour) && (endHour <=? 7)
          then (endTimeStr ++ " PM")%string else endTimeStr
        else endTimeStr in
      let s := parseTimeToMinutes startTimeStr in
      let e := parseTimeToMinutes endTimeStr in
      Some {| description := Str.trim part;
              startTime := Some (minutesToTimeString s);
              endTime := Some (minutesToTimeString e);
              startMins := Some s; endMins := Some e;
              aptType := ty; fulfillsTask := fulfils |}
  | None =>
  match singleTimeMatch with
  | Some m =>
      let timeStr := group 1 m in
      let s := parseTimeToMinutes timeStr in
      let durationMins := match ty with appointment => 60 | _ => 90 end in
      let e := s + durationMins in
      Some {| description := Str.trim part;
              startTime := Some (minutesToTimeString s);
              endTime := Some (minutesToTimeString e);
              startMins := Some s; endMins := Some e;
              aptType := ty; fulfillsTask := fulfils |}
  | None =>
      Some {| description := Str.trim part;
              startTime := None; endTime := None;
              startMins := None; endMins := None;
              aptType := ty; fulfillsTask := fulfils |}
  end end.

Fixpoint filterMap (A B : Type) (f : A -> option B) (xs : list A) : list B :=
  match xs with
  | [] => []
  | x :: xs' =>
      match f x with
      | Some y => y :: filterMap f xs'
      | None => filterMap f xs'
      end
  end.

Definition parseAppointments (text : string) : list ParsedAppointment :=
  if Str.isEmpty text || Str.isEmpty (Str.trim text) then [] else
  let parts := filter (fun p => negb (Str.isEmpty (Str.trim p))) (split reDelimiter text) in
  filterMap parsePart parts.

(* ===================================================================== *)
(** ** Stable sorting, as [Array.prototype.sort] with a comparator *)
(* ===================================================================== *)

Section StableSort.
Variable A : Type.
(** [before y x]: the comparator puts [y] strictly before [x]. *)
Variable before : A -> A -> bool.

Fixpoint insertBy (x : A) (l : list A) : list A :=
  match l with
  | [] => [x]
  | y :: l' => if before y x then y :: insertBy x l' else x :: l
  end.

Fixpoint stableSort (l : list A) : list A :=
  match l with
  | [] => []
  | x :: l' => insertBy x (stableSort l')
  end.

End StableSort.

(* ===================================================================== *)
(** ** Activity catalogue, scoring and selection *)
(* ===================================================================== *)

Inductive Energy : Type := low | medium | high.
Inductive Category : Type := sensory | motor | cognitive | social | creative.
Inductive WeatherNeed : Type := good | bad | any.

Module AgeRange.
Record t : Type := { min : Z; max : Z }.
End AgeRange.

Record Activity : Type := {
  id : string;
  title : string;
  blurb : string;                      (* description *)
  duration : Z;
  energyRequired : Energy;
  indoor : bool;
  category : Category;
  ageRange : AgeRange.t;
  materials : option (list string);
  weatherDependent : option WeatherNeed;
  tags : list string
}.

Record WeatherData : Type := {
  temperature : Z;
  condition : string;
  isRainy : bool;
  isGoodWeather : bool;
  weatherText : string                 (* description *)
}.

Record DailySurvey : Type := {
  date : string;
  energyLevel : Energy;
  stayingHome : bool;
  wantsCrafts : bool;
  activityMoods : list string;
  focusAreas : list string;
  freeTimeWindows : list string;
  appointments : option string;
  parsedAppointments : option (list ParsedAppointment)
}.

(** The value of [getBabyAgeMonths()]: a whole number of months, or [NaN]
    when the stored birth date is empty or not a date ([new Date(...)] is
    then an invalid date, the difference of the years is [NaN] and so is
    [Math.max(0, months)]).  A whole number is read as an age where one is
    expected. *)
Inductive Age : Type := Months (n : Z) | NaN.

Coercion Months : Z >-> Age.

(** [age < bound], [age > bound], [age >= bound] and [age <= bound]: every
    comparison with [NaN] is false. *)
Definition Age_ltb (age : Age) (bound : Z) : bool :=
  match age with Months n => n <? bound | NaN => false end.

Definition Age_gtb (age : Age) (bound : Z) : bool :=
  match age with Months n => bound <? n | NaN => false end.

Definition Age_geb (age : Age) (bound : Z) : bool :=
  match age with Months n => bound <=? n | NaN => false end.

Definition Age_leb (age : Age) (bound : Z) : bool :=
  match age with Months n => n <=? bound | NaN => false end.

Record SelectionContext : Type := {
  survey : DailySurvey;
  weather : option WeatherData;
  babyAgeMonths : Age
}.

Definition Category_eqb (a b : Category) : bool :=
  match a, b with
  | sensory, sensory | motor, motor | cognitive, cognitive
  | social, social | creative, creative => true
  | _, _ => false
  end.

(** An entry of the catalogue array is an object: two entries are the same
    activity for [Array.prototype.includes] when they are the same object,
    whatever their contents.  [addr] is the identity of the object (its
    position in the catalogue), [val] its contents. *)
Record Obj : Type := { addr : nat; val : Activity }.

Definition sameObj (a b : Obj) : bool := Nat.eqb (addr a) (addr b).

(** [selected.includes(activity)] *)
Definition includesObj (selected : list Obj) (a : Obj) : bool :=
  existsb (sameObj a) selected.

Definition hasCategory (used : list Category) (c : Category) : bool :=
  existsb (Category_eqb c) used.

Record Scored : Type := { activity : Obj; score : Q }.

(** EXCLUDED_BONUS_PATTERNS: /walk/i, /stroll/i, /bath/i *)
Definition EXCLUDED_BONUS_PATTERNS : list regex := [lit "walk"; lit "stroll"; lit "bath"].

Definition overlapsWithRecurringTasks (a : Activity) : bool :=
  let titleAndTags := (title a ++ " " ++ Str.join " " (tags a))%string in
  existsb (fun pattern => test pattern titleAndTags) EXCLUDED_BONUS_PATTERNS.

Definition cafeKeywords : list string := ["cafe"; "coffee"; "brunch"; "lunch"].

Definition isCafeOrFoodActivity (a : Activity) : bool :=
  let titleLower := Str.toLowerCase (title a) in
  let tagsLower := map Str.toLowerCase (tags a) in
  if existsb (fun keyword => Str.includes keyword titleLower) cafeKeywords then true
  else if existsb (fun tag => existsb (fun keyword => Str.includes keyword tag) cafeKeywords)
                  tagsLower then true
  else if existsb (fun keyword => Str.includes keyword (Str.toLowerCase (id a))) cafeKeywords
  then true
  else false.

(** The cut-off test shared by both passes and by [getReplacementActivity]:
    a food or venue activity that would end after 3 PM. *)
Definition endsAfter3pm (a : Activity) (scheduledMins : Z) : bool :=
  isCafeOrFoodActivity a && (900 <? scheduledMins + duration a).

Definition Qpos (q : Q) : bool := negb (Qle_bool q 0).
Definition Qmax0 (q : Q) : Q := if Qle_bool q 0 then 0%Q else q.

(** [scoreActivity]; [rnd] is the value [Math.random()] yields when the
    function reaches the call; a disqualified activity returns before it. *)
Definition scoreBase (a : Activity) (ctx : SelectionContext) : option Z :=
  let sv := survey ctx in
  let score := 50 in
  if Age_ltb (babyAgeMonths ctx) (AgeRange.min (ageRange a))
     || Age_gtb (babyAgeMonths ctx) (AgeRange.max (ageRange a)) then None else
  let weatherStep :=
    match weather ctx with
    | Some w =>
        if negb (indoor a) && isRainy w then None else
        let score :=
          if negb (indoor a) && negb (stayingHome sv) && isGoodWeather w
          then score + 20 else score in
        let score :=
          match weatherDependent a with
          | Some good => if negb (isGoodWeather w) then score - 30 else score
          | _ => score
          end in
        Some score
    | None => Some score
    end in
  match weatherStep with
  | None => None
  | Some score =>
  if stayingHome sv && negb (indoor a) then None else
  let score := if negb (stayingHome sv) && negb (indoor a) then score + 15 else score in
  let score :=
    match energyLevel sv, energyRequired a with
    | low, high => score - 40
    | low, low => score + 20
    | high, high => score + 15
    | _, _ => score
    end in
  let score :=
    if wantsCrafts sv && Category_eqb (category a) creative then score + 30 else score in
  let score :=
    if wantsCrafts sv && existsb (String.eqb "messy") (tags a) then score + 10 else score in
  let busy :=
    match appointments sv with
    | Some text => negb (Str.isEmpty text)
    | None => false
    end in
  let score :=
    if busy then
      if duration a <=? 15 then score + 15
      else if 30 <=? duration a then score - 10 else score
    else score in
  Some score
  end.

Section Selection.

(** The catalogue [activities.json], the age [getBabyAgeMonths()] returns
    and the successive values of [Math.random()] are inputs of the model. *)
Variable activities : list Activity.
Variable ageMonths : Age.
Variable random : nat -> Q.

Definition objects : list Obj :=
  map (fun p => {| addr := fst p; val := snd p |})
      (combine (seq 0 (length activities)) activities).

(** [scoreActivity] with the counter of calls to [Math.random()]. *)
Definition scoreActivity (a : Activity) (ctx : SelectionContext) (n : nat) : Q * nat :=
  match scoreBase a ctx with
  | None => (0%Q, n)
  | Some base => (Qmax0 (inject_Z base + random n * 20)%Q, S n)
  end.

(** [xs.map(activity => ({ activity, score: scoreActivity(activity, context) }))] *)
Fixpoint scoreAll (ctx : SelectionContext) (xs : list Obj) (n : nat) : list Scored :=
  match xs with
  | [] => []
  | a :: xs' =>
      let '(sc, n') := scoreActivity (val a) ctx n in
      {| activity := a; score := sc |} :: scoreAll ctx xs' n'
  end.

(** [[...scored].sort((a, b) => b.score - a.score)], projected on the
    activities as the loops over [sorted] do. *)
Definition sortByScore (scored : list Scored) : list Obj :=
  map activity (stableSort (fun y x => negb (Qle_bool (score y) (score x))) scored).

(** First pass of [pickDiverseActivities]. *)
Fixpoint firstPass (count : Z) (sorted : list Obj)
         (selected : list Obj) (usedCategories : list Category)
  : list Obj * list Category :=
  match sorted with
  | [] => (selected, usedCategories)
  | a :: rest =>
      if count <=? Z.of_nat (length selected) then (selected, usedCategories)
      else if negb (hasCategory usedCategories (category (val a)))
      then firstPass count rest (selected ++ [a]) (category (val a) :: usedCategories)
      else firstPass count rest selected usedCategories
  end.

(** Second pass of [pickDiverseActivities]. *)
Fixpoint secondPass (count : Z) (sorted : list Obj) (selected : list Obj) : list Obj :=
  match sorted with
  | [] => selected
  | a :: rest =>
      if count <=? Z.of_nat (length selected) then selected
      else if negb (includesObj selected a)
      then secondPass count rest (selected ++ [a])
      else secondPass count rest selected
  end.

Definition pickDiverseActivities (scored : list Scored) (count : Z) : list Obj :=
  let sorted := sortByScore scored in
  let '(selected, _) := firstPass count sorted [] [] in
  secondPass count sorted selected.

(** A JavaScript number used as a condition: [undefined] and [0] are falsy. *)
Definition truthy (o : option Z) : option Z :=
  match o with
  | Some z => if z =? 0 then None else Some z
  | None => None
  end.

(** [scheduledTimes[i] || scheduledTimes[scheduledTimes.length - 1] || 570] *)
Definition slotMins (scheduledTimes : list Z) (i : nat) : Z :=
  match truthy (nth_error scheduledTimes i) with
  | Some z => z
  | None =>
      match truthy (nth_error scheduledTimes (length scheduledTimes - 1)) with
      | Some z => z
      | None => 570
      end
  end.

(** Inner loop of the first pass with time constraints: the activity pushed
    for one slot, if any.  [total] is [sorted.length]. *)
Fixpoint pickForSlot (count : Z) (total : nat) (scheduledMins : Z)
         (selected : list Obj) (usedCategories : list Category)
         (sorted : list Obj) : option Obj :=
  match sorted with
  | [] => None
  | a :: rest =>
      if includesObj selected a
      then pickForSlot count total scheduledMins selected usedCategories rest
      else if endsAfter3pm (val a) scheduledMins
      then pickForSlot count total scheduledMins selected usedCategories rest
      else if (Z.of_nat (length selected) <? count)
              && (negb (hasCategory usedCategories (category (val a)))
                  || (Z.of_nat total <=? 2 * Z.of_nat (length selected)))
      then Some a
      else pickForSlot count total scheduledMins selected usedCategories rest
  end.

(** Inner loop of the filling pass: the activity pushed for one slot. *)
Fixpoint fillForSlot (scheduledMins : Z) (selected : list Obj) (sorted : list Obj)
  : option Obj :=
  match sorted with
  | [] => None
  | a :: rest =>
      if includesObj selected a then fillForSlot scheduledMins selected rest
      else if endsAfter3pm (val a) scheduledMins
      then fillForSlot scheduledMins selected rest
      else Some a
  end.

(** [for (let i = 0; i < count && selected.length < count; i++)]:
    [iters] is the number of values of [i] still to visit. *)
Fixpoint slotLoop (count : Z) (sorted : list Obj) (scheduledTimes : list Z)
         (iters : nat) (i : nat) (selected : list Obj) (usedCategories : list Category)
  : list Obj * list Category :=
  match iters with
  | O => (selected, usedCategories)
  | S iters' =>
      if Z.of_nat (length selected) <? count then
        match pickForSlot count (length sorted) (slotMins scheduledTimes i)
                          selected usedCategories sorted with
        | Some a =>
            slotLoop count sorted scheduledTimes iters' (S i)
                     (selected ++ [a]) (category (val a) :: usedCategories)
        | None =>
            slotLoop count sorted scheduledTimes iters' (S i) selected usedCategories
        end
      else (selected, usedCategories)
  end.

(** [for (let i = selected.length; i < count; i++)] *)
Fixpoint fillLoop (sorted : list Obj) (scheduledTimes : list Z)
         (iters : nat) (i : nat) (selected : list Obj) : list Obj :=
  match iters with
  | O => selected
  | S iters' =>
      match fillForSlot (slotMins scheduledTimes i) selected sorted with
      | Some a => fillLoop sorted scheduledTimes iters' (S i) (selected ++ [a])
      | None => fillLoop sorted scheduledTimes iters' (S i) selected
      end
  end.

Definition pickDiverseActivitiesWithTimeConstraints
           (scored : list Scored) (count : Z) (scheduledTimes : list Z) : list Obj :=
  let sorted := sortByScore scored in
  let '(selected, _) :=
    slotLoop count sorted scheduledTimes (Z.to_nat count) 0 [] [] in
  fillLoop sorted scheduledTimes
           (Z.to_nat (count - Z.of_nat (length selected))) (length selected) selected.

(** The scored and filtered candidates of [selectBonusActivities]. *)
Definition candidatePool (sv : DailySurvey) (w : option WeatherData) : list Scored :=
  let context := {| survey := sv; weather := w; babyAgeMonths := ageMonths |} in
  filter (fun s => Qpos (score s))
         (scoreAll context
                   (filter (fun a => negb (overlapsWithRecurringTasks (val a))) objects) 0).

Definition selectBonusActivities (sv : DailySurvey) (w : option WeatherData)
           (count : Z) (scheduledTimes : option (list Z)) : list Obj :=
  let scored := candidatePool sv w in
  match scheduledTimes with
  | Some (t :: ts) => pickDiverseActivitiesWithTimeConstraints scored count (t :: ts)
  | _ => pickDiverseActivities scored count
  end.

Definition getReplacementActivity (sv : DailySurvey) (w : option WeatherData)
           (excludeActivityIds : list string) (scheduledMinutes : option Z) : option Obj :=
  let context := {| survey := sv; weather := w; babyAgeMonths := ageMonths |} in
  let kept :=
    filter (fun a =>
              match scheduledMinutes with
              | Some m => negb (endsAfter3pm (val a) m)
              | None => true
              end)
      (filter (fun a => negb (existsb (String.eqb (id (val a))) excludeActivityIds))
         (filter (fun a => negb (overlapsWithRecurringTasks (val a))) objects)) in
  let scored := sortByScore (filter (fun s => Qpos (score s)) (scoreAll context kept 0)) in
  match scored with
  | a :: _ => Some a
  | [] => None
  end.

End Selection.

(* ===================================================================== *)
(** ** Time-slot allocation *)
(* ===================================================================== *)

(** An entry of [scheduledTimes]: [{ start, end }]. *)
Record Interval : Type := { start : Z; end_ : Z }.

(** [const END_BY_TIME = 1110]; the source comments call it 5:30 PM, the
    minute 1110 is 6:30 PM. *)
Definition END_BY_TIME : Z := 1110.

(** The overlap test of the source: [start < slot.end && end > slot.start]. *)
Definition overlaps (s e : Z) (slot : Interval) : bool :=
  (s <? end_ slot) && (start slot <? e).

Fixpoint noConflict (scheduledTimes : list Interval) (s e : Z) : bool :=
  match scheduledTimes with
  | [] => true
  | slot :: rest => if overlaps s e slot then false else noConflict rest s e
  end.

Definition isSlotAvailable (scheduledTimes : list Interval) (s e : Z) : bool :=
  if END_BY_TIME <? e then false else noConflict scheduledTimes s e.

(** [isSlotAvailableNoEndLimit] of the bath branch. *)
Definition isSlotAvailableNoEndLimit (scheduledTimes : list Interval) (s e : Z) : bool :=
  noConflict scheduledTimes s e.

(** [for (let mins = from; mins >= 420; mins -= 15) if (free(mins)) return mins].
    The loop test is evaluated at most [fuel] times. *)
Fixpoint searchBackward (fuel : nat) (free : Z -> bool) (mins : Z) : option Z :=
  match fuel with
  | O => None
  | S fuel' =>
      if 420 <=? mins then
        if free mins then Some mins else searchBackward fuel' free (mins - 15)
      else None
  end.

(** [for (let mins = from; mins <= limit; mins += 15) if (free(mins)) return mins] *)
Fixpoint searchForward (fuel : nat) (free : Z -> bool) (limit : Z) (mins : Z) : option Z :=
  match fuel with
  | O => None
  | S fuel' =>
      if mins <=? limit then
        if free mins then Some mins else searchForward fuel' free limit (mins + 15)
      else None
  end.

(** Evaluations of the test of a loop that walks a distance [d] in steps of 15
    and then fails its test once. *)
Definition loopFuel (d : Z) : nat := S (S (Z.to_nat (d / 15))).

Definition findNextSlot (scheduledTimes : list Interval) (preferredMins duration : Z) : Z :=
  let free := fun mins => isSlotAvailable scheduledTimes mins (mins + duration) in
  let early :=
    if END_BY_TIME <? preferredMins + duration
    then searchBackward (loopFuel (END_BY_TIME - duration - 420)) free (END_BY_TIME - duration)
    else None in
  match early with
  | Some mins => mins
  | None =>
      if free preferredMins then preferredMins else
      match searchForward (loopFuel (END_BY_TIME - duration - (preferredMins + 15)))
                          free (END_BY_TIME - duration) (preferredMins + 15) with
      | Some mins => mins
      | None =>
          match searchBackward (loopFuel (preferredMins - 15 - 420)) free
                               (preferredMins - 15) with
          | Some mins => mins
          | None => preferredMins
          end
      end
  end.

(* ===================================================================== *)
(** ** Schedule assembly: [generateChecklist] *)
(* ===================================================================== *)

Record UserPreferences : Type := {
  babyBirthDate : string;
  babyName : string;
  locationName : string;               (* location.name; lat and lng play no part *)
  recurringTasks : list string;
  feedingTimes : list string;
  napsPerDay : Z;
  napDuration : Z
}.

Inductive ItemType : Type := recurring | bonus | feeding | nap.

Record ChecklistItem : Type := {
  itemId : string;                          (* id *)
  task : string;
  completed : bool;
  itemType : ItemType;                      (* type *)
  itemActivity : option Activity;           (* activity *)
  time : option string;
  timeBlock : option TimeBlock;
  suggestedTime : option string;
  canOverlap : option bool;
  socialActivity : option bool
}.

(** An entry of [recurringTimeSlots]; the fields the fallback object
    [{ time: '9:00 AM', duration: 20 }] lacks are [None] (undefined). *)
Record SlotInfo : Type := {
  slotTime : string;                        (* time *)
  slotDuration : Z;                         (* duration *)
  slotSocial : option bool;                 (* social *)
  exclusive : option bool;
  exemptFromEndTime : option bool
}.

Definition mkSlot (t : string) (d : Z) (soc excl : bool) (exempt : option bool) : SlotInfo :=
  {| slotTime := t; slotDuration := d; slotSocial := Some soc; exclusive := Some excl;
     exemptFromEndTime := exempt |}.

(** The table, in the order of its keys. *)
Definition recurringTimeSlots : list (string * SlotInfo) :=
  [ ("Read 5 books", mkSlot "9:00 AM" 20 true false None);
    ("Eating solids", mkSlot "12:30 PM" 30 false true None);
    ("Going for a walk", mkSlot "3:30 PM" 45 true true None);
    ("Having a bath", mkSlot "6:00 PM" 30 false true (Some true));
    ("Vestibular play", mkSlot "11:00 AM" 15 true false None);
    ("Crawling/walking practice", mkSlot "2:30 PM" 20 true false None);
    ("Music time", mkSlot "4:30 PM" 15 true false None) ].

Definition fallbackSlot : SlotInfo :=
  {| slotTime := "9:00 AM"; slotDuration := 20; slotSocial := None; exclusive := None;
     exemptFromEndTime := None |}.

Fixpoint lookupSlot (table : list (string * SlotInfo)) (key : string) : option SlotInfo :=
  match table with
  | [] => None
  | (k, v) :: rest => if String.eqb k key then Some v else lookupSlot rest key
  end.

(** The names every object literal inherits from [Object.prototype].  For a
    task of one of these names [recurringTimeSlots[task]] is the inherited
    member: it is truthy, so the fallback object is not taken, and it has no
    [time], so [parseTimeToMinutes(defaultSlot.time)] throws a TypeError and
    [generateChecklist] returns nothing. *)
Definition objectPrototypeMembers : list string :=
  ["constructor"; "hasOwnProperty"; "isPrototypeOf"; "propertyIsEnumerable";
   "toLocaleString"; "toString"; "valueOf"; "__proto__";
   "__defineGetter__"; "__defineSetter__"; "__lookupGetter__"; "__lookupSetter__"].

Definition inheritedMember (task : string) : bool :=
  existsb (String.eqb task) objectPrototypeMembers.

(** [recurringTimeSlots[task] || { time: '9:00 AM', duration: 20 }] for a
    task that is no inherited member.  The assembly below is the run of
    [generateChecklist] that returns: what is stated of the checklist it
    builds holds of the source when no recurring task is an inherited
    member ([inheritedMember]). *)
Definition defaultSlotOf (task : string) : SlotInfo :=
  match lookupSlot recurringTimeSlots task with
  | Some slot => slot
  | None => fallbackSlot
  end.

Definition isTrue (o : option bool) : bool :=
  match o with Some b => b | None => false end.

Definition visitorFriendlyTasks : list string :=
  map fst (filter (fun kv => isTrue (slotSocial (snd kv))) recurringTimeSlots).

(** [xs.indexOf(x)] for an [x] that occurs in [xs]. *)
Fixpoint indexOf (x : string) (xs : list string) : nat :=
  match xs with
  | [] => O
  | y :: rest => if String.eqb y x then O else S (indexOf x rest)
  end.

(** How an item came to its time; this tag and the numbers beside it are
    bookkeeping of the model, the emitted object is [item]. *)
Inductive Placement : Type :=
| Anchored      (* a feed, at its configured time *)
| Fulfilled     (* a recurring task anchored to the appointment that fulfils it *)
| Exempt        (* the task exempt from the end time, at its preferred time *)
| FreeSlot      (* [findNextSlot] returned a start that [isSlotAvailable] accepts *)
| Fallback.     (* [findNextSlot] returned its last line, [preferredMins] *)

Record Placed : Type := {
  item : ChecklistItem;
  startAt : Z;        (* minutes of the item's suggested time *)
  span : Z;           (* the item's duration *)
  how : Placement
}.

Record State : Type := {
  scheduledTimes : list Interval;
  items : list Placed
}.

Definition intervalOf (p : Placed) : Interval :=
  {| start := startAt p; end_ := startAt p + span p |}.

(** [scheduledTimes.push(...)] followed by [items.push(...)]. *)
Definition register (st : State) (p : Placed) : State :=
  {| scheduledTimes := scheduledTimes st ++ [intervalOf p]; items := items st ++ [p] |}.

(** [items.push(...)] alone. *)
Definition emit (st : State) (p : Placed) : State :=
  {| scheduledTimes := scheduledTimes st; items := items st ++ [p] |}.

(** The tag of a start returned by [findNextSlot]. *)
Definition slotTag (sched : list Interval) (mins dur : Z) : Placement :=
  if isSlotAvailable sched mins (mins + dur) then FreeSlot else Fallback.

Definition idOf (prefix : string) (index : nat) : string :=
  (prefix ++ Str.ofZ (Z.of_nat index))%string.

(** The appointments [generateChecklist] works with. *)
Definition appointmentsOf (sv : DailySurvey) : list ParsedAppointment :=
  match parsedAppointments sv with
  | Some l => l
  | None => parseAppointments (match appointments sv with Some t => t | None => "" end)
  end.

(** [fulfilledTasks]: the truthy [fulfillsTask] values. *)
Definition fulfilledTasksOf (apts : list ParsedAppointment) : list string :=
  filterMap (fun apt => match fulfillsTask apt with
                        | Some t => if Str.isEmpty t then None else Some t
                        | None => None
                        end) apts.

Definition hasTask (tasks : list string) (t : string) : bool :=
  existsb (String.eqb t) tasks.

Definition fulfils (t : string) (apt : ParsedAppointment) : bool :=
  match fulfillsTask apt with Some u => String.eqb u t | None => false end.

Definition isVisitor (apt : ParsedAppointment) : bool :=
  match aptType apt with visitor => true | _ => false end.

(** The window of the visitor appointment when both of its ends are known. *)
Definition visitorWindow (visitorApt : option ParsedAppointment) : option (Z * Z) :=
  match visitorApt with
  | Some v =>
      match startMins v, endMins v with
      | Some s, Some e => Some (s, e)
      | _, _ => None
      end
  | None => None
  end.

Fixpoint addFeeds (times : list string) (index : nat) (st : State) : State :=
  match times with
  | [] => st
  | t :: rest =>
      let mins := parseTimeToMinutes t in
      addFeeds rest (S index)
        (register st
           {| item := {| itemId := idOf "feeding-" index; task := "Feed baby";
                         completed := false; itemType := feeding; itemActivity := None;
                         time := Some (minutesToTimeString mins);
                         timeBlock := Some (getTimeBlock mins);
                         suggestedTime := Some (minutesToTimeString mins);
                         canOverlap := None; socialActivity := None |};
              startAt := mins; span := 30; how := Anchored |})
  end.

Fixpoint addAppointments (apts : list ParsedAppointment) (st : State) : State :=
  match apts with
  | [] => st
  | apt :: rest =>
      addAppointments rest
        match startMins apt, endMins apt with
        | Some s, Some e =>
            {| scheduledTimes := scheduledTimes st ++ [{| start := s; end_ := e |}];
               items := items st |}
        | _, _ => st
        end
  end.

Definition napTimes : list string := ["10:00 AM"; "2:30 PM"].

(** [napTimes[i] || napTimes[napTimes.length - 1]] *)
Definition napTimeOf (i : nat) : string :=
  match nth_error napTimes i with
  | Some t => t
  | None => nth (length napTimes - 1) napTimes ""
  end.

(** [for (let i = 0; i < preferences.napsPerDay; i++)] *)
Fixpoint addNaps (prefs : UserPreferences) (iters : nat) (i : nat) (st : State) : State :=
  match iters with
  | O => st
  | S iters' =>
      let preferredMins := parseTimeToMinutes (napTimeOf i) in
      let duration := if napDuration prefs =? 0 then 30 else napDuration prefs in
      let mins := findNextSlot (scheduledTimes st) preferredMins duration in
      addNaps prefs iters' (S i)
        (register st
           {| item := {| itemId := idOf "nap-" i;
                         task := ("Nap " ++ Str.ofZ (Z.of_nat i + 1) ++ " (~"
                                    ++ Str.ofZ duration ++ "min)")%string;
                         completed := false; itemType := nap; itemActivity := None;
                         time := None;
                         timeBlock := Some (getTimeBlock mins);
                         suggestedTime := Some (minutesToTimeString mins);
                         canOverlap := None; socialActivity := None |};
              startAt := mins; span := duration;
              how := slotTag (scheduledTimes st) mins duration |})
  end.

(** /walk.*with\s*/i and /at\s*\d.*/i *)
Definition reWalkWith : regex := seqs [lit "walk"; anyStar; lit "with"; ws0].
Definition reAtTime : regex := seqs [lit "at"; ws0; digit; anyStar].

Definition companionOf (apt : ParsedAppointment) : string :=
  let who := Str.trim (remove reAtTime (remove reWalkWith (description apt))) in
  if Str.isEmpty who then "friend" else who.

(** The body of [preferences.recurringTasks.forEach((task, index) => ...)]. *)
Definition addRecurring (apts : list ParsedAppointment) (task : string) (index : nat)
           (st : State) : State :=
  let fulfilledTasks := fulfilledTasksOf apts in
  let visitorApt := find isVisitor apts in
  let defaultSlot := defaultSlotOf task in
  let anchor :=
    if hasTask fulfilledTasks task then
      match find (fulfils task) apts with
      | Some apt => match startMins apt with Some s => Some (apt, s) | None => None end
      | None => None
      end
    else None in
  match anchor with
  | Some (apt, s) =>
      emit st
        {| item := {| itemId := idOf "recurring-" index;
                      task := (task ++ " (with " ++ companionOf apt ++ ")")%string;
                      completed := false; itemType := recurring; itemActivity := None;
                      time := None;
                      timeBlock := Some (getTimeBlock s);
                      suggestedTime := startTime apt;
                      canOverlap := None; socialActivity := None |};
           startAt := s; span := slotDuration defaultSlot; how := Fulfilled |}
  | None =>
      let preferredMins := parseTimeToMinutes (slotTime defaultSlot) in
      let preferredMins :=
        match visitorWindow visitorApt with
        | Some (vs, ve) =>
            if hasTask visitorFriendlyTasks task then
              let visitorDuration := ve - vs in
              let taskIndex := Z.of_nat (indexOf task visitorFriendlyTasks) in
              vs + (visitorDuration * (taskIndex + 1))
                     / (Z.of_nat (length visitorFriendlyTasks) + 1)
            else preferredMins
        | None => preferredMins
        end in
      let exempt := isTrue (exemptFromEndTime defaultSlot) in
      let mins :=
        if exempt then
          if isSlotAvailableNoEndLimit (scheduledTimes st) preferredMins
                                       (preferredMins + slotDuration defaultSlot)
          then preferredMins else preferredMins
        else findNextSlot (scheduledTimes st) preferredMins (slotDuration defaultSlot) in
      register st
        {| item := {| itemId := idOf "recurring-" index; task := task;
                      completed := false; itemType := recurring; itemActivity := None;
                      time := None;
                      timeBlock := Some (getTimeBlock mins);
                      suggestedTime := Some (minutesToTimeString mins);
                      canOverlap := Some (negb (isTrue (exclusive defaultSlot)));
                      socialActivity := slotSocial defaultSlot |};
           startAt := mins; span := slotDuration defaultSlot;
           how := if exempt then Exempt
                  else slotTag (scheduledTimes st) mins (slotDuration defaultSlot) |}
  end.

Fixpoint addRecurringTasks (apts : list ParsedAppointment) (tasks : list string)
         (index : nat) (st : State) : State :=
  match tasks with
  | [] => st
  | t :: rest => addRecurringTasks apts rest (S index) (addRecurring apts t index st)
  end.

Definition bonusDefaultTimes : list Z := [570; 810; 930].

(** [bonusDefaultTimes[index] || bonusDefaultTimes[0]] *)
Definition bonusTimeOf (index : nat) : Z :=
  match truthy (nth_error bonusDefaultTimes index) with
  | Some t => t
  | None => nth 0 bonusDefaultTimes 0
  end.

Definition visitorFriendlyActivity (a : Activity) : bool :=
  indoor a && match category a with
              | sensory | social | creative => true
              | _ => false
              end.

(** The body of [bonusActivities.forEach((activity, index) => ...)]. *)
Definition addBonus (apts : list ParsedAppointment) (a : Activity) (index : nat)
           (st : State) : State :=
  let visitorApt := find isVisitor apts in
  let preferredMins := bonusTimeOf index in
  let preferredMins :=
    match visitorWindow visitorApt with
    | Some (vs, ve) =>
        if visitorFriendlyActivity a then
          let visitorDuration := ve - vs in
          vs + (visitorDuration * (Z.of_nat index + 1)) / 4
        else preferredMins
    | None => preferredMins
    end in
  let mins := findNextSlot (scheduledTimes st) preferredMins (duration a) in
  register st
    {| item := {| itemId := idOf "bonus-" index;
                  task := (title a ++ " (" ++ Str.ofZ (duration a) ++ "min)")%string;
                  completed := false; itemType := bonus; itemActivity := Some a;
                  time := None;
                  timeBlock := Some (getTimeBlock mins);
                  suggestedTime := Some (minutesToTimeString mins);
                  canOverlap := None; socialActivity := None |};
       startAt := mins; span := duration a;
       how := slotTag (scheduledTimes st) mins (duration a) |}.

Fixpoint addBonuses (apts : list ParsedAppointment) (acts : list Activity)
         (index : nat) (st : State) : State :=
  match acts with
  | [] => st
  | a :: rest => addBonuses apts rest (S index) (addBonus apts a index st)
  end.

(** The key of the final sort: [a.suggestedTime ? parseTimeToMinutes(a.suggestedTime) : 0];
    the empty string is falsy. *)
Definition sortKey (it : ChecklistItem) : Z :=
  match suggestedTime it with
  | Some t => if Str.isEmpty t then 0 else parseTimeToMinutes t
  | None => 0
  end.

Section Assembly.

Variable activities : list Activity.
Variable ageMonths : Age.
Variable random : nat -> Q.
(** The value of [getPreferences()]. *)
Variable preferences : UserPreferences.

(** The state of [generateChecklist] before the final sort. *)
Definition assemble (sv : DailySurvey) (w : option WeatherData) : State :=
  let apts := appointmentsOf sv in
  let st := {| scheduledTimes := []; items := [] |} in
  let st := addFeeds (feedingTimes preferences) 0 st in
  let st := addAppointments apts st in
  let st :=
    if 0 <? napsPerDay preferences
    then addNaps preferences (Z.to_nat (napsPerDay preferences)) 0 st else st in
  let st := addRecurringTasks apts (recurringTasks preferences) 0 st in
  let bonusActivities :=
    selectBonusActivities activities ageMonths random sv w 3 None in
  addBonuses apts (map val bonusActivities) 0 st.

(** The items with their bookkeeping, in the order of their creation. *)
Definition placements (sv : DailySurvey) (w : option WeatherData) : list Placed :=
  items (assemble sv w).

Definition generateChecklist (sv : DailySurvey) (w : option WeatherData)
  : list ChecklistItem :=
  stableSort (fun a b => sortKey a <? sortKey b) (map item (placements sv w)).

End Assembly.

(* ===================================================================== *)
(** ** The earlier slot search: [conflictsWithAppointments], [findAvailableSlot] *)
(* ===================================================================== *)

(** [conflictsWithAppointments]: an appointment without both minutes is
    passed over. *)
Fixpoint conflictsWithAppointments (s0 e0 : Z) (appointments : list ParsedAppointment)
  : bool :=
  match appointments with
  | [] => false
  | apt :: rest =>
      match startMins apt, endMins apt with
      | Some s, Some e =>
          if (s0 <? e) && (s <? e0) then true
          else conflictsWithAppointments s0 e0 rest
      | _, _ => conflictsWithAppointments s0 e0 rest
      end
  end.

(** The test both places of [findAvailableSlot] make: no appointment
    conflicts and [scheduledTimes.some(...)] finds no overlap. *)
Definition slotIsClear (appointments : list ParsedAppointment)
           (scheduledTimes : list Interval) (mins duration : Z) : bool :=
  if negb (conflictsWithAppointments mins (mins + duration) appointments) then
    negb (existsb (fun s => (mins <? end_ s) && (start s <? mins + duration))
                  scheduledTimes)
  else false.

(** [for (let mins = minTime; mins <= maxTime - duration; mins += 30)] *)
Fixpoint searchHalfHours (fuel : nat) (clear : Z -> bool) (limit : Z) (mins : Z)
  : option Z :=
  match fuel with
  | O => None
  | S fuel' =>
      if mins <=? limit then
        if clear mins then Some mins else searchHalfHours fuel' clear limit (mins + 30)
      else None
  end.

(** [findAvailableSlot]; [minTime] and [maxTime] default to 480 and 1080. *)
Definition findAvailableSlot (preferredMins duration : Z)
           (appointments : list ParsedAppointment) (scheduledTimes : list Interval)
           (minTime maxTime : option Z) : Z :=
  let minTime := match minTime with Some t => t | None => 480 end in
  let maxTime := match maxTime with Some t => t | None => 1080 end in
  let clear := slotIsClear appointments scheduledTimes in
  if clear preferredMins duration then preferredMins else
  match searchHalfHours (S (S (Z.to_nat ((maxTime - duration - minTime) / 30))))
                        (fun mins => clear mins duration) (maxTime - duration) minTime with
  | Some mins => mins
  | None => preferredMins
  end.

(* ===================================================================== *)
(** ** Catalogue look-ups *)
(* ===================================================================== *)

(** [getActivityById] and [getActivitiesByCategory] over the catalogue
    [activities]; the age is the value of [getBabyAgeMonths()]. *)
Definition getActivityById (activities : list Activity) (wanted : string)
  : option Activity :=
  find (fun a => String.eqb (id a) wanted) activities.

Definition getActivitiesByCategory (activities : list Activity) (ageMonths : Age)
           (c : Category) : list Activity :=
  filter (fun a => Category_eqb (category a) c
                   && Age_geb ageMonths (AgeRange.min (ageRange a))
                   && Age_leb ageMonths (AgeRange.max (ageRange a)))
         activities.

(* ===================================================================== *)
(** ** Callers: the checklist view and the page *)
(* ===================================================================== *)

(** [parseTime] of the checklist view: the 12-hour clock format alone. *)
Definition parseTime (time : string) : Z :=
  match exec reClock12 time with
  | None => 0
  | Some m =>
      let hours := Str.parseInt (group 1 m) in
      let minutes := Str.parseInt (group 2 m) in
      let isPM := String.eqb (Str.toUpperCase (group 3 m)) "PM" in
      to24 hours isPM * 60 + minutes
  end.

(** The time block [handleSaveEdit] gives an edited item:
    [let newBlock = 'morning'; if (mins >= 720) newBlock = 'midday'; ...]. *)
Definition editedTimeBlock (mins : Z) : TimeBlock :=
  let newBlock := morning in
  let newBlock := if 720 <=? mins then midday else newBlock in
  let newBlock := if 840 <=? mins then afternoon else newBlock in
  let newBlock := if 1020 <=? mins then evening else newBlock in
  newBlock.

(** [DailyChecklist] of types/index.ts. *)
Record DailyChecklist : Type := {
  checklistDate : string;                   (* date *)
  checklistItems : list ChecklistItem;      (* items *)
  surveyCompleted : bool
}.

(** [{ ...item, completed: !item.completed }] *)
Definition flipCompleted (it : ChecklistItem) : ChecklistItem :=
  {| itemId := itemId it; task := task it; completed := negb (completed it);
     itemType := itemType it; itemActivity := itemActivity it; time := time it;
     timeBlock := timeBlock it; suggestedTime := suggestedTime it;
     canOverlap := canOverlap it; socialActivity := socialActivity it |}.

(** [getTodayChecklist]: [stored] is the value kept under the checklist key
    (absent, or a checklist, read back as it was written), [today] the date
    of the day. *)
Definition getTodayChecklist (today : string) (stored : option DailyChecklist)
  : option DailyChecklist :=
  match stored with
  | Some checklist =>
      if String.eqb (checklistDate checklist) today then Some checklist else None
  | None => None
  end.

(** [toggleChecklistItem]: the value returned and the value kept under the
    checklist key afterwards. *)
Definition toggleChecklistItem (today : string) (wanted : string)
           (stored : option DailyChecklist)
  : option DailyChecklist * option DailyChecklist :=
  match getTodayChecklist today stored with
  | None => (None, stored)
  | Some checklist =>
      let updatedItems :=
        map (fun it => if String.eqb (itemId it) wanted then flipCompleted it else it)
            (checklistItems checklist) in
      let updated := {| checklistDate := checklistDate checklist;
                        checklistItems := updatedItems;
                        surveyCompleted := surveyCompleted checklist |} in
      (Some updated, Some updated)
  end.

(** [{ ...i, task: `${replacement.title} (${replacement.duration}min)`,
       activity: replacement }] *)
Definition withActivity (it : ChecklistItem) (replacement : Activity) : ChecklistItem :=
  {| itemId := itemId it;
     task := (title replacement ++ " (" ++ Str.ofZ (duration replacement) ++ "min)")%string;
     completed := completed it; itemType := itemType it;
     itemActivity := Some replacement; time := time it;
     timeBlock := timeBlock it; suggestedTime := suggestedTime it;
     canOverlap := canOverlap it; socialActivity := socialActivity it |}.

Definition isBonus (it : ChecklistItem) : bool :=
  match itemType it with bonus => true | _ => false end.

(** [currentBonusIds] of [handleRefreshBonusActivity]. *)
Definition currentBonusIdsOf (items : list ChecklistItem) : list string :=
  filterMap (fun it => if isBonus it
                       then match itemActivity it with
                            | Some a => Some (id a)
                            | None => None
                            end
                       else None) items.

(** [scheduledMins] of [handleRefreshBonusActivity]: defined when the
    suggested time is in the 12-hour clock format. *)
Definition scheduledMinsOf (it : ChecklistItem) : option Z :=
  match suggestedTime it with
  | Some t =>
      if Str.isEmpty t then None else
      match exec reClock12 t with
      | Some m =>
          let hours := Str.parseInt (group 1 m) in
          let minutes := Str.parseInt (group 2 m) in
          let isPM := String.eqb (Str.toUpperCase (group 3 m)) "PM" in
          Some (to24 hours isPM * 60 + minutes)
      | None => None
      end
  | None => None
  end.

Section Page.

Variable activities : list Activity.
Variable ageMonths : Age.
Variable random : nat -> Q.

(** [handleRefreshBonusActivity] on the items of the checklist: the items
    saved, or [None] when the handler returns without saving. *)
Definition refreshBonusActivity (items : list ChecklistItem) (sv : DailySurvey)
           (w : option WeatherData) (wanted : string) : option (list ChecklistItem) :=
  match find (fun i => String.eqb (itemId i) wanted) items with
  | None => None
  | Some it =>
      if negb (isBonus it) then None else
      let currentBonusIds := currentBonusIdsOf items in
      let scheduledMins := scheduledMinsOf it in
      match getReplacementActivity activities ageMonths random sv w
                                   currentBonusIds scheduledMins with
      | None => None
      | Some replacement =>
          Some (map (fun i => if String.eqb (itemId i) wanted
                              then withActivity i (val replacement) else i) items)
      end
  end.

End Page.

(* ===================================================================== *)
(** * Definitions of the specification and worked inputs *)
(* ===================================================================== *)

(** ** Time strings *)

(** The integers [a], [a + 1], ..., [a + n - 1]. *)
Definition range (a : Z) (n : nat) : list Z := map (fun k => a + Z.of_nat k) (seq 0 n).

(** The character of a decimal digit. *)
Definition digitChar (d : Z) : ascii := ascii_of_N (Z.to_N (48 + d)).

(** The canonical rendering "H:MM AM/PM": the hour 1..12 without a leading
    zero, a colon, two minute digits, a space and the meridiem. *)
Definition canonicalTime (h m : Z) (pm : bool) : string :=
  let hourText :=
    if h <? 10 then String (digitChar h) ""
    else String (digitChar (h / 10)) (String (digitChar (h mod 10)) "") in
  let minuteText := String (digitChar (m / 10)) (String (digitChar (m mod 10)) "") in
  (hourText ++ ":" ++ minuteText ++ " " ++ (if pm then "PM" else "AM"))%string.

(** The checks behind the two round trips, for evaluation over a range. *)
Definition roundTripsAt (h m : Z) (pm : bool) : bool :=
  String.eqb (minutesToTimeString (parseTimeToMinutes (canonicalTime h m pm)))
             (canonicalTime h m pm).

Definition parsesBackAt (m : Z) : bool := parseTimeToMinutes (minutesToTimeString m) =? m.

(** ** The slot finder of the specification *)

(** The successive starts of a scan by 15 minutes: downward from [from] while
    the start is at least 07:00 (420), upward from [from] while the start is
    at most [upto]. *)
Definition stepsDown (from : Z) : list Z :=
  map (fun k => from - 15 * Z.of_nat k) (seq 0 (Z.to_nat ((from - 420) / 15 + 1))).

Definition stepsUp (from upto : Z) : list Z :=
  map (fun k => from + 15 * Z.of_nat k) (seq 0 (Z.to_nat ((upto - from) / 15 + 1))).

(** [isFree] of the specification: false if [e] exceeds the boundary or the
    interval overlaps an occupied one. *)
Definition isFree (occupied : list Interval) (s e : Z) : bool :=
  negb (1110 <? e)
  && forallb (fun o => negb ((s <? end_ o) && (start o <? e))) occupied.

(** The candidate starts of [placeNear] in the order of its steps 1 to 4:
    when the preferred start would run past the boundary, backward from
    [boundary - duration] down to 07:00; the preferred start; forward from
    [preferredStart + 15] up to [boundary - duration]; backward from
    [preferredStart - 15] down to 07:00. *)
Definition candidateStarts (preferredStart duration : Z) : list Z :=
  (if 1110 <? preferredStart + duration then stepsDown (1110 - duration) else [])
  ++ [preferredStart]
  ++ stepsUp (preferredStart + 15) (1110 - duration)
  ++ stepsDown (preferredStart - 15).

(** [placeNear] of the specification, following its words: the first free
    candidate start is returned, and [preferredStart] when none is free. *)
Definition placeNear (occupied : list Interval) (preferredStart duration : Z) : Z :=
  match find (fun s => isFree occupied s (s + duration))
             (candidateStarts preferredStart duration) with
  | Some s => s
  | None => preferredStart
  end.

(** ** Invariants of the assembly *)

(** An occupied interval registered for an appointment, as it was parsed. *)
Definition FromAppointment (apts : list ParsedAppointment) (iv : Interval) : Prop :=
  exists apt, In apt apts /\ startMins apt = Some (start iv) /\ endMins apt = Some (end_ iv).

(** What holds between an item [q] and an item [p] created after it. *)
Definition Compatible (q p : Placed) : Prop :=
  match how p with
  | FreeSlot =>
      how q <> Fulfilled ->
      overlaps (startAt p) (startAt p + span p) (intervalOf q) = false
  | Anchored => how q = Anchored
  | _ => True
  end.

Record Inv (st : State) : Prop := {
  inv_registered :
    forall p, In p (items st) -> how p <> Fulfilled ->
              In (intervalOf p) (scheduledTimes st);
  inv_pairs : ForallOrdPairs Compatible (items st);
  inv_boundary :
    forall p, In p (items st) -> how p = FreeSlot -> startAt p + span p <= END_BY_TIME;
  inv_exempt :
    forall p, In p (items st) -> how p = Exempt ->
              task (item p) = "Having a bath" /\ startAt p = 1080 /\ span p = 30;
  inv_time :
    forall p, In p (items st) -> how p <> Fulfilled ->
              suggestedTime (item p) = Some (minutesToTimeString (startAt p))
}.

(** Every registered interval has a positive length or is an appointment's. *)
Definition SchedOK (apts : list ParsedAppointment) (st : State) : Prop :=
  Forall (fun iv => start iv < end_ iv \/ FromAppointment apts iv) (scheduledTimes st).

(** What every phase of the assembly maintains; [positiveDurations] stands
    for the conditions on the configured durations under which the lengths of
    the registered intervals are positive. *)
Definition Good (apts : list ParsedAppointment) (positiveDurations : Prop) (st : State)
  : Prop :=
  Inv st /\ (positiveDurations -> SchedOK apts st).

(** ** Selection *)

(** The identities of a list of catalogue objects. *)
Definition addrs (l : list Obj) : list nat := map addr l.

(** The activities of the pool, in catalogue order. *)
Definition poolObjs (activities : list Activity) (ageMonths : Age) (random : nat -> Q)
           (sv : DailySurvey) (w : option WeatherData) : list Obj :=
  map activity (candidatePool activities ageMonths random sv w).

(** The pushes of both loops of [pickDiverseActivitiesWithTimeConstraints],
    each with the index [i] of the slot it was made for.  These follow
    [slotLoop] and [fillLoop] line by line and only add the record. *)
Fixpoint slotLoopLog (count : Z) (sorted : list Obj) (scheduledTimes : list Z)
         (iters : nat) (i : nat) (selected : list Obj) (usedCategories : list Category)
         (log : list (nat * Obj)) : list (nat * Obj) :=
  match iters with
  | O => log
  | S iters' =>
      if Z.of_nat (length selected) <? count then
        match pickForSlot count (length sorted) (slotMins scheduledTimes i)
                          selected usedCategories sorted with
        | Some a =>
            slotLoopLog count sorted scheduledTimes iters' (S i)
                        (selected ++ [a]) (category (val a) :: usedCategories)
                        (log ++ [(i, a)])
        | None =>
            slotLoopLog count sorted scheduledTimes iters' (S i) selected usedCategories log
        end
      else log
  end.

Fixpoint fillLoopLog (sorted : list Obj) (scheduledTimes : list Z)
         (iters : nat) (i : nat) (selected : list Obj) (log : list (nat * Obj))
  : list (nat * Obj) :=
  match iters with
  | O => log
  | S iters' =>
      match fillForSlot (slotMins scheduledTimes i) selected sorted with
      | Some a =>
          fillLoopLog sorted scheduledTimes iters' (S i) (selected ++ [a])
                      (log ++ [(i, a)])
      | None => fillLoopLog sorted scheduledTimes iters' (S i) selected log
      end
  end.

Definition timedPicks (scored : list Scored) (count : Z) (scheduledTimes : list Z)
  : list (nat * Obj) :=
  let sorted := sortByScore scored in
  let '(selected, _) := slotLoop count sorted scheduledTimes (Z.to_nat count) 0 [] [] in
  let log := slotLoopLog count sorted scheduledTimes (Z.to_nat count) 0 [] [] [] in
  fillLoopLog sorted scheduledTimes
              (Z.to_nat (count - Z.of_nat (length selected))) (length selected) selected log.

(** Both loops keep the selection free of repetitions and inside [sorted]. *)
Definition Picked (sorted selected : list Obj) : Prop :=
  NoDup (addrs selected) /\ incl selected sorted.

(** ** Worked inputs *)

(** Entries in the format of the catalogue [activities.json], for the worked
    examples below. *)
Definition cafeVisit : Activity :=
  {| id := "cafe-visit"; title := "Baby-friendly cafe visit";
     blurb := "Meet at a cafe with room for prams";
     duration := 60; energyRequired := low; indoor := true; category := social;
     ageRange := {| AgeRange.min := 0; AgeRange.max := 24 |};
     materials := None; weatherDependent := None; tags := ["outing"; "social"] |}.

Definition sensoryBottles : Activity :=
  {| id := "sensory-bottles"; title := "Sensory bottles";
     blurb := "Shake and watch bottles filled with rice and glitter";
     duration := 15; energyRequired := low; indoor := true; category := sensory;
     ageRange := {| AgeRange.min := 3; AgeRange.max := 18 |};
     materials := Some ["bottles"; "rice"]; weatherDependent := None;
     tags := ["sensory"; "quiet"] |}.

Definition fingerPainting : Activity :=
  {| id := "finger-painting"; title := "Finger painting";
     blurb := "Edible paint on a large sheet";
     duration := 30; energyRequired := medium; indoor := true; category := creative;
     ageRange := {| AgeRange.min := 6; AgeRange.max := 36 |};
     materials := Some ["paint"; "paper"]; weatherDependent := None;
     tags := ["messy"; "creative"] |}.

Definition sampleCatalogue : list Activity := [cafeVisit; sensoryBottles; fingerPainting].

Definition sampleRandom (n : nat) : Q := 1 # 2.

(** DEFAULT_PREFERENCES of storage.ts. *)
Definition DEFAULT_PREFERENCES : UserPreferences :=
  {| babyBirthDate := "2025-06-15"; babyName := "Baby";
     locationName := "Melbourne, Australia";
     recurringTasks := ["Read 5 books"; "Eating solids"; "Going for a walk";
                        "Having a bath"; "Vestibular play";
                        "Crawling/walking practice"; "Music time"];
     feedingTimes := ["8:00 AM"; "12:00 PM"; "4:00 PM"; "7:30 PM"];
     napsPerDay := 2; napDuration := 30 |}.

Definition surveyWith (text : option string) : DailySurvey :=
  {| date := "2026-03-02"; energyLevel := medium; stayingHome := false;
     wantsCrafts := false; activityMoods := []; focusAreas := [];
     freeTimeWindows := []; appointments := text; parsedAppointments := None |}.

Definition cafeObj : Obj := {| addr := 0; val := cafeVisit |}.

(** ** The claims about selection and schedule as the specification states them *)

(** C8 as the specification states it: an under-filled result only from a
    pool smaller than [count]. *)
Definition UnderfillOnlyFromSmallPool (activities : list Activity) (ageMonths : Age)
           (random : nat -> Q) (sv : DailySurvey) (w : option WeatherData)
           (count : Z) (times : option (list Z)) : Prop :=
  Z.of_nat (length (selectBonusActivities activities ageMonths random sv w count times))
    < count ->
  Z.of_nat (length (candidatePool activities ageMonths random sv w)) < count.

(** [canOverlap] is false or absent. *)
Definition nonOverlappable (p : Placed) : Prop := canOverlap (item p) <> Some true.

(** The item is the bath task. *)
Definition isBathTask (p : Placed) : Prop := task (item p) = "Having a bath".

(** The occupied intervals of two items satisfy
    [start < other.end && end > other.start]. *)
Definition intervalsOverlap (p q : Placed) : Prop :=
  startAt p < startAt q + span q /\ startAt p + span p > startAt q.

(** A later state of the assembly keeps what an earlier one holds. *)
Definition Extends (st st' : State) : Prop :=
  (exists more, items st' = items st ++ more)
  /\ (exists more, scheduledTimes st' = scheduledTimes st ++ more).

(** The default preferences with no appointment, with a walk at 4 PM, and
    with a visitor "6-8". *)
Abbreviation quietDay :=
  (placements sampleCatalogue 8 sampleRandom DEFAULT_PREFERENCES (surveyWith None) None).

Abbreviation walkDay :=
  (placements sampleCatalogue 8 sampleRandom DEFAULT_PREFERENCES
              (surveyWith (Some "walk with Sam at 4pm")) None).

Abbreviation visitorDay :=
  (assemble sampleCatalogue 8 sampleRandom DEFAULT_PREFERENCES
            (surveyWith (Some "friend coming over 6-8")) None).

(** The default preferences on a day taken up by a doctor's appointment and a
    visit from 1 PM to 11 PM, and on a day with a visit from 4 PM to 7 PM. *)
Abbreviation busyDay :=
  (placements sampleCatalogue 8 sampleRandom DEFAULT_PREFERENCES
              (surveyWith (Some "doctor 7am-1pm, friend 1pm-11pm")) None).

Abbreviation lateVisitDay :=
  (placements sampleCatalogue 8 sampleRandom DEFAULT_PREFERENCES
              (surveyWith (Some "friend coming over 4-7pm")) None).

(** No recurring task is named like an inherited member of
    [Object.prototype]: every lookup of [generateChecklist] finds a slot or
    nothing, no call throws, and the checklist is returned. *)
Definition NoInheritedTask (preferences : UserPreferences) : Prop :=
  Forall (fun t => inheritedMember t = false) (recurringTasks preferences).

(** The value read beyond the end of a run. *)
Definition noPlaced : Placed :=
  {| item := {| itemId := ""; task := ""; completed := false; itemType := bonus;
                itemActivity := None; time := None; timeBlock := None;
                suggestedTime := None; canOverlap := None; socialActivity := None |};
     startAt := 0; span := 0; how := Fallback |}.

(** The [n]-th item created by a run. *)
Definition created (n : nat) (run : list Placed) : Placed := nth n run noPlaced.

(** The identifier, the suggested time, the key of the final sort, and the
    bookkeeping of an item. *)
Definition summary (p : Placed) : string * option string * Z * Z * Z * Placement :=
  (itemId (item p), suggestedTime (item p), sortKey (item p), startAt p, span p, how p).

(** Boolean tests, so that the facts about a worked run are settled by
    evaluation. *)
Definition Placement_eqb (a b : Placement) : bool :=
  match a, b with
  | Anchored, Anchored | Fulfilled, Fulfilled | Exempt, Exempt
  | FreeSlot, FreeSlot | Fallback, Fallback => true
  | _, _ => false
  end.

Definition Interval_eqb (a b : Interval) : bool :=
  (start a =? start b) && (end_ a =? end_ b).

Definition nonOverlappableb (p : Placed) : bool :=
  match canOverlap (item p) with Some true => false | _ => true end.

Definition isBathTaskb (p : Placed) : bool := String.eqb (task (item p)) "Having a bath".

Definition intervalsOverlapb (p q : Placed) : bool :=
  (startAt p <? startAt q + span q) && (startAt q <? startAt p + span p).

(** C1 as the specification states it. *)
Definition NoOverlapClaim (run : list Placed) : Prop :=
  forall p q, In p run -> In q run -> p <> q ->
              nonOverlappable p -> nonOverlappable q ->
              ~ isBathTask p -> ~ isBathTask q ->
              how p <> Fallback -> how q <> Fallback ->
              ~ intervalsOverlap p q.

(** C2 as the specification states it. *)
Definition EndsByBoundaryClaim (run : list Placed) : Prop :=
  forall p, In p run -> ~ isBathTask p -> startAt p + span p <= 1110.

(** C5 as the specification states it: the items placed after the bath
    avoid its interval. *)
Definition LaterAvoidBathClaim (run : list Placed) : Prop :=
  forall earlier bath later,
    run = earlier ++ bath :: later -> isBathTask bath ->
    forall q, In q later -> ~ intervalsOverlap q bath.


(** ** Definitions for the further properties *)

(** The hour shown for a minute of the day, and whether it is PM. *)
Definition hourShown (m : Z) : Z :=
  let h := m / 60 in if 12 <? h then h - 12 else if h =? 0 then 12 else h.

Definition rendersCanonicalAt (m : Z) : bool :=
  String.eqb (minutesToTimeString m) (canonicalTime (hourShown m) (m mod 60) (12 <=? m / 60))
  && (1 <=? hourShown m) && (hourShown m <=? 12).

Definition viewReadsBackAt (m : Z) : bool := parseTime (minutesToTimeString m) =? m.

(** No character of the text is a decimal digit. *)
Fixpoint digitFree (s : string) : bool :=
  match s with
  | EmptyString => true
  | String c s' => negb (Str.isDigit c) && digitFree s'
  end.

(** The time fields of a parsed appointment are all absent, or all present
    with the two strings rendering the two numbers of minutes. *)
Definition TimesAgree (a : ParsedAppointment) : Prop :=
  (startMins a = None /\ endMins a = None /\ startTime a = None /\ endTime a = None)
  \/ exists s e,
      0 <= s /\ 0 <= e
      /\ startMins a = Some s /\ endMins a = Some e
      /\ startTime a = Some (minutesToTimeString s)
      /\ endTime a = Some (minutesToTimeString e).

(** An appointment fulfils no recurring task, or it is an outing that
    fulfils the walk. *)
Definition FulfilsOnlyWalk (a : ParsedAppointment) : Prop :=
  fulfillsTask a = None
  \/ (fulfillsTask a = Some "Going for a walk" /\ aptType a = outing).

(** A start of the half-hour scan of [findAvailableSlot]: [minTime] plus a
    multiple of 30 that leaves room for [duration] before [maxTime]. *)
Definition HalfHourStart (minTime maxTime duration mins : Z) : Prop :=
  (exists i, 0 <= i /\ mins = minTime + 30 * i) /\ mins + duration <= maxTime.

Definition orDefault (o : option Z) (d : Z) : Z :=
  match o with Some t => t | None => d end.

(** The age range holds the baby's age when the age is a number; nothing is
    said of the age [NaN], which no comparison of [scoreActivity] rejects. *)
Definition InAgeRange (ageMonths : Age) (a : Activity) : Prop :=
  forall n, ageMonths = Months n ->
            AgeRange.min (ageRange a) <= n <= AgeRange.max (ageRange a).

(** What [scoreActivity] and [overlapsWithRecurringTasks] demand of an
    activity before it can be suggested: the baby's age, when it is a
    number, is in its range, it is indoor when the day is spent at home or
    it rains, and neither its title nor its tags speak of a walk, a stroll
    or a bath. *)
Definition Eligible (ageMonths : Age) (sv : DailySurvey) (w : option WeatherData)
           (a : Activity) : Prop :=
  InAgeRange ageMonths a
  /\ (stayingHome sv = true -> indoor a = true)
  /\ (forall wd, w = Some wd -> isRainy wd = true -> indoor a = true)
  /\ overlapsWithRecurringTasks a = false.

(** The scored candidates [getReplacementActivity] sorts: its chain of
    filters, [map] and [filter] up to the [sort]. *)
Definition replacementCandidates (activities : list Activity) (ageMonths : Age)
           (random : nat -> Q) (sv : DailySurvey) (w : option WeatherData)
           (excludeActivityIds : list string) (scheduledMinutes : option Z) : list Scored :=
  let context := {| survey := sv; weather := w; babyAgeMonths := ageMonths |} in
  filter (fun s => Qpos (score s))
    (scoreAll random context
       (filter (fun a =>
                  match scheduledMinutes with
                  | Some m => negb (endsAfter3pm (val a) m)
                  | None => true
                  end)
          (filter (fun a => negb (existsb (String.eqb (id (val a))) excludeActivityIds))
             (filter (fun a => negb (overlapsWithRecurringTasks (val a)))
                     (objects activities)))) 0).

(** [s] is a candidate of [pool] that no candidate outscores. *)
Definition TopOf (pool : list Scored) (s : Scored) : Prop :=
  In s pool /\ forall s', In s' pool -> (score s' <= score s)%Q.

Definition categoryOf (a : Obj) : Category := category (val a).

(** What the checklist shows of an item besides its times: the type, the id,
    the activity it carries and whether it is completed. *)
Definition Row : Type := (ItemType * string * option Activity * bool)%type.

Definition rowOf (it : ChecklistItem) : Row :=
  (itemType it, itemId it, itemActivity it, completed it).

Definition rowId (r : Row) : string := snd (fst (fst r)).

(** [n] uncompleted items of one type without an activity, numbered from
    [index]. *)
Definition plainRows (ty : ItemType) (prefix : string) (index n : nat) : list Row :=
  map (fun i => (ty, idOf prefix i, None, false)) (seq index n).

(** One uncompleted bonus item for each activity, numbered from [index]. *)
Definition bonusRows (index : nat) (acts : list Activity) : list Row :=
  map (fun p => (bonus, idOf "bonus-" (fst p), Some (snd p), false))
      (combine (seq index (length acts)) acts).

(** The rows of a checklist for the preferences and the selected
    activities, in the order of creation. *)
Definition expectedRows (preferences : UserPreferences) (acts : list Activity) : list Row :=
  plainRows feeding "feeding-" 0 (length (feedingTimes preferences))
  ++ plainRows nap "nap-" 0 (Z.to_nat (napsPerDay preferences))
  ++ plainRows recurring "recurring-" 0 (length (recurringTasks preferences))
  ++ bonusRows 0 acts.

Definition rowsOf (st : State) : list Row := map (fun p => rowOf (item p)) (items st).

Definition headChar (s : string) : option ascii :=
  match s with String c _ => Some c | EmptyString => None end.

(** Items and a stored checklist for the worked inputs of the callers. *)
Definition sampleFeedItem : ChecklistItem :=
  {| itemId := "feeding-0"; task := "Feed baby"; completed := false;
     itemType := feeding; itemActivity := None; time := Some "8:00 AM";
     timeBlock := Some morning; suggestedTime := Some "8:00 AM";
     canOverlap := None; socialActivity := None |}.

Definition sampleBonusItem : ChecklistItem :=
  {| itemId := "bonus-0"; task := "Sensory bottles (15min)"; completed := false;
     itemType := bonus; itemActivity := Some sensoryBottles; time := None;
     timeBlock := Some morning; suggestedTime := Some "9:30 AM";
     canOverlap := None; socialActivity := None |}.

Definition sampleChecklist : DailyChecklist :=
  {| checklistDate := "2026-03-02"; checklistItems := [sampleFeedItem; sampleBonusItem];
     surveyCompleted := true |}.

Definition clockMatchesAt (m : Z) : bool :=
  match exec reClock12 (minutesToTimeString m) with Some _ => true | None => false end.

(* ===================================================================== *)
(** * Properties *)
(* ===================================================================== *)

Example parse_examples :
  map parseTimeToMinutes ["8:00 AM"; "12:00 PM"; "12:15 am"; "1pm"; "14:00"; "at 2"; "9"; "soon"]
  = [480; 720; 15; 780; 840; 840; 540; 0].
Proof. vm_compute. reflexivity. Qed.

Example render_examples :
  map minutesToTimeString [0; 480; 725; 1080; 1439] =
  ["12:00 AM"; "8:00 AM"; "12:05 PM"; "6:00 PM"; "11:59 PM"].
Proof. vm_compute. reflexivity. Qed.

(** ** The sort is a permutation *)

Lemma insertBy_perm (A : Type) (before : A -> A -> bool) (x : A) (l : list A) :
  Permutation (x :: l) (insertBy before x l).
Proof.
  induction l as [|y l IH]; simpl; [reflexivity|].
  destruct (before y x); [|reflexivity].
  rewrite perm_swap. now apply perm_skip.
Qed.

Lemma stableSort_perm (A : Type) (before : A -> A -> bool) (l : list A) :
  Permutation l (stableSort before l).
Proof.
  induction l as [|x l IH]; simpl; [constructor|].
  rewrite <- insertBy_perm. now apply perm_skip.
Qed.

(** ** Finite enumeration over integer ranges *)

Lemma In_range (a x : Z) (n : nat) : a <= x < a + Z.of_nat n -> In x (range a n).
Proof.
  intros H. unfold range. apply in_map_iff.
  exists (Z.to_nat (x - a)). split; [lia|].
  apply in_seq. lia.
Qed.

Lemma forall_range (P : Z -> bool) (a : Z) (n : nat) :
  forallb P (range a n) = true -> forall x, a <= x < a + Z.of_nat n -> P x = true.
Proof.
  intros H x Hx. rewrite forallb_forall in H. apply H, In_range, Hx.
Qed.

(** ** Time strings *)

Lemma roundTrip_table :
  forallb (fun h => forallb (fun m => roundTripsAt h m true && roundTripsAt h m false)
                            (range 0 60))
          (range 1 12) = true.
Proof. vm_compute. reflexivity. Qed.

(** C9. For every canonical time string "H:MM AM/PM" with H in 1..12 and MM in
    00..59, rendering the parsed minutes gives the string back:
    minutesToTimeString (parseTimeToMinutes s) = s. *)
Theorem time_string_round_trip (h m : Z) (pm : bool) :
  1 <= h <= 12 -> 0 <= m <= 59 ->
  minutesToTimeString (parseTimeToMinutes (canonicalTime h m pm)) = canonicalTime h m pm.
Proof.
  intros Hh Hm.
  assert (H1 := @forall_range _ _ _ roundTrip_table h). cbv beta in H1.
  assert (H2 := @forall_range _ _ _ (H1 ltac:(lia)) m). cbv beta in H2.
  specialize (H2 ltac:(lia)).
  apply andb_true_iff in H2. destruct H2 as [Ht Hf].
  apply String.eqb_eq. destruct pm; assumption.
Qed.

Lemma time_string_round_trip_witness :
  minutesToTimeString (parseTimeToMinutes "9:05 AM") = "9:05 AM".
Proof.
  exact (time_string_round_trip (h := 9) (m := 5) false
           ltac:(lia) ltac:(lia)).
Defined.

Lemma parsesBack_table : forallb parsesBackAt (range 0 1440) = true.
Proof. vm_compute. reflexivity. Qed.

(** The minutes of a day survive rendering: the start that the final sort
    reads back from [suggestedTime] is the start the item was given. *)
Lemma parse_render (m : Z) :
  0 <= m < 1440 -> parseTimeToMinutes (minutesToTimeString m) = m.
Proof.
  intros H. apply Z.eqb_eq. apply (@forall_range _ _ _ parsesBack_table m). lia.
Qed.

(** ** The appointment parser on the scenario of the specification *)

(** C6. The text "Friend coming over 2-4pm, doctor appointment at 10am" parses
    to exactly two appointments: a visitor from 840 to 960 and an appointment
    from 600 to 660 (the 60 minute default span). *)
Theorem parseAppointments_scenario :
  parseAppointments "Friend coming over 2-4pm, doctor appointment at 10am" =
  [ {| description := "Friend coming over 2-4pm";
       startTime := Some "2:00 PM"; endTime := Some "4:00 PM";
       startMins := Some 840; endMins := Some 960;
       aptType := visitor; fulfillsTask := None |};
    {| description := "doctor appointment at 10am";
       startTime := Some "10:00 AM"; endTime := Some "11:00 AM";
       startMins := Some 600; endMins := Some 660;
       aptType := appointment; fulfillsTask := None |} ].
Proof. vm_compute. reflexivity. Qed.

(** A clause without a time range gets its end from its start: 60 minutes
    later for an appointment, 90 minutes later otherwise. *)
Lemma single_time_span (part : string) (apt : ParsedAppointment) (s e : Z) :
  parsePart part = Some apt ->
  exec reRange (Str.toLowerCase (Str.trim part)) = None ->
  startMins apt = Some s -> endMins apt = Some e ->
  e = s + match aptType apt with appointment => 60 | _ => 90 end.
Proof.
  unfold parsePart. intros H Hr.
  destruct (Str.isEmpty (Str.toLowerCase (Str.trim part))); [discriminate|].
  destruct (classify (Str.toLowerCase (Str.trim part))) as [ty ful].
  rewrite Hr in H.
  destruct (exec reSingleTime (Str.toLowerCase (Str.trim part))) as [m|];
    injection H as <-; cbn [startMins endMins aptType]; [|discriminate].
  intros [= <-] [= <-]. reflexivity.
Qed.

(** ** The slot finder against the search order of the specification *)

Lemma map_seq_shift (f : nat -> Z) (n : nat) :
  map f (seq 1 n) = map (fun k => f (S k)) (seq 0 n).
Proof. rewrite <- seq_shift, map_map. reflexivity. Qed.

Lemma stepsDown_below (from : Z) : from < 420 -> stepsDown from = [].
Proof.
  intros H. unfold stepsDown.
  assert (E : (from - 420) / 15 + 1 <= 0).
  { assert ((from - 420) / 15 < 0) by (apply Z.div_lt_upper_bound; lia). lia. }
  replace (Z.to_nat ((from - 420) / 15 + 1)) with O by lia. reflexivity.
Qed.

Lemma stepsDown_step (from : Z) :
  420 <= from -> stepsDown from = from :: stepsDown (from - 15).
Proof.
  intros H. unfold stepsDown.
  assert (E : (from - 420) / 15 = (from - 15 - 420) / 15 + 1).
  { replace (from - 420) with (from - 15 - 420 + 1 * 15) by lia.
    now rewrite Z.div_add by lia. }
  assert (G : 0 <= (from - 420) / 15) by (apply Z.div_pos; lia).
  replace (Z.to_nat ((from - 420) / 15 + 1))
    with (S (Z.to_nat ((from - 15 - 420) / 15 + 1))) by lia.
  cbn [seq map]. f_equal; [lia|].
  rewrite map_seq_shift. apply map_ext. intros k. lia.
Qed.

Lemma stepsUp_above (from upto : Z) : upto < from -> stepsUp from upto = [].
Proof.
  intros H. unfold stepsUp.
  assert (E : (upto - from) / 15 < 0) by (apply Z.div_lt_upper_bound; lia).
  replace (Z.to_nat ((upto - from) / 15 + 1)) with O by lia. reflexivity.
Qed.

Lemma stepsUp_step (from upto : Z) :
  from <= upto -> stepsUp from upto = from :: stepsUp (from + 15) upto.
Proof.
  intros H. unfold stepsUp.
  assert (E : (upto - from) / 15 = (upto - (from + 15)) / 15 + 1).
  { replace (upto - from) with (upto - (from + 15) + 1 * 15) by lia.
    now rewrite Z.div_add by lia. }
  assert (G : 0 <= (upto - from) / 15) by (apply Z.div_pos; lia).
  replace (Z.to_nat ((upto - from) / 15 + 1))
    with (S (Z.to_nat ((upto - (from + 15)) / 15 + 1))) by lia.
  cbn [seq map]. f_equal; [lia|].
  rewrite map_seq_shift. apply map_ext. intros k. lia.
Qed.

(** The candidate lists are what their names say. *)
Lemma In_stepsDown (from m : Z) :
  In m (stepsDown from) <-> exists k, 0 <= k /\ m = from - 15 * k /\ 420 <= m.
Proof.
  unfold stepsDown. rewrite in_map_iff. split.
  - intros (k & <- & Hk). apply in_seq in Hk. exists (Z.of_nat k).
    split; [lia|]. split; [reflexivity|].
    destruct (Z_lt_le_dec ((from - 420) / 15 + 1) 0) as [Hn|Hn]; [lia|].
    assert (15 * ((from - 420) / 15) <= from - 420)
      by (apply Z.mul_div_le; lia).
    lia.
  - intros (k & Hk & -> & Hm). exists (Z.to_nat k). split; [lia|].
    apply in_seq.
    assert (k <= (from - 420) / 15) by (apply Z.div_le_lower_bound; lia).
    lia.
Qed.

Lemma In_stepsUp (from upto m : Z) :
  In m (stepsUp from upto) <-> exists k, 0 <= k /\ m = from + 15 * k /\ m <= upto.
Proof.
  unfold stepsUp. rewrite in_map_iff. split.
  - intros (k & <- & Hk). apply in_seq in Hk. exists (Z.of_nat k).
    split; [lia|]. split; [reflexivity|].
    destruct (Z_lt_le_dec ((upto - from) / 15 + 1) 0) as [Hn|Hn]; [lia|].
    assert (15 * ((upto - from) / 15) <= upto - from)
      by (apply Z.mul_div_le; lia).
    lia.
  - intros (k & Hk & -> & Hm). exists (Z.to_nat k). split; [lia|].
    apply in_seq.
    assert (k <= (upto - from) / 15) by (apply Z.div_le_lower_bound; lia).
    lia.
Qed.

(** With the fuel [findNextSlot] gives them the loops end by their own test:
    they visit every candidate. *)
Lemma searchBackward_find (free : Z -> bool) (fuel : nat) :
  forall mins, (mins - 420) / 15 + 2 <= Z.of_nat fuel ->
  searchBackward fuel free mins = find free (stepsDown mins).
Proof.
  induction fuel as [|fuel IH]; intros mins Hf.
  - simpl in Hf. rewrite stepsDown_below; [reflexivity|].
    destruct (Z_lt_le_dec mins 420) as [H|H]; [assumption|].
    assert (0 <= (mins - 420) / 15) by (apply Z.div_pos; lia). lia.
  - cbn [searchBackward]. destruct (420 <=? mins) eqn:E.
    + apply Z.leb_le in E. rewrite stepsDown_step by assumption. cbn [find].
      destruct (free mins); [reflexivity|]. apply IH.
      replace (mins - 420) with (mins - 15 - 420 + 1 * 15) in Hf by lia.
      rewrite Z.div_add in Hf by lia. lia.
    + apply Z.leb_gt in E. now rewrite stepsDown_below.
Qed.

Lemma searchForward_find (free : Z -> bool) (limit : Z) (fuel : nat) :
  forall mins, (limit - mins) / 15 + 2 <= Z.of_nat fuel ->
  searchForward fuel free limit mins = find free (stepsUp mins limit).
Proof.
  induction fuel as [|fuel IH]; intros mins Hf.
  - simpl in Hf. rewrite stepsUp_above; [reflexivity|].
    destruct (Z_lt_le_dec limit mins) as [H|H]; [assumption|].
    assert (0 <= (limit - mins) / 15) by (apply Z.div_pos; lia). lia.
  - cbn [searchForward]. destruct (mins <=? limit) eqn:E.
    + apply Z.leb_le in E. rewrite stepsUp_step by assumption. cbn [find].
      destruct (free mins); [reflexivity|]. apply IH.
      replace (limit - mins) with (limit - (mins + 15) + 1 * 15) in Hf by lia.
      rewrite Z.div_add in Hf by lia. lia.
    + apply Z.leb_gt in E. now rewrite stepsUp_above.
Qed.

Lemma loopFuel_enough (d : Z) : d / 15 + 2 <= Z.of_nat (loopFuel d).
Proof. unfold loopFuel. lia. Qed.

Lemma find_app (A : Type) (f : A -> bool) (l1 l2 : list A) :
  find f (l1 ++ l2) = match find f l1 with Some x => Some x | None => find f l2 end.
Proof.
  induction l1 as [|x l1 IH]; simpl; [reflexivity|].
  destruct (f x); [reflexivity|apply IH].
Qed.

Lemma noConflict_forallb (sched : list Interval) (s e : Z) :
  noConflict sched s e = forallb (fun o => negb ((s <? end_ o) && (start o <? e))) sched.
Proof.
  induction sched as [|o sched IH]; simpl; [reflexivity|].
  unfold overlaps. destruct ((s <? end_ o) && (start o <? e)); simpl; [reflexivity|apply IH].
Qed.

Lemma isSlotAvailable_isFree (sched : list Interval) (s e : Z) :
  isSlotAvailable sched s e = isFree sched s e.
Proof.
  unfold isSlotAvailable, isFree, END_BY_TIME. rewrite noConflict_forallb.
  destruct (1110 <? e); reflexivity.
Qed.

(** [findNextSlot] returns the first candidate start that [isSlotAvailable]
    accepts, in the order of the candidates, and the preferred start when
    there is none: with the fuel they are given its loops visit every
    candidate. *)
Lemma findNextSlot_find (sched : list Interval) (preferredMins duration : Z) :
  findNextSlot sched preferredMins duration =
  match find (fun mins => isSlotAvailable sched mins (mins + duration))
             (candidateStarts preferredMins duration) with
  | Some mins => mins
  | None => preferredMins
  end.
Proof.
  unfold findNextSlot, candidateStarts.
  rewrite !searchBackward_find by apply loopFuel_enough.
  rewrite searchForward_find by apply loopFuel_enough.
  rewrite !find_app. cbn [find]. unfold END_BY_TIME.
  destruct (1110 <? preferredMins + duration).
  - destruct (find _ (stepsDown (1110 - duration))); [reflexivity|].
    destruct (isSlotAvailable sched preferredMins (preferredMins + duration));
      [reflexivity|].
    destruct (find _ (stepsUp _ _)); [reflexivity|].
    destruct (find _ (stepsDown _)); reflexivity.
  - cbn [find].
    destruct (isSlotAvailable sched preferredMins (preferredMins + duration));
      [reflexivity|].
    destruct (find _ (stepsUp _ _)); [reflexivity|].
    destruct (find _ (stepsDown _)); reflexivity.
Qed.

Lemma find_ext (A : Type) (f g : A -> bool) (l : list A) :
  (forall x, f x = g x) -> find f l = find g l.
Proof.
  intros H. induction l as [|x l IH]; cbn; [reflexivity|].
  rewrite H, IH. reflexivity.
Qed.

(** C4. The slot finder follows the search order of the specification: when
    the preferred start would run past 1110 it first scans backward from
    1110 - duration by 15 down to 420; then it tries the preferred start, then
    scans forward from preferred + 15 up to 1110 - duration, then backward
    from preferred - 15 down to 420; the first free start is returned, and the
    preferred start when none is free. *)
Theorem findNextSlot_search_order (sched : list Interval) (preferredMins duration : Z) :
  findNextSlot sched preferredMins duration = placeNear sched preferredMins duration.
Proof.
  rewrite findNextSlot_find. unfold placeNear.
  rewrite (@find_ext _ (fun mins => isSlotAvailable sched mins (mins + duration))
             (fun s => isFree sched s (s + duration)))
    by (intros x; apply isSlotAvailable_isFree).
  reflexivity.
Qed.

(** What [findNextSlot] returns is either accepted by [isSlotAvailable] or
    the preferred start handed back by the last line. *)
Lemma findNextSlot_cases (sched : list Interval) (preferredMins duration : Z) :
  let mins := findNextSlot sched preferredMins duration in
  isSlotAvailable sched mins (mins + duration) = true \/ mins = preferredMins.
Proof.
  cbv zeta. rewrite findNextSlot_find.
  destruct (find _ (candidateStarts preferredMins duration)) as [s|] eqn:E.
  - left. apply find_some in E. apply E.
  - right. reflexivity.
Qed.

(** The fall-back is taken only when no candidate start is free. *)
Lemma findNextSlot_fallback (sched : list Interval) (preferredMins duration : Z) :
  let mins := findNextSlot sched preferredMins duration in
  isSlotAvailable sched mins (mins + duration) = false ->
  mins = preferredMins /\
  (forall m, In m (stepsUp preferredMins (1110 - duration))
             \/ In m (stepsDown preferredMins) ->
             isSlotAvailable sched m (m + duration) = false).
Proof.
  cbv zeta. rewrite findNextSlot_find.
  destruct (find _ (candidateStarts preferredMins duration)) as [s|] eqn:E.
  - intros H. apply find_some in E. destruct E as [_ E]. cbv beta in E. congruence.
  - intros H. split; [reflexivity|]. intros m Hm.
    apply (find_none _ _ E). unfold candidateStarts.
    rewrite !in_app_iff. right.
    destruct Hm as [Hm|Hm].
    + destruct (Z_le_gt_dec preferredMins (1110 - duration)) as [L|L].
      * rewrite stepsUp_step in Hm by assumption. destruct Hm as [->|Hm].
        -- left. now left.
        -- right. left. assumption.
      * rewrite stepsUp_above in Hm by lia. destruct Hm.
    + destruct (Z_le_gt_dec 420 preferredMins) as [L|L].
      * rewrite stepsDown_step in Hm by assumption. destruct Hm as [->|Hm].
        -- left. now left.
        -- right. right. assumption.
      * rewrite stepsDown_below in Hm by lia. destruct Hm.
Qed.

(** The tag [slotTag] gives to the start [findNextSlot] returns is [Fallback]
    exactly when no candidate start was free, that is when the last line of
    [findNextSlot] was reached. *)
Lemma slotTag_findNextSlot (sched : list Interval) (preferredMins duration : Z) :
  slotTag sched (findNextSlot sched preferredMins duration) duration = Fallback
  <-> find (fun mins => isSlotAvailable sched mins (mins + duration))
           (candidateStarts preferredMins duration) = None.
Proof.
  rewrite findNextSlot_find. unfold slotTag.
  destruct (find _ (candidateStarts preferredMins duration)) as [s|] eqn:E.
  - apply find_some in E. destruct E as [_ E]. cbv beta in E.
    rewrite E. split; discriminate.
  - assert (F : isSlotAvailable sched preferredMins (preferredMins + duration) = false).
    { apply (find_none _ _ E). unfold candidateStarts.
      rewrite !in_app_iff. right. left. now left. }
    rewrite F. split; reflexivity.
Qed.

(** ** Invariants of the assembly *)

Lemma noConflict_sound (sched : list Interval) (s e : Z) :
  noConflict sched s e = true -> forall iv, In iv sched -> overlaps s e iv = false.
Proof.
  induction sched as [|o sched IH]; simpl; intros H iv Hin; [destruct Hin|].
  destruct (overlaps s e o) eqn:E; [discriminate|].
  destruct Hin as [<-|Hin]; [assumption|now apply IH].
Qed.

Lemma isSlotAvailable_sound (sched : list Interval) (s e : Z) :
  isSlotAvailable sched s e = true ->
  e <= END_BY_TIME /\ forall iv, In iv sched -> overlaps s e iv = false.
Proof.
  unfold isSlotAvailable. destruct (END_BY_TIME <? e) eqn:E; [discriminate|].
  apply Z.ltb_ge in E. intros H. split; [assumption|].
  now apply noConflict_sound.
Qed.

Lemma slotTag_free (sched : list Interval) (mins dur : Z) :
  slotTag sched mins dur = FreeSlot -> isSlotAvailable sched mins (mins + dur) = true.
Proof. unfold slotTag. destruct (isSlotAvailable _ _ _); [reflexivity|discriminate]. Qed.

Lemma slotTag_cases (sched : list Interval) (mins dur : Z) :
  slotTag sched mins dur = FreeSlot \/ slotTag sched mins dur = Fallback.
Proof. unfold slotTag. destruct (isSlotAvailable _ _ _); auto. Qed.

(** Pairs of a list in the order of the list. *)
Lemma FOP_snoc (A : Type) (R : A -> A -> Prop) (l : list A) (x : A) :
  ForallOrdPairs R l -> Forall (fun y => R y x) l -> ForallOrdPairs R (l ++ [x]).
Proof.
  induction 1 as [|y l Hy Hl IH]; intros Hx; simpl.
  - constructor; constructor.
  - inversion Hx; subst. constructor.
    + apply Forall_app. split; [assumption|]. constructor; [assumption|constructor].
    + now apply IH.
Qed.

Lemma FOP_later (A : Type) (R : A -> A -> Prop) (l1 l2 : list A) (x : A) :
  ForallOrdPairs R (l1 ++ x :: l2) -> Forall (R x) l2.
Proof.
  induction l1 as [|y l1 IH]; simpl; intros H; inversion H; subst; auto.
Qed.

(** The table of recurring tasks. *)
Lemma lookupSlot_In (table : list (string * SlotInfo)) (key : string) (slot : SlotInfo) :
  lookupSlot table key = Some slot -> In (key, slot) table.
Proof.
  induction table as [|[k v] table IH]; simpl; [discriminate|].
  destruct (String.eqb k key) eqn:E.
  - apply String.eqb_eq in E. intros [= <-]. left. now subst.
  - intros H. right. now apply IH.
Qed.

Lemma defaultSlotOf_cases (t : string) :
  In (t, defaultSlotOf t) recurringTimeSlots \/ defaultSlotOf t = fallbackSlot.
Proof.
  unfold defaultSlotOf. destruct (lookupSlot recurringTimeSlots t) eqn:E.
  - left. now apply lookupSlot_In.
  - now right.
Qed.

Lemma slotDuration_pos (t : string) : 0 < slotDuration (defaultSlotOf t).
Proof.
  destruct (defaultSlotOf_cases t) as [H| ->]; [|reflexivity].
  simpl in H.
  repeat (destruct H as [H|H]; [inversion H; reflexivity|]). destruct H.
Qed.

Lemma exempt_is_bath (t : string) :
  isTrue (exemptFromEndTime (defaultSlotOf t)) = true ->
  t = "Having a bath" /\ slotDuration (defaultSlotOf t) = 30
  /\ slotTime (defaultSlotOf t) = "6:00 PM".
Proof.
  destruct (defaultSlotOf_cases t) as [H|H].
  - simpl in H.
    repeat (destruct H as [H|H];
            [injection H as Ht Hs; rewrite <- Hs, <- Ht; cbn;
             first [discriminate | intros _; repeat split]|]).
    destruct H.
  - rewrite H. discriminate.
Qed.

Lemma bath_slot : defaultSlotOf "Having a bath" = mkSlot "6:00 PM" 30 false true (Some true).
Proof. reflexivity. Qed.

Lemma bath_not_visitor_friendly : hasTask visitorFriendlyTasks "Having a bath" = false.
Proof. reflexivity. Qed.

Section Invariants.

Variable apts : list ParsedAppointment.

Lemma Inv_register (st : State) (p : Placed) :
  Inv st ->
  how p <> Fulfilled ->
  (how p = FreeSlot ->
   isSlotAvailable (scheduledTimes st) (startAt p) (startAt p + span p) = true) ->
  (how p = Anchored -> Forall (fun q => how q = Anchored) (items st)) ->
  (how p = Exempt ->
   task (item p) = "Having a bath" /\ startAt p = 1080 /\ span p = 30) ->
  suggestedTime (item p) = Some (minutesToTimeString (startAt p)) ->
  Inv (register st p).
Proof.
  intros [I1 I2 I3 I4 I5] Hf Hfree Hanch Hex Htime.
  constructor; unfold register; cbn [items scheduledTimes].
  - intros q Hq Hq'. apply in_app_iff. apply in_app_iff in Hq.
    destruct Hq as [Hq|[<-|[]]]; [left; now apply I1|right; now left].
  - apply FOP_snoc; [assumption|]. apply Forall_forall. intros q Hq.
    unfold Compatible. destruct (how p) eqn:E; try exact I.
    + specialize (Hanch eq_refl). rewrite Forall_forall in Hanch. now apply Hanch.
    + intros Hq'. destruct (isSlotAvailable_sound _ _ _ (Hfree eq_refl)) as [_ H].
      apply H. now apply I1.
  - intros q Hq Hq'. apply in_app_iff in Hq.
    destruct Hq as [Hq|[<-|[]]]; [now apply I3|].
    now destruct (isSlotAvailable_sound _ _ _ (Hfree Hq')).
  - intros q Hq Hq'. apply in_app_iff in Hq.
    destruct Hq as [Hq|[<-|[]]]; [now apply I4|now apply Hex].
  - intros q Hq Hq'. apply in_app_iff in Hq.
    destruct Hq as [Hq|[<-|[]]]; [now apply I5|assumption].
Qed.

Lemma Inv_emit (st : State) (p : Placed) :
  Inv st -> how p = Fulfilled -> Inv (emit st p).
Proof.
  intros [I1 I2 I3 I4 I5] Hf.
  constructor; unfold emit; cbn [items scheduledTimes].
  - intros q Hq Hq'. apply in_app_iff in Hq.
    destruct Hq as [Hq|[<-|[]]]; [now apply I1|contradiction].
  - apply FOP_snoc; [assumption|]. apply Forall_forall. intros q Hq.
    unfold Compatible. rewrite Hf. exact I.
  - intros q Hq Hq'. apply in_app_iff in Hq.
    destruct Hq as [Hq|[<-|[]]]; [now apply I3|congruence].
  - intros q Hq Hq'. apply in_app_iff in Hq.
    destruct Hq as [Hq|[<-|[]]]; [now apply I4|congruence].
  - intros q Hq Hq'. apply in_app_iff in Hq.
    destruct Hq as [Hq|[<-|[]]]; [now apply I5|contradiction].
Qed.

Lemma SchedOK_register (st : State) (p : Placed) :
  SchedOK apts st -> 0 < span p -> SchedOK apts (register st p).
Proof.
  intros H Hp. unfold SchedOK, register; cbn [scheduledTimes].
  apply Forall_app. split; [assumption|]. constructor; [|constructor].
  left. unfold intervalOf; cbn [start end_]. lia.
Qed.

Lemma SchedOK_emit (st : State) (p : Placed) : SchedOK apts st -> SchedOK apts (emit st p).
Proof. intros H. exact H. Qed.

End Invariants.

Lemma six_pm : parseTimeToMinutes "6:00 PM" = 1080.
Proof. vm_compute. reflexivity. Qed.

Section Phases.

Variable apts : list ParsedAppointment.
(** The conditions on the configured durations under which the lengths of
    the registered intervals are positive. *)
Variable positiveDurations : Prop.

Lemma Good_slot (st : State) (p : Placed) :
  Good apts positiveDurations st ->
  how p = slotTag (scheduledTimes st) (startAt p) (span p) ->
  suggestedTime (item p) = Some (minutesToTimeString (startAt p)) ->
  (positiveDurations -> 0 < span p) ->
  Good apts positiveDurations (register st p).
Proof.
  intros [HI HS] Hhow Htime Hpos. split; [|intros W; apply SchedOK_register; auto].
  destruct (slotTag_cases (scheduledTimes st) (startAt p) (span p)) as [E|E];
    rewrite E in Hhow.
  - apply Inv_register; try assumption; try congruence.
    intros _. apply slotTag_free. assumption.
  - apply Inv_register; try assumption; congruence.
Qed.

Lemma addFeeds_Good (times : list string) :
  forall index st,
    Good apts positiveDurations st -> Forall (fun q => how q = Anchored) (items st) ->
    Good apts positiveDurations (addFeeds times index st).
Proof.
  induction times as [|t times IH]; intros index st HG HA; [exact HG|].
  cbn [addFeeds]. apply IH.
  - destruct HG as [HI HS]. split.
    + apply Inv_register; cbn [how item suggestedTime startAt span];
        try assumption; try discriminate; auto.
    + intros W. apply SchedOK_register; [auto|]. cbn [span]. lia.
  - unfold register; cbn [items]. apply Forall_app. split; [assumption|].
    constructor; [reflexivity|constructor].
Qed.

Lemma Inv_more_scheduled (st : State) (iv : Interval) :
  Inv st ->
  Inv {| scheduledTimes := scheduledTimes st ++ [iv]; items := items st |}.
Proof.
  intros [I1 I2 I3 I4 I5]. constructor; cbn [items scheduledTimes]; try assumption.
  intros p Hp Hp'. apply in_app_iff. left. now apply I1.
Qed.

Lemma addAppointments_Good (l : list ParsedAppointment) :
  forall st, incl l apts -> Good apts positiveDurations st -> Good apts positiveDurations (addAppointments l st).
Proof.
  induction l as [|apt l IH]; intros st Hl HG; [exact HG|].
  cbn [addAppointments]. apply IH; [intros x Hx; apply Hl; now right|].
  destruct (startMins apt) as [s|] eqn:Es; [|exact HG].
  destruct (endMins apt) as [e|] eqn:Ee; [|exact HG].
  destruct HG as [HI HS]. split; [now apply Inv_more_scheduled|]. intros W.
  unfold SchedOK; cbn [scheduledTimes]. apply Forall_app. split; [now apply HS|].
  constructor; [|constructor]. right. exists apt. cbn [start end_].
  repeat split; try assumption. apply Hl. now left.
Qed.

Lemma addNaps_Good (prefs : UserPreferences) (iters : nat) :
  (positiveDurations -> 0 <= napDuration prefs) ->
  forall i st, Good apts positiveDurations st -> Good apts positiveDurations (addNaps prefs iters i st).
Proof.
  intros Hd. induction iters as [|iters IH]; intros i st HG; [exact HG|].
  cbn [addNaps]. apply IH. apply Good_slot; cbn [how item suggestedTime startAt span];
    try reflexivity; try assumption.
  intros W. specialize (Hd W).
  destruct (napDuration prefs =? 0) eqn:E; [lia|]. apply Z.eqb_neq in E. lia.
Qed.

Lemma addRecurring_Good (t : string) (index : nat) (st : State) :
  Good apts positiveDurations st -> Good apts positiveDurations (addRecurring apts t index st).
Proof.
  intros HG. unfold addRecurring.
  match goal with |- context [match ?a with Some _ => _ | None => _ end] =>
    destruct a as [[apt s]|] eqn:Ea end.
  - destruct HG as [HI HS]. split; [now apply Inv_emit|exact HS].
  - destruct (isTrue (exemptFromEndTime (defaultSlotOf t))) eqn:Ex.
    + destruct (exempt_is_bath _ Ex) as (-> & Hdur & Htime).
      rewrite bath_not_visitor_friendly.
      destruct HG as [HI HS]. split.
      * apply Inv_register; cbn [how item suggestedTime startAt span task];
          try assumption; try discriminate.
        -- intros _. repeat split; try assumption.
           destruct (visitorWindow _) as [[vs ve]|];
             destruct (isSlotAvailableNoEndLimit _ _ _); rewrite Htime; apply six_pm.
        -- reflexivity.
      * intros W. apply SchedOK_register; [auto|]. cbn [span]. lia.
    + apply Good_slot; cbn [how item suggestedTime startAt span];
        try reflexivity; try assumption.
      intros _. apply slotDuration_pos.
Qed.

Lemma addRecurringTasks_Good (tasks : list string) :
  forall index st, Good apts positiveDurations st -> Good apts positiveDurations (addRecurringTasks apts tasks index st).
Proof.
  induction tasks as [|t tasks IH]; intros index st HG; [exact HG|].
  cbn [addRecurringTasks]. apply IH. now apply addRecurring_Good.
Qed.

Lemma addBonuses_Good (acts : list Activity) :
  (positiveDurations -> Forall (fun a => 0 < duration a) acts) ->
  forall index st, Good apts positiveDurations st -> Good apts positiveDurations (addBonuses apts acts index st).
Proof.
  induction acts as [|a acts IH]; intros Hp index st HG; [exact HG|].
  cbn [addBonuses]. apply IH.
  - intros W. specialize (Hp W). now inversion Hp.
  - unfold addBonus. apply Good_slot; cbn [how item suggestedTime startAt span];
      try reflexivity; try assumption.
    intros W. specialize (Hp W). now inversion Hp.
Qed.

End Phases.

(** ** Selection: the candidates are distinct objects of the catalogue *)

Lemma includesObj_In (selected : list Obj) (a : Obj) :
  includesObj selected a = true <-> In (addr a) (addrs selected).
Proof.
  unfold includesObj, addrs. rewrite existsb_exists, in_map_iff. split.
  - intros (x & Hx & E). apply Nat.eqb_eq in E. exists x. split; [now symmetry|assumption].
  - intros (x & E & Hx). exists x. split; [assumption|]. apply Nat.eqb_eq. now symmetry.
Qed.

Lemma includesObj_not_In (selected : list Obj) (a : Obj) :
  includesObj selected a = false <-> ~ In (addr a) (addrs selected).
Proof.
  rewrite <- includesObj_In. destruct (includesObj selected a); split; congruence.
Qed.

Lemma NoDup_snoc (A : Type) (l : list A) (x : A) :
  NoDup l -> ~ In x l -> NoDup (l ++ [x]).
Proof.
  intros Hl Hx. apply NoDup_app; [assumption|repeat constructor; intros []|].
  intros y Hy [<-|[]]. contradiction.
Qed.

Lemma addrs_snoc (l : list Obj) (a : Obj) : addrs (l ++ [a]) = addrs l ++ [addr a].
Proof. unfold addrs. now rewrite map_app. Qed.

Lemma NoDup_map_filter (A B : Type) (key : A -> B) (keep : A -> bool) (xs : list A) :
  NoDup (map key xs) -> NoDup (map key (filter keep xs)).
Proof.
  induction xs as [|x xs IH]; simpl; intros H; [constructor|].
  inversion H as [|? ? Hx Hl]; subst. destruct (keep x); simpl; [|now apply IH].
  constructor; [|now apply IH].
  intros Hin. apply Hx. apply in_map_iff in Hin. destruct Hin as (y & E & Hy).
  apply filter_In in Hy. apply in_map_iff. exists y. tauto.
Qed.

Section SelectionFacts.

Variable activities : list Activity.
Variable ageMonths : Age.
Variable random : nat -> Q.

Lemma addrs_combine (n : nat) (l : list Activity) (k : nat) :
  length l = n ->
  map addr (map (fun p => {| addr := fst p; val := snd p |}) (combine (seq k n) l))
  = seq k n.
Proof.
  revert k l. induction n as [|n IH]; intros k [|x l] H; try discriminate; simpl.
  - reflexivity.
  - f_equal. apply IH. now injection H.
Qed.

Lemma objects_NoDup : NoDup (addrs (objects activities)).
Proof.
  unfold addrs, objects. rewrite addrs_combine by reflexivity. apply seq_NoDup.
Qed.

Lemma objects_val (a : Obj) : In a (objects activities) -> In (val a) activities.
Proof.
  unfold objects. rewrite in_map_iff. intros ([n x] & <- & H).
  apply in_combine_r in H. exact H.
Qed.

Lemma scoreAll_activity (ctx : SelectionContext) (xs : list Obj) :
  forall n, map activity (scoreAll random ctx xs n) = xs.
Proof.
  induction xs as [|a xs IH]; intros n; simpl; [reflexivity|].
  destruct (scoreActivity random (val a) ctx n) as [sc n']. simpl. now rewrite IH.
Qed.

Lemma sortByScore_perm (scored : list Scored) :
  Permutation (map activity scored) (sortByScore scored).
Proof. unfold sortByScore. apply Permutation_map, stableSort_perm. Qed.

Lemma poolObjs_incl (sv : DailySurvey) (w : option WeatherData) (a : Obj) :
  In a (poolObjs activities ageMonths random sv w) -> In a (objects activities).
Proof.
  unfold poolObjs, candidatePool. rewrite in_map_iff. intros (s & <- & Hs).
  apply filter_In in Hs. destruct Hs as [Hs _].
  apply (in_map activity) in Hs. rewrite scoreAll_activity in Hs.
  apply filter_In in Hs. tauto.
Qed.

Lemma poolObjs_NoDup (sv : DailySurvey) (w : option WeatherData) :
  NoDup (addrs (poolObjs activities ageMonths random sv w)).
Proof.
  unfold addrs, poolObjs, candidatePool. rewrite map_map.
  apply NoDup_map_filter. rewrite <- map_map, scoreAll_activity.
  apply NoDup_map_filter. apply objects_NoDup.
Qed.

Lemma sorted_NoDup (scored : list Scored) :
  NoDup (addrs (map activity scored)) -> NoDup (addrs (sortByScore scored)).
Proof.
  intros H. eapply Permutation_NoDup; [|exact H].
  apply Permutation_map, sortByScore_perm.
Qed.

Lemma sorted_length (scored : list Scored) :
  length (sortByScore scored) = length scored.
Proof.
  rewrite <- (Permutation_length (sortByScore_perm scored)). apply length_map.
Qed.

Lemma sorted_In (scored : list Scored) (a : Obj) :
  In a (sortByScore scored) <-> In a (map activity scored).
Proof.
  split; apply Permutation_in; [symmetry|]; apply sortByScore_perm.
Qed.

(** *** The plain passes *)

Lemma firstPass_spec (count : Z) (sorted : list Obj) :
  forall selected used,
    NoDup (addrs selected) -> NoDup (addrs sorted) ->
    (forall a, In a sorted -> ~ In (addr a) (addrs selected)) ->
    let r := fst (firstPass count sorted selected used) in
    NoDup (addrs r) /\ (forall a, In a r -> In a selected \/ In a sorted).
Proof.
  induction sorted as [|a rest IH]; intros selected used Hs Hr Hd; cbn [firstPass].
  - cbn. split; [assumption|auto].
  - destruct (count <=? Z.of_nat (length selected)); [cbn; split; auto|].
    cbn [addrs map] in Hr. inversion Hr as [|? ? Ha Hrest]; subst.
    destruct (negb (hasCategory used (category (val a)))).
    + destruct (IH (selected ++ [a]) (category (val a) :: used)) as [N I].
      * rewrite addrs_snoc. apply NoDup_snoc; [assumption|]. apply Hd. now left.
      * assumption.
      * intros b Hb. rewrite addrs_snoc, in_app_iff. intros [H|[H|[]]].
        -- apply (Hd b); [now right|assumption].
        -- apply Ha. rewrite H. now apply in_map.
      * split; [exact N|]. intros b Hb. destruct (I b Hb) as [H|H].
        -- apply in_app_iff in H. destruct H as [H|[<-|[]]]; [now left|right; now left].
        -- right. now right.
    + destruct (IH selected used) as [N I]; try assumption.
      * intros b Hb. apply Hd. now right.
      * split; [exact N|]. intros b Hb. destruct (I b Hb); [now left|right; now right].
Qed.

Lemma secondPass_spec (count : Z) (sorted : list Obj) :
  forall selected,
    NoDup (addrs selected) ->
    let r := secondPass count sorted selected in
    NoDup (addrs r)
    /\ (forall a, In a r -> In a selected \/ In a sorted)
    /\ incl (addrs selected) (addrs r)
    /\ (count <= Z.of_nat (length r) \/ incl (addrs sorted) (addrs r)).
Proof.
  induction sorted as [|a rest IH]; intros selected Hs; cbn [secondPass].
  - cbn. repeat split; auto using incl_refl. right. intros x [].
  - destruct (count <=? Z.of_nat (length selected)) eqn:E.
    + apply Z.leb_le in E. cbn. repeat split; auto using incl_refl.
    + destruct (includesObj selected a) eqn:Ei; cbn [negb].
      * destruct (IH selected Hs) as (N & I & M & F).
        repeat split; [exact N| |exact M|].
        -- intros b Hb. destruct (I b Hb); [now left|right; now right].
        -- destruct F as [F|F]; [now left|right].
           intros x [<-|Hx]; [|now apply F]. apply M. now apply includesObj_In.
      * destruct (IH (selected ++ [a])) as (N & I & M & F).
        { rewrite addrs_snoc. apply NoDup_snoc; [assumption|].
          now apply includesObj_not_In. }
        rewrite addrs_snoc in M. repeat split; [exact N| | |].
        -- intros b Hb. destruct (I b Hb) as [H|H].
           ++ apply in_app_iff in H.
              destruct H as [H|[<-|[]]]; [now left|right; now left].
           ++ right. now right.
        -- intros x Hx. apply M. apply in_app_iff. now left.
        -- destruct F as [F|F]; [now left|right].
           intros x [<-|Hx]; [|now apply F]. apply M. apply in_app_iff. right. now left.
Qed.

Lemma pickDiverseActivities_spec (scored : list Scored) (count : Z) :
  NoDup (addrs (map activity scored)) ->
  let r := pickDiverseActivities scored count in
  NoDup (addrs r)
  /\ (forall a, In a r -> In a (map activity scored))
  /\ (Z.of_nat (length r) < count -> Z.of_nat (length scored) < count).
Proof.
  intros Hn. unfold pickDiverseActivities.
  pose proof (sorted_NoDup _ Hn) as Hsn.
  destruct (firstPass count (sortByScore scored) [] []) as [sel used] eqn:E1.
  destruct (@firstPass_spec count (sortByScore scored) [] [] (NoDup_nil _) Hsn
              (fun _ _ H => H)) as [N1 I1].
  rewrite E1 in N1, I1. cbn [fst] in N1, I1.
  destruct (@secondPass_spec count (sortByScore scored) sel N1) as (N & I & M & F).
  cbv zeta. repeat split; [exact N| |].
  - intros a Ha. apply sorted_In. destruct (I a Ha) as [H|H]; [|assumption].
    destruct (I1 a H) as [[]|H']. assumption.
  - intros Hlt. destruct F as [F|F]; [lia|].
    apply NoDup_incl_length in F; [|assumption].
    unfold addrs in F. rewrite !length_map, sorted_length in F. lia.
Qed.

End SelectionFacts.

(** ** Selection under time constraints *)

Section TimedFacts.

Variables (count : Z) (sorted : list Obj) (times : list Z).

Lemma slotLoopLog_erase (iters : nat) :
  forall i selected used log,
    map snd log = selected ->
    map snd (slotLoopLog count sorted times iters i selected used log)
    = fst (slotLoop count sorted times iters i selected used).
Proof.
  induction iters as [|iters IH]; intros i selected used log H; cbn; [assumption|].
  destruct (Z.of_nat (length selected) <? count); [|assumption].
  destruct (pickForSlot _ _ _ _ _ _) as [a|]; apply IH; [|assumption].
  rewrite map_app, H. reflexivity.
Qed.

Lemma fillLoopLog_erase (iters : nat) :
  forall i selected log,
    map snd log = selected ->
    map snd (fillLoopLog sorted times iters i selected log)
    = fillLoop sorted times iters i selected.
Proof.
  induction iters as [|iters IH]; intros i selected log H; cbn; [assumption|].
  destruct (fillForSlot _ _ _) as [a|]; apply IH; [|assumption].
  rewrite map_app, H. reflexivity.
Qed.

Lemma pickForSlot_Some (total : nat) (s : Z) (selected : list Obj) (used : list Category)
      (l : list Obj) (a : Obj) :
  pickForSlot count total s selected used l = Some a ->
  In a l /\ includesObj selected a = false /\ endsAfter3pm (val a) s = false.
Proof.
  induction l as [|b l IH]; cbn [pickForSlot]; [discriminate|].
  destruct (includesObj selected b) eqn:Ei.
  { intros H. destruct (IH H) as (? & ? & ?). repeat split; auto. now right. }
  destruct (endsAfter3pm (val b) s) eqn:El.
  { intros H. destruct (IH H) as (? & ? & ?). repeat split; auto. now right. }
  match goal with |- (if ?c then _ else _) = _ -> _ => destruct c end.
  - intros [= <-]. repeat split; auto. now left.
  - intros H. destruct (IH H) as (? & ? & ?). repeat split; auto. now right.
Qed.

Lemma fillForSlot_Some (s : Z) (selected : list Obj) (l : list Obj) (a : Obj) :
  fillForSlot s selected l = Some a ->
  In a l /\ includesObj selected a = false /\ endsAfter3pm (val a) s = false.
Proof.
  induction l as [|b l IH]; cbn [fillForSlot]; [discriminate|].
  destruct (includesObj selected b) eqn:Ei.
  { intros H. destruct (IH H) as (? & ? & ?). repeat split; auto. now right. }
  destruct (endsAfter3pm (val b) s) eqn:El.
  { intros H. destruct (IH H) as (? & ? & ?). repeat split; auto. now right. }
  intros [= <-]. repeat split; auto. now left.
Qed.

Lemma fillForSlot_None (s : Z) (selected : list Obj) (l : list Obj) :
  fillForSlot s selected l = None ->
  forall a, In a l -> includesObj selected a = true \/ endsAfter3pm (val a) s = true.
Proof.
  induction l as [|b l IH]; cbn [fillForSlot]; intros H a Ha; [destruct Ha|].
  destruct (includesObj selected b) eqn:Ei.
  { destruct Ha as [<-|Ha]; [now left|now apply IH]. }
  destruct (endsAfter3pm (val b) s) eqn:El; [|discriminate].
  destruct Ha as [<-|Ha]; [now right|now apply IH].
Qed.

(** No push of either loop is a food or venue activity that would end
    after 3 PM at its slot. *)
Lemma slotLoopLog_ok (iters : nat) :
  forall i selected used log,
    Forall (fun ia => endsAfter3pm (val (snd ia)) (slotMins times (fst ia)) = false) log ->
    Forall (fun ia => endsAfter3pm (val (snd ia)) (slotMins times (fst ia)) = false)
           (slotLoopLog count sorted times iters i selected used log).
Proof.
  induction iters as [|iters IH]; intros i selected used log H; cbn; [assumption|].
  destruct (Z.of_nat (length selected) <? count); [|assumption].
  destruct (pickForSlot _ _ _ _ _ _) as [a|] eqn:E; apply IH; [|assumption].
  apply Forall_app. split; [assumption|]. constructor; [|constructor].
  apply pickForSlot_Some in E. cbn. tauto.
Qed.

Lemma fillLoopLog_ok (iters : nat) :
  forall i selected log,
    Forall (fun ia => endsAfter3pm (val (snd ia)) (slotMins times (fst ia)) = false) log ->
    Forall (fun ia => endsAfter3pm (val (snd ia)) (slotMins times (fst ia)) = false)
           (fillLoopLog sorted times iters i selected log).
Proof.
  induction iters as [|iters IH]; intros i selected log H; cbn; [assumption|].
  destruct (fillForSlot _ _ _) as [a|] eqn:E; apply IH; [|assumption].
  apply Forall_app. split; [assumption|]. constructor; [|constructor].
  apply fillForSlot_Some in E. cbn. tauto.
Qed.

(** The slot of every push is one of the slots the loop visits. *)
Lemma slotLoopLog_index (bound : nat) (iters : nat) :
  forall i selected used log,
    (i + iters <= bound)%nat ->
    Forall (fun ia => (fst ia < bound)%nat) log ->
    Forall (fun ia => (fst ia < bound)%nat)
           (slotLoopLog count sorted times iters i selected used log).
Proof.
  induction iters as [|iters IH]; intros i selected used log Hb H; cbn; [assumption|].
  destruct (Z.of_nat (length selected) <? count); [|assumption].
  destruct (pickForSlot _ _ _ _ _ _) as [a|]; apply IH; try lia; [|assumption].
  apply Forall_app. split; [assumption|]. constructor; [cbn; lia|constructor].
Qed.

Lemma fillLoopLog_index (bound : nat) (iters : nat) :
  forall i selected log,
    iters = O \/ (i + iters <= bound)%nat ->
    Forall (fun ia => (fst ia < bound)%nat) log ->
    Forall (fun ia => (fst ia < bound)%nat)
           (fillLoopLog sorted times iters i selected log).
Proof.
  induction iters as [|iters IH]; intros i selected log Hb H; cbn; [assumption|].
  destruct Hb as [Hb|Hb]; [discriminate|].
  destruct (fillForSlot _ _ _) as [a|]; apply IH; try (right; lia); [|assumption].
  apply Forall_app. split; [assumption|]. constructor; [cbn; lia|constructor].
Qed.

Lemma Picked_snoc (selected : list Obj) (a : Obj) :
  Picked sorted selected -> In a sorted -> includesObj selected a = false ->
  Picked sorted (selected ++ [a]).
Proof.
  intros [N I] Ha Hi. split.
  - rewrite addrs_snoc. apply NoDup_snoc; [assumption|]. now apply includesObj_not_In.
  - intros x Hx. apply in_app_iff in Hx. destruct Hx as [Hx|[<-|[]]]; auto.
Qed.

Lemma slotLoop_Picked (iters : nat) :
  forall i selected used,
    Picked sorted selected -> Picked sorted (fst (slotLoop count sorted times iters i selected used)).
Proof.
  induction iters as [|iters IH]; intros i selected used H; cbn; [assumption|].
  destruct (Z.of_nat (length selected) <? count); [|assumption].
  destruct (pickForSlot _ _ _ _ _ _) as [a|] eqn:E; apply IH; [|assumption].
  apply pickForSlot_Some in E. apply Picked_snoc; tauto.
Qed.

Lemma fillLoop_Picked (iters : nat) :
  forall i selected,
    Picked sorted selected -> Picked sorted (fillLoop sorted times iters i selected).
Proof.
  induction iters as [|iters IH]; intros i selected H; cbn; [assumption|].
  destruct (fillForSlot _ _ _) as [a|] eqn:E; apply IH; [|assumption].
  apply fillForSlot_Some in E. apply Picked_snoc; tauto.
Qed.

Lemma fillLoop_grows (iters : nat) :
  forall i selected, (length selected <= length (fillLoop sorted times iters i selected))%nat.
Proof.
  induction iters as [|iters IH]; intros i selected; cbn; [lia|].
  destruct (fillForSlot _ _ _) as [a|].
  - specialize (IH (S i) (selected ++ [a])). rewrite length_app in IH. simpl in IH. lia.
  - apply IH.
Qed.

(** When the cut-off rejects nothing at the slots the filling loop visits,
    the loop fills the selection up or exhausts [sorted]. *)
Lemma fillLoop_full (iters : nat) :
  NoDup (addrs sorted) ->
  forall i selected,
    Picked sorted selected ->
    (forall a j, In a sorted -> (i <= j < i + iters)%nat ->
                 endsAfter3pm (val a) (slotMins times j) = false) ->
    let r := fillLoop sorted times iters i selected in
    (length sorted <= length r)%nat \/ (length selected + iters <= length r)%nat.
Proof.
  intros Hs. induction iters as [|iters IH]; intros i selected HP Hok; cbn.
  - right. lia.
  - destruct (fillForSlot _ _ _) as [a|] eqn:E.
    + pose proof (fillForSlot_Some _ _ _ E) as (Ha & Hi & _).
      destruct (IH (S i) (selected ++ [a])) as [H|H].
      * apply Picked_snoc; assumption.
      * intros b j Hb Hj. apply Hok; [assumption|lia].
      * now left.
      * right. rewrite length_app in H. simpl in H. lia.
    + left. pose proof (fillLoop_grows iters (S i) selected) as Hg.
      assert (F : incl (addrs sorted) (addrs selected)).
      { intros x Hx. unfold addrs in Hx. apply in_map_iff in Hx.
        destruct Hx as (b & <- & Hb).
        destruct (fillForSlot_None _ _ _ E b Hb) as [H|H].
        - now apply includesObj_In.
        - rewrite Hok in H; [discriminate|assumption|lia]. }
      apply NoDup_incl_length in F; [|assumption].
      unfold addrs in F. rewrite !length_map in F. lia.
Qed.

End TimedFacts.

(** ** Selection: what is skipped, what is returned *)

Section SelectionTheorems.

Variable activities : list Activity.
Variable ageMonths : Age.
Variable random : nat -> Q.

Lemma timedPicks_erase (scored : list Scored) (count : Z) (times : list Z) :
  map snd (timedPicks scored count times)
  = pickDiverseActivitiesWithTimeConstraints scored count times.
Proof.
  unfold timedPicks, pickDiverseActivitiesWithTimeConstraints.
  pose proof (@slotLoopLog_erase count (sortByScore scored) times (Z.to_nat count)
                0%nat [] [] [] eq_refl) as E.
  destruct (slotLoop count (sortByScore scored) times (Z.to_nat count) 0 [] [])
    as [sel used]. cbn [fst] in E.
  now apply fillLoopLog_erase.
Qed.

Lemma timedPicks_ok (scored : list Scored) (count : Z) (times : list Z) (i : nat) (a : Obj) :
  In (i, a) (timedPicks scored count times) ->
  endsAfter3pm (val a) (slotMins times i) = false.
Proof.
unfold timedPicks.
  destruct (slotLoop count (sortByScore scored) times (Z.to_nat count) 0 [] [])
    as [sel used].
  intros H.
  pose proof (@fillLoopLog_ok (sortByScore scored) times
                (Z.to_nat (count - Z.of_nat (length sel))) (length sel) sel _
                (@slotLoopLog_ok count (sortByScore scored) times (Z.to_nat count)
                   0%nat [] [] [] (Forall_nil _))) as F.
  rewrite Forall_forall in F. exact (F _ H).
Qed.

Lemma getReplacementActivity_ok (sv : DailySurvey) (w : option WeatherData)
      (excl : list string) (s : Z) (a : Obj) :
  getReplacementActivity activities ageMonths random sv w excl (Some s) = Some a ->
  endsAfter3pm (val a) s = false.
Proof.
  unfold getReplacementActivity. cbv zeta.
  match goal with |- match sortByScore ?l with _ => _ end = _ -> _ =>
    set (pool := l);
    destruct (sortByScore pool) as [|b rest] eqn:E; [discriminate|];
    assert (Hin : In b (sortByScore pool)) by (rewrite E; now left)
  end.
  intros [= <-]. apply (proj1 (sorted_In pool b)) in Hin. unfold pool in Hin. apply in_map_iff in Hin.
  destruct Hin as (sc & <- & Hsc). apply filter_In in Hsc. destruct Hsc as [Hsc _].
  apply (in_map activity) in Hsc. rewrite scoreAll_activity in Hsc.
  apply filter_In in Hsc. destruct Hsc as [_ Hsc].
  now apply negb_true_iff in Hsc.
Qed.

(** The time the code takes for a slot is the supplied one unless that is 0
    (falsy), and it is never earlier when the supplied times are minutes of
    the day. *)
Lemma slotMins_supplied (times : list Z) (i : nat) (s : Z) :
  Forall (fun t => 0 <= t) times -> nth_error times i = Some s ->
  s <= slotMins times i.
Proof.
  intros Hpos Hi. unfold slotMins. rewrite Hi. cbn [truthy].
  destruct (s =? 0) eqn:E; [|lia]. apply Z.eqb_eq in E. subst s.
  destruct (nth_error times (length times - 1)) as [z|] eqn:L; cbn [truthy]; [|lia].
  destruct (z =? 0); [lia|]. apply nth_error_In in L.
  rewrite Forall_forall in Hpos. now apply Hpos.
Qed.

Lemma timedPicks_index (scored : list Scored) (count : Z) (times : list Z)
      (i : nat) (a : Obj) :
  In (i, a) (timedPicks scored count times) -> (i < Z.to_nat count)%nat.
Proof.
  unfold timedPicks.
  destruct (slotLoop count (sortByScore scored) times (Z.to_nat count) 0 [] [])
    as [sel used].
  intros H.
  assert (F : Forall (fun ia => (fst ia < Z.to_nat count)%nat)
                     (fillLoopLog (sortByScore scored) times
                        (Z.to_nat (count - Z.of_nat (length sel))) (length sel) sel
                        (slotLoopLog count (sortByScore scored) times (Z.to_nat count)
                                     0 [] [] []))).
  { apply fillLoopLog_index.
    - destruct (Z.to_nat (count - Z.of_nat (length sel))) eqn:E; [now left|right]. lia.
    - apply slotLoopLog_index; [lia|constructor]. }
  rewrite Forall_forall in F. exact (F _ H).
Qed.

(** An activity the time-constrained selection returns was pushed for one
    of the slots [0 .. count - 1]. *)
Lemma timed_pick_has_slot (scored : list Scored) (count : Z) (times : list Z) (a : Obj) :
  In a (pickDiverseActivitiesWithTimeConstraints scored count times) ->
  exists j, (j < Z.to_nat count)%nat
            /\ endsAfter3pm (val a) (slotMins times j) = false.
Proof.
  rewrite <- timedPicks_erase. intros H. apply in_map_iff in H.
  destruct H as ([j b] & E & H). cbn [snd] in E. subst b.
  exists j. split; [exact (timedPicks_index _ _ _ _ _ H)|exact (timedPicks_ok _ _ _ _ _ H)].
Qed.

(** C7. A food or venue activity of duration d is skipped for a slot whose
    start time is s whenever s + d > 900.  For the time-constrained selection
    the slot is the [i]-th one, and s is its start time when s is the
    [scheduledMins] the code computes for it or the time supplied for it
    (the supplied times being minutes of the day).  [timedPicks] lists the
    pushes of [pickDiverseActivitiesWithTimeConstraints] with their slots:
    its activities are, in order, the list the function returns, and the
    activity is pushed for slot [i] by neither loop.  An activity that is too
    late for every slot [0 .. count - 1] is in the list returned by neither
    [pickDiverseActivitiesWithTimeConstraints] nor [selectBonusActivities]
    with these times.  [getReplacementActivity] at time s does not return
    the activity. *)
Theorem cafe_cutoff (scored : list Scored) (count : Z) (times : list Z)
        (sv : DailySurvey) (w : option WeatherData) (excl : list string)
        (i : nat) (s : Z) (a : Obj) :
  isCafeOrFoodActivity (val a) = true ->
  900 < s + duration (val a) ->
  slotMins times i = s
  \/ (nth_error times i = Some s /\ Forall (fun t => 0 <= t) times) ->
  map snd (timedPicks scored count times)
  = pickDiverseActivitiesWithTimeConstraints scored count times
  /\ ~ In (i, a) (timedPicks scored count times)
  /\ ((forall j, (j < Z.to_nat count)%nat -> 900 < slotMins times j + duration (val a)) ->
      ~ In a (pickDiverseActivitiesWithTimeConstraints scored count times)
      /\ (times <> [] ->
          ~ In a (selectBonusActivities activities ageMonths random sv w count (Some times))))
  /\ getReplacementActivity activities ageMonths random sv w excl (Some s) <> Some a.
Proof.
  intros Hc Hl Hs.
  assert (Late : forall scored',
             (forall j, (j < Z.to_nat count)%nat ->
                        900 < slotMins times j + duration (val a)) ->
             ~ In a (pickDiverseActivitiesWithTimeConstraints scored' count times)).
  { intros scored' Hall H. apply timed_pick_has_slot in H. destruct H as (j & Hj & H).
    unfold endsAfter3pm in H. rewrite Hc in H. cbn [andb] in H. apply Z.ltb_ge in H.
    specialize (Hall j Hj). lia. }
  split; [apply timedPicks_erase|]. split; [|split].
  - intros H. apply timedPicks_ok in H. unfold endsAfter3pm in H. rewrite Hc in H.
    cbn [andb] in H. apply Z.ltb_ge in H.
    destruct Hs as [Hs|[Hi Hpos]].
    + lia.
    + pose proof (slotMins_supplied i Hpos Hi). lia.
  - intros Hall. split; [now apply Late|].
    intros Hne. unfold selectBonusActivities. cbv zeta.
    destruct times as [|t ts]; [contradiction|]. now apply Late.
  - intros H. apply getReplacementActivity_ok in H. unfold endsAfter3pm in H.
    rewrite Hc in H. cbn [andb] in H. apply Z.ltb_ge in H. lia.
Qed.

Lemma timed_spec (scored : list Scored) (count : Z) (times : list Z) :
  NoDup (addrs (map activity scored)) ->
  let r := pickDiverseActivitiesWithTimeConstraints scored count times in
  NoDup (addrs r)
  /\ (forall a, In a r -> In a (map activity scored))
  /\ (Z.of_nat (length r) < count ->
      Z.of_nat (length scored) < count
      \/ exists a j, In a (map activity scored) /\ (j < Z.to_nat count)%nat
                     /\ endsAfter3pm (val a) (slotMins times j) = true).
Proof.
  intros Hn. unfold pickDiverseActivitiesWithTimeConstraints.
  pose proof (sorted_NoDup _ Hn) as Hsn.
  set (sorted := sortByScore scored) in *.
  assert (P0 : Picked sorted []) by (split; [constructor|intros x []]).
  pose proof (@slotLoop_Picked count sorted times (Z.to_nat count) 0%nat [] [] P0) as P1.
  destruct (slotLoop count sorted times (Z.to_nat count) 0 [] []) as [sel used].
  cbn [fst] in P1.
  pose proof (@fillLoop_Picked sorted times (Z.to_nat (count - Z.of_nat (length sel)))
                (length sel) sel P1) as [N I].
  cbv zeta. repeat split; [exact N| |].
  - intros a Ha. apply sorted_In. now apply I.
  - intros Hlt.
    destruct (existsb (fun a => existsb (fun j => endsAfter3pm (val a) (slotMins times j))
                                        (seq 0 (Z.to_nat count))) sorted) eqn:Ex.
    + right. apply existsb_exists in Ex. destruct Ex as (a & Ha & Ex).
      apply existsb_exists in Ex. destruct Ex as (j & Hj & Ex).
      exists a, j. apply in_seq in Hj. repeat split; [|lia|assumption].
      now apply sorted_In.
    + left.
      destruct (@fillLoop_full sorted times (Z.to_nat (count - Z.of_nat (length sel)))
                  Hsn (length sel) sel P1) as [F|F].
      * intros a j Ha Hj.
        destruct (endsAfter3pm (val a) (slotMins times j)) eqn:El; [|reflexivity].
        assert (Ex' : existsb (fun a => existsb (fun j => endsAfter3pm (val a) (slotMins times j))
                                                (seq 0 (Z.to_nat count))) sorted = true).
        { apply existsb_exists. exists a. split; [assumption|].
          apply existsb_exists. exists j. split; [|assumption]. apply in_seq. lia. }
        congruence.
      * unfold sorted in *. rewrite sorted_length in F. lia.
      * lia.
Qed.

(** C10. The list [selectBonusActivities] returns holds no activity twice:
    the returned catalogue objects are pairwise distinct, on the plain path
    and on the time-constrained one. *)
Theorem selection_has_no_repeats (sv : DailySurvey) (w : option WeatherData)
        (count : Z) (times : option (list Z)) :
  NoDup (map addr (selectBonusActivities activities ageMonths random sv w count times)).
Proof.
  pose proof (poolObjs_NoDup activities ageMonths random sv w) as Hn.
  unfold poolObjs in Hn. unfold selectBonusActivities.
  destruct times as [[|t ts]|].
  - now apply pickDiverseActivities_spec.
  - now apply timed_spec.
  - now apply pickDiverseActivities_spec.
Qed.

Lemma selection_from_catalogue (sv : DailySurvey) (w : option WeatherData)
      (count : Z) (times : option (list Z)) (a : Obj) :
  In a (selectBonusActivities activities ageMonths random sv w count times) ->
  In (val a) activities.
Proof.
  pose proof (poolObjs_NoDup activities ageMonths random sv w) as Hn.
  unfold poolObjs in Hn. unfold selectBonusActivities. intros H.
  apply objects_val, (@poolObjs_incl activities ageMonths random sv w).
  unfold poolObjs.
  destruct times as [[|t ts]|].
  - now apply (@pickDiverseActivities_spec _ count Hn).
  - now apply (@timed_spec _ count (t :: ts) Hn).
  - now apply (@pickDiverseActivities_spec _ count Hn).
Qed.

(** C8, as the code has it.  [selectBonusActivities] returns fewer than
    [count] activities only if the candidate pool holds fewer than [count]
    activities, or per-slot times were supplied and the pool holds a food or
    venue activity that would end after 900 at the time of one of the
    [count] slots (the cut-off may then have skipped it). *)
Theorem selection_underfill (sv : DailySurvey) (w : option WeatherData)
        (count : Z) (times : option (list Z)) :
  Z.of_nat (length (selectBonusActivities activities ageMonths random sv w count times))
    < count ->
  Z.of_nat (length (candidatePool activities ageMonths random sv w)) < count
  \/ exists ts a j,
      times = Some ts /\ ts <> []
      /\ In a (map activity (candidatePool activities ageMonths random sv w))
      /\ (j < Z.to_nat count)%nat
      /\ isCafeOrFoodActivity (val a) = true
      /\ 900 < slotMins ts j + duration (val a).
Proof.
  pose proof (poolObjs_NoDup activities ageMonths random sv w) as Hn.
  unfold poolObjs in Hn. unfold selectBonusActivities.
  destruct times as [[|t ts]|]; intros H.
  - left. now apply (@pickDiverseActivities_spec _ count Hn).
  - destruct (@timed_spec _ count (t :: ts) Hn) as (_ & _ & F).
    destruct (F H) as [L|(a & j & Ha & Hj & El)]; [now left|right].
    exists (t :: ts), a, j. unfold endsAfter3pm in El.
    apply andb_true_iff in El. destruct El as [Ec El]. apply Z.ltb_lt in El.
    repeat split; try assumption. discriminate.
  - left. now apply (@pickDiverseActivities_spec _ count Hn).
Qed.

Lemma combine_seq_nth (l : list Activity) :
  forall k i x, In (i, x) (combine (seq k (length l)) l) ->
                (k <= i)%nat /\ nth_error l (i - k) = Some x.
Proof.
  induction l as [|y l IH]; intros k i x H; cbn in H; [destruct H|].
  destruct H as [H|H].
  - injection H as <- <-. split; [lia|]. now rewrite Nat.sub_diag.
  - destruct (IH (S k) i x H) as [L E]. split; [lia|].
    replace (i - k)%nat with (S (i - S k)) by lia. exact E.
Qed.

Lemma objects_nth (a : Obj) :
  In a (objects activities) -> nth_error activities (addr a) = Some (val a).
Proof.
  unfold objects. rewrite in_map_iff. intros ([i x] & <- & H).
  apply combine_seq_nth in H. cbn [addr val fst snd].
  destruct H as [_ H]. now rewrite Nat.sub_0_r in H.
Qed.

Lemma NoDup_map_by (A B C : Type) (f : A -> B) (g : A -> C) (l : list A) :
  NoDup (map f l) ->
  (forall x y, In x l -> In y l -> g x = g y -> f x = f y) ->
  NoDup (map g l).
Proof.
  induction l as [|x l IH]; cbn; intros N Hinj; [constructor|].
  inversion N as [|? ? Hx Hl]; subst. constructor.
  - intros Hin. apply Hx. apply in_map_iff in Hin. destruct Hin as (y & E & Hy).
    apply in_map_iff. exists y. split; [|assumption].
    apply Hinj; [now right|now left|assumption].
  - apply IH; [assumption|]. intros y z Hy Hz. apply Hinj; now right.
Qed.

(** When the identifiers of the catalogue are pairwise distinct, so are the
    identifiers of the returned activities. *)
Lemma selection_has_distinct_ids (sv : DailySurvey) (w : option WeatherData)
      (count : Z) (times : option (list Z)) :
  NoDup (map id activities) ->
  NoDup (map (fun a => id (val a))
             (selectBonusActivities activities ageMonths random sv w count times)).
Proof.
  intros Hid.
  apply NoDup_map_by with (f := addr).
  { pose proof (poolObjs_NoDup activities ageMonths random sv w) as Hn.
    unfold poolObjs in Hn. unfold selectBonusActivities.
    destruct times as [[|t ts]|].
    - now apply pickDiverseActivities_spec.
    - now apply timed_spec.
    - now apply pickDiverseActivities_spec. }
  intros x y Hx Hy E.
  assert (Ox : forall a,
             In a (selectBonusActivities activities ageMonths random sv w count times) ->
             nth_error (map id activities) (addr a) = Some (id (val a))).
  { intros a Ha. apply map_nth_error. apply objects_nth.
    apply (@poolObjs_incl activities ageMonths random sv w).
    pose proof (poolObjs_NoDup activities ageMonths random sv w) as Hn.
    unfold poolObjs in *. unfold selectBonusActivities in Ha.
    destruct times as [[|t ts]|].
    - now apply (@pickDiverseActivities_spec _ count Hn).
    - now apply (@timed_spec _ count (t :: ts) Hn).
    - now apply (@pickDiverseActivities_spec _ count Hn). }
  pose proof (Ox x Hx) as Ex. pose proof (Ox y Hy) as Ey.
  rewrite NoDup_nth_error in Hid. apply Hid.
  - apply nth_error_Some. rewrite Ex. discriminate.
  - rewrite Ex, Ey, E. reflexivity.
Qed.

End SelectionTheorems.

Lemma cafe_cutoff_witness :
  let pool := candidatePool sampleCatalogue 8 sampleRandom (surveyWith None) None in
  isCafeOrFoodActivity (val cafeObj) = true
  /\ 900 < 870 + duration (val cafeObj)
  /\ (slotMins [870; 870; 870] 0 = 870
      \/ (nth_error [870; 870; 870] 0 = Some 870
          /\ Forall (fun t => 0 <= t) [870; 870; 870]))
  /\ In cafeObj (map activity pool)
  /\ map snd (timedPicks pool 3 [870; 870; 870])
     = pickDiverseActivitiesWithTimeConstraints pool 3 [870; 870; 870]
  /\ ~ In (0%nat, cafeObj) (timedPicks pool 3 [870; 870; 870])
  /\ ~ In cafeObj (pickDiverseActivitiesWithTimeConstraints pool 3 [870; 870; 870])
  /\ ~ In cafeObj
          (selectBonusActivities sampleCatalogue 8 sampleRandom (surveyWith None) None
                                 3 (Some [870; 870; 870]))
  /\ getReplacementActivity sampleCatalogue 8 sampleRandom (surveyWith None) None []
                            (Some 870) <> Some cafeObj.
Proof.
  cbv zeta.
  split; [reflexivity|]. split; [reflexivity|]. split; [left; reflexivity|].
  split; [vm_compute; left; reflexivity|].
  destruct (@cafe_cutoff sampleCatalogue 8 sampleRandom
              (candidatePool sampleCatalogue 8 sampleRandom (surveyWith None) None)
              3 [870; 870; 870] (surveyWith None) None [] 0%nat 870 cafeObj
              eq_refl eq_refl (or_introl eq_refl)) as (E & N & L & R).
  assert (Late : forall j, (j < Z.to_nat 3)%nat ->
                           900 < slotMins [870; 870; 870] j + duration (val cafeObj)).
  { intros j Hj. destruct j as [|[|[|j]]]; [reflexivity|reflexivity|reflexivity|].
    cbn in Hj. lia. }
  destruct (L Late) as [L1 L2].
  split; [exact E|]. split; [exact N|]. split; [exact L1|].
  split; [apply L2; discriminate|exact R].
Defined.

(** The scenario of the specification: with every slot at 14:30 the cafe
    visit of 60 minutes is left out, at 9:30, 13:30 and 15:30 it is chosen for
    the first slot. *)
Example cafe_at_1430 :
  map (fun a => id (val a))
      (selectBonusActivities sampleCatalogue 8 sampleRandom (surveyWith None) None 3
                             (Some [870; 870; 870]))
  = ["sensory-bottles"; "finger-painting"]
  /\ map (fun a => id (val a))
         (selectBonusActivities sampleCatalogue 8 sampleRandom (surveyWith None) None 3
                                (Some [570; 810; 930]))
     = ["cafe-visit"; "sensory-bottles"; "finger-painting"].
Proof. split; vm_compute; reflexivity. Qed.

(** With three candidates and every slot at 14:30 the cut-off leaves two
    activities for a count of three. *)
Lemma underfill_with_full_pool :
  ~ UnderfillOnlyFromSmallPool sampleCatalogue 8 sampleRandom (surveyWith None) None 3
      (Some [870; 870; 870]).
Proof.
  unfold UnderfillOnlyFromSmallPool. intros H.
  assert (L : Z.of_nat (length (selectBonusActivities sampleCatalogue 8 sampleRandom
                                  (surveyWith None) None 3 (Some [870; 870; 870]))) < 3)
    by (vm_compute; reflexivity).
  specialize (H L). vm_compute in H. discriminate.
Qed.

Lemma selection_underfill_witness :
  Z.of_nat (length (selectBonusActivities sampleCatalogue 8 sampleRandom
                      (surveyWith None) None 5 None)) < 5
  /\ (Z.of_nat (length (candidatePool sampleCatalogue 8 sampleRandom (surveyWith None) None))
        < 5
      \/ exists ts a j,
          None = Some ts /\ ts <> []
          /\ In a (map activity
                       (candidatePool sampleCatalogue 8 sampleRandom (surveyWith None) None))
          /\ (j < Z.to_nat 5)%nat
          /\ isCafeOrFoodActivity (val a) = true
          /\ 900 < slotMins ts j + duration (val a)).
Proof.
  split; [reflexivity|].
  apply (@selection_underfill sampleCatalogue 8 sampleRandom (surveyWith None) None 5 None).
  reflexivity.
Defined.

(** ** The assembled schedule *)

Lemma empty_Good (apts : list ParsedAppointment) (P : Prop) :
  Good apts P {| scheduledTimes := []; items := [] |}.
Proof.
  split.
  - constructor; cbn [items scheduledTimes]; try (intros p []). constructor.
  - intros _. constructor.
Qed.

Lemma addRecurringTasks_app (apts : list ParsedAppointment) (t1 t2 : list string) :
  forall index st,
    addRecurringTasks apts (t1 ++ t2) index st
    = addRecurringTasks apts t2 (index + length t1) (addRecurringTasks apts t1 index st).
Proof.
  induction t1 as [|t t1 IH]; intros index st; cbn [addRecurringTasks app length].
  - now rewrite Nat.add_0_r.
  - rewrite IH. f_equal. lia.
Qed.

Lemma Extends_refl (st : State) : Extends st st.
Proof. split; exists []; now rewrite app_nil_r. Qed.

Lemma Extends_trans (a b c : State) : Extends a b -> Extends b c -> Extends a c.
Proof.
  intros [[i1 Hi1] [s1 Hs1]] [[i2 Hi2] [s2 Hs2]]. split.
  - exists (i1 ++ i2). now rewrite Hi2, Hi1, app_assoc.
  - exists (s1 ++ s2). now rewrite Hs2, Hs1, app_assoc.
Qed.

Lemma Extends_register (st : State) (p : Placed) : Extends st (register st p).
Proof. split; [exists [p]|exists [intervalOf p]]; reflexivity. Qed.

Lemma Extends_emit (st : State) (p : Placed) : Extends st (emit st p).
Proof. split; [exists [p]|exists []]; cbn; [reflexivity|now rewrite app_nil_r]. Qed.

Lemma addRecurring_Extends (apts : list ParsedAppointment) (t : string) (index : nat)
      (st : State) :
  Extends st (addRecurring apts t index st).
Proof.
  unfold addRecurring.
  match goal with |- context [match ?a with Some _ => _ | None => _ end] =>
    destruct a as [[apt s]|] end.
  - apply Extends_emit.
  - apply Extends_register.
Qed.

Lemma addRecurringTasks_Extends (apts : list ParsedAppointment) (tasks : list string) :
  forall index st, Extends st (addRecurringTasks apts tasks index st).
Proof.
  induction tasks as [|t tasks IH]; intros index st; cbn [addRecurringTasks].
  - apply Extends_refl.
  - eapply Extends_trans; [apply addRecurring_Extends|apply IH].
Qed.

Lemma addBonuses_Extends (apts : list ParsedAppointment) (acts : list Activity) :
  forall index st, Extends st (addBonuses apts acts index st).
Proof.
  induction acts as [|a acts IH]; intros index st; cbn [addBonuses].
  - apply Extends_refl.
  - eapply Extends_trans; [apply Extends_register|apply IH].
Qed.

Lemma render_six_pm : minutesToTimeString 1080 = "6:00 PM".
Proof. vm_compute. reflexivity. Qed.

(** The bath branch of [addRecurring]. *)
Lemma addRecurring_bath (apts : list ParsedAppointment) (index : nat) (st : State) :
  (forall apt, In apt apts -> fulfillsTask apt <> Some "Having a bath") ->
  addRecurring apts "Having a bath" index st
  = register st
      {| item := {| itemId := idOf "recurring-" index; task := "Having a bath";
                    completed := false; itemType := recurring; itemActivity := None;
                    time := None; timeBlock := Some evening;
                    suggestedTime := Some "6:00 PM";
                    canOverlap := Some false; socialActivity := Some false |};
         startAt := 1080; span := 30; how := Exempt |}.
Proof.
  intros Hno. unfold addRecurring.
  assert (F : find (fulfils "Having a bath") apts = None).
  { destruct (find (fulfils "Having a bath") apts) as [apt|] eqn:E; [|reflexivity].
    apply find_some in E. destruct E as [Hin Hf]. exfalso. apply (Hno apt Hin).
    unfold fulfils in Hf. destruct (fulfillsTask apt) as [u|]; [|discriminate].
    apply String.eqb_eq in Hf. now subst. }
  rewrite F.
  replace (if hasTask (fulfilledTasksOf apts) "Having a bath" then None else None)
    with (@None (ParsedAppointment * Z)) by (destruct (hasTask _ _); reflexivity).
  rewrite bath_slot, bath_not_visitor_friendly.
  cbn [mkSlot slotTime slotDuration slotSocial exclusive exemptFromEndTime isTrue negb].
  rewrite six_pm.
  replace (match visitorWindow (find isVisitor apts) with
           | Some (_, _) => 1080 | None => 1080 end) with 1080
    by (destruct (visitorWindow _) as [[? ?]|]; reflexivity).
  replace (if isSlotAvailableNoEndLimit (scheduledTimes st) 1080 (1080 + 30)
           then 1080 else 1080) with 1080
    by (destruct (isSlotAvailableNoEndLimit _ _ _); reflexivity).
  rewrite render_six_pm. reflexivity.
Qed.

Section AssemblyTheorems.

Variable activities : list Activity.
Variable ageMonths : Age.
Variable random : nat -> Q.
Variable preferences : UserPreferences.
Variable sv : DailySurvey.
Variable w : option WeatherData.

Let run : list Placed := placements activities ageMonths random preferences sv w.
Let final : State := assemble activities ageMonths random preferences sv w.

Lemma assemble_Good :
  Good (appointmentsOf sv)
       (0 <= napDuration preferences /\ Forall (fun a => 0 < duration a) activities)
       final.
Proof.
  unfold final, assemble.
  apply addBonuses_Good.
  - intros [_ Hpos]. apply Forall_forall. intros a Ha. apply in_map_iff in Ha.
    destruct Ha as (o & <- & Ho). rewrite Forall_forall in Hpos. apply Hpos.
    now apply selection_from_catalogue in Ho.
  - apply addRecurringTasks_Good.
    assert (G : Good (appointmentsOf sv)
                  (0 <= napDuration preferences
                   /\ Forall (fun a => 0 < duration a) activities)
                  (addAppointments (appointmentsOf sv)
                     (addFeeds (feedingTimes preferences) 0
                        {| scheduledTimes := []; items := [] |}))).
    { apply addAppointments_Good; [apply incl_refl|].
      apply addFeeds_Good; [apply empty_Good|constructor]. }
    destruct (0 <? napsPerDay preferences); [|exact G].
    apply addNaps_Good; [tauto|exact G].
Qed.

(** The output is the list of placed items, reordered by the final sort. *)
Lemma generateChecklist_perm :
  Permutation (map item run)
              (generateChecklist activities ageMonths random preferences sv w).
Proof. unfold generateChecklist. apply stableSort_perm. Qed.

(** An item that was not anchored to an appointment shows the start it was
    given, and the final sort reads that start back when it lies in the day. *)
Lemma suggestedTime_of_placed (p : Placed) :
  In p run -> how p <> Fulfilled ->
  suggestedTime (item p) = Some (minutesToTimeString (startAt p))
  /\ (0 <= startAt p < 1440 ->
      parseTimeToMinutes (minutesToTimeString (startAt p)) = startAt p).
Proof.
  intros Hp Hf. destruct assemble_Good as [HI _]. split.
  - now apply (inv_time HI).
  - apply parse_render.
Qed.

(** C1, as the code has it.  Two distinct items of the schedule do not have
    overlapping intervals when both are non-overlappable, neither is the
    bath task, neither was placed by the no-free-slot fall-back, neither is a
    recurring task anchored to the appointment that fulfils it, and they are
    not both feeds. *)
Theorem placed_items_do_not_overlap (p q : Placed) :
  In p run -> In q run -> p <> q ->
  nonOverlappable p -> nonOverlappable q ->
  ~ isBathTask p -> ~ isBathTask q ->
  how p <> Fallback -> how q <> Fallback ->
  how p <> Fulfilled -> how q <> Fulfilled ->
  ~ (how p = Anchored /\ how q = Anchored) ->
  ~ intervalsOverlap p q.
Proof.
  intros Hp Hq Hne _ _ Hbp Hbq Hfp Hfq Hup Huq Hanch [O1 O2].
  destruct assemble_Good as [HI _].
  assert (Hex : forall x, In x run -> ~ isBathTask x -> how x <> Exempt).
  { intros x Hx Hb E. apply Hb. now apply (inv_exempt HI x Hx E). }
  pose proof (Hex p Hp Hbp) as Hep. pose proof (Hex q Hq Hbq) as Heq.
  destruct (ForallOrdPairs_In (inv_pairs HI) p q Hp Hq) as [E|[C|C]];
    [contradiction| |]; unfold Compatible in C.
  - destruct (how q) eqn:E; try congruence.
    + apply Hanch. split; [assumption|reflexivity].
    + specialize (C Hup). unfold overlaps, intervalOf in C. cbn [start end_] in C.
      apply andb_false_iff in C. destruct C as [C|C]; apply Z.ltb_ge in C; lia.
  - destruct (how p) eqn:E; try congruence.
    + apply Hanch. split; [reflexivity|assumption].
    + specialize (C Huq). unfold overlaps, intervalOf in C. cbn [start end_] in C.
      apply andb_false_iff in C. destruct C as [C|C]; apply Z.ltb_ge in C; lia.
Qed.

(** C2, as the code has it.  Every item that the slot finder placed into a
    free slot (neither the bath task, nor a feed, nor a recurring task
    anchored to its appointment, nor a fall-back placement) ends by 1110. *)
Theorem placed_items_end_by_boundary (p : Placed) :
  In p run ->
  ~ isBathTask p ->
  how p <> Anchored -> how p <> Fulfilled -> how p <> Fallback ->
  startAt p + span p <= 1110.
Proof.
  intros Hp Hb Ha Hf Hfb. destruct assemble_Good as [HI _].
  destruct (how p) eqn:E; try congruence.
  - exfalso. apply Hb. now apply (inv_exempt HI p Hp E).
  - now apply (inv_boundary HI p Hp).
Qed.


(** C5, as the code has it.  When no recurring task is named like an
    inherited member of [Object.prototype] (the call then returns),
    "Having a bath" is among the recurring tasks and no appointment fulfils
    it, the schedule holds the bath item at 6:00 PM (minute 1080) whatever is
    occupied: no slot test is made for it.  Its interval from 1080 to 1110,
    which ends at the boundary, is registered, and no item that the slot
    finder places into a free slot after it overlaps it.  An item placed
    after it by the no-free-slot fall-back can lie on it. *)
Theorem bath_at_six_pm :
  NoInheritedTask preferences ->
  In "Having a bath" (recurringTasks preferences) ->
  (forall apt, In apt (appointmentsOf sv) -> fulfillsTask apt <> Some "Having a bath") ->
  exists earlier bath later,
    run = earlier ++ bath :: later
    /\ task (item bath) = "Having a bath"
    /\ suggestedTime (item bath) = Some "6:00 PM"
    /\ startAt bath = 1080 /\ span bath = 30 /\ how bath = Exempt
    /\ In (item bath) (generateChecklist activities ageMonths random preferences sv w)
    /\ In {| start := 1080; end_ := 1110 |} (scheduledTimes final)
    /\ (forall q, In q later -> how q = FreeSlot -> ~ intervalsOverlap q bath).
Proof.
  intros _ Hin Hno.
  destruct (in_split _ _ Hin) as (t1 & t2 & Ht).
  set (bath := {| item := {| itemId := idOf "recurring-" (0 + length t1);
                             task := "Having a bath";
                             completed := false; itemType := recurring;
                             itemActivity := None;
                             time := None; timeBlock := Some evening;
                             suggestedTime := Some "6:00 PM";
                             canOverlap := Some false; socialActivity := Some false |};
                  startAt := 1080; span := 30; how := Exempt |}).
  assert (E : exists st0 more moreS,
             items final = (items st0 ++ [bath]) ++ more
             /\ scheduledTimes final = (scheduledTimes st0 ++ [intervalOf bath]) ++ moreS).
  { unfold final, assemble. rewrite Ht, addRecurringTasks_app.
    cbn [addRecurringTasks]. rewrite addRecurring_bath by assumption. fold bath.
    match goal with |- context [register ?s bath] => set (st0 := s) end.
    destruct (Extends_trans
                (addRecurringTasks_Extends (appointmentsOf sv) t2
                   (S (0 + length t1)) (register st0 bath))
                (addBonuses_Extends (appointmentsOf sv)
                   (map val (selectBonusActivities activities ageMonths random sv w 3 None))
                   0 _)) as [[more Hm] [moreS Hs]].
    exists st0, more, moreS. split; [exact Hm|exact Hs]. }
  destruct E as (st0 & more & moreS & Hi & Hs).
  assert (Hrun : run = items st0 ++ bath :: more).
  { unfold run, placements. fold final. rewrite Hi, <- app_assoc. reflexivity. }
  exists (items st0), bath, more.
  split; [exact Hrun|]. repeat (split; [reflexivity|]).
  split; [|split].
  - eapply Permutation_in; [apply generateChecklist_perm|].
    apply in_map. rewrite Hrun. apply in_app_iff. right. now left.
  - rewrite Hs. apply in_app_iff. left. apply in_app_iff. right. now left.
  - intros q Hq Hfree [O1 O2]. destruct assemble_Good as [HI _].
    pose proof (inv_pairs HI) as P. fold final in Hi. unfold final in P.
    fold final in P. rewrite Hi, <- app_assoc in P. cbn [app] in P.
    apply FOP_later in P. rewrite Forall_forall in P. specialize (P q Hq).
    unfold Compatible in P. rewrite Hfree in P.
    assert (C : overlaps (startAt q) (startAt q + span q) (intervalOf bath) = false)
      by (apply P; discriminate).
    unfold overlaps, intervalOf in C. cbn [start end_ bath startAt span] in C.
    cbn [startAt span bath] in O1, O2.
    apply andb_false_iff in C. destruct C as [C|C]; apply Z.ltb_ge in C; lia.
Qed.

End AssemblyTheorems.

(** ** The schedule on worked inputs *)

Example quietDay_summary :
  map summary quietDay =
  [ ("feeding-0", Some "8:00 AM", 480, 480, 30, Anchored);
    ("feeding-1", Some "12:00 PM", 720, 720, 30, Anchored);
    ("feeding-2", Some "4:00 PM", 960, 960, 30, Anchored);
    ("feeding-3", Some "7:30 PM", 1170, 1170, 30, Anchored);
    ("nap-0", Some "10:00 AM", 600, 600, 30, FreeSlot);
    ("nap-1", Some "2:30 PM", 870, 870, 30, FreeSlot);
    ("recurring-0", Some "9:00 AM", 540, 540, 20, FreeSlot);
    ("recurring-1", Some "12:30 PM", 750, 750, 30, FreeSlot);
    ("recurring-2", Some "4:30 PM", 990, 990, 45, FreeSlot);
    ("recurring-3", Some "6:00 PM", 1080, 1080, 30, Exempt);
    ("recurring-4", Some "11:00 AM", 660, 660, 15, FreeSlot);
    ("recurring-5", Some "3:00 PM", 900, 900, 20, FreeSlot);
    ("recurring-6", Some "5:15 PM", 1035, 1035, 15, FreeSlot);
    ("bonus-0", Some "1:00 PM", 780, 780, 60, FreeSlot);
    ("bonus-1", Some "2:00 PM", 840, 840, 15, FreeSlot);
    ("bonus-2", Some "3:30 PM", 930, 930, 30, FreeSlot) ].
Proof. vm_compute. reflexivity. Qed.

(** The feed of 4 PM and the walk anchored to the 4 PM appointment. *)
Example walkDay_at_four :
  map summary [created 2 walkDay; created 8 walkDay] =
  [ ("feeding-2", Some "4:00 PM", 960, 960, 30, Anchored);
    ("recurring-2", Some "4:00 PM", 960, 960, 45, Fulfilled) ]
  /\ task (item (created 8 walkDay)) = "Going for a walk (with Sam)".
Proof. split; vm_compute; reflexivity. Qed.

Lemma created_In (n : nat) (run : list Placed) :
  Nat.ltb n (length run) = true -> In (created n run) run.
Proof. intros H. apply nth_In. now apply Nat.ltb_lt. Qed.

Lemma how_by (p : Placed) (k : Placement) : Placement_eqb (how p) k = false -> how p <> k.
Proof. intros H E. rewrite E in H. destruct k; discriminate. Qed.

Lemma distinct_by (p q : Placed) :
  String.eqb (itemId (item p)) (itemId (item q)) = false -> p <> q.
Proof. intros H E. rewrite E, String.eqb_refl in H. discriminate. Qed.

Lemma nonOverlappable_by (p : Placed) : nonOverlappableb p = true -> nonOverlappable p.
Proof.
  unfold nonOverlappableb, nonOverlappable. intros H E. rewrite E in H. discriminate.
Qed.

Lemma notBath_by (p : Placed) : isBathTaskb p = false -> ~ isBathTask p.
Proof.
  unfold isBathTaskb, isBathTask. intros H E. rewrite E in H. discriminate.
Qed.

Lemma overlap_by (p q : Placed) : intervalsOverlapb p q = true -> intervalsOverlap p q.
Proof.
  unfold intervalsOverlapb, intervalsOverlap. intros H.
  apply andb_true_iff in H. destruct H as [A B].
  apply Z.ltb_lt in A. apply Z.ltb_lt in B. lia.
Qed.

Lemma late_by (p : Placed) :
  (1110 <? startAt p + span p) = true -> ~ startAt p + span p <= 1110.
Proof. intros H. apply Z.ltb_lt in H. lia. Qed.

Lemma In_by (iv : Interval) (l : list Interval) :
  existsb (Interval_eqb iv) l = true -> In iv l.
Proof.
  intros H. apply existsb_exists in H. destruct H as (x & Hx & E).
  unfold Interval_eqb in E. apply andb_true_iff in E. destruct E as [A B].
  apply Z.eqb_eq in A. apply Z.eqb_eq in B.
  destruct iv, x. cbn in A, B. now subst.
Qed.

(** With the default preferences and the appointment "walk with Sam at 4pm"
    the feed of 4:00 PM (960 to 990) and the walk anchored to the appointment
    (960 to 1005) overlap; neither can overlap, is the bath or a fall-back. *)
Lemma feed_overlaps_anchored_walk : ~ NoOverlapClaim walkDay.
Proof.
  intros H.
  apply (H (created 2 walkDay) (created 8 walkDay)).
  - apply created_In. vm_compute. reflexivity.
  - apply created_In. vm_compute. reflexivity.
  - apply distinct_by. vm_compute. reflexivity.
  - apply nonOverlappable_by. vm_compute. reflexivity.
  - apply nonOverlappable_by. vm_compute. reflexivity.
  - apply notBath_by. vm_compute. reflexivity.
  - apply notBath_by. vm_compute. reflexivity.
  - apply how_by. vm_compute. reflexivity.
  - apply how_by. vm_compute. reflexivity.
  - apply overlap_by. vm_compute. reflexivity.
Qed.

Lemma placed_items_do_not_overlap_witness :
  let p := created 4 quietDay in
  let q := created 8 quietDay in
  In p quietDay /\ In q quietDay /\ p <> q
  /\ nonOverlappable p /\ nonOverlappable q
  /\ ~ isBathTask p /\ ~ isBathTask q
  /\ how p <> Fallback /\ how q <> Fallback
  /\ how p <> Fulfilled /\ how q <> Fulfilled
  /\ ~ (how p = Anchored /\ how q = Anchored)
  /\ ~ intervalsOverlap p q.
Proof.
  cbv zeta.
  assert (Hp : In (created 4 quietDay) quietDay)
    by (apply created_In; vm_compute; reflexivity).
  assert (Hq : In (created 8 quietDay) quietDay)
    by (apply created_In; vm_compute; reflexivity).
  assert (Hne : created 4 quietDay <> created 8 quietDay)
    by (apply distinct_by; vm_compute; reflexivity).
  assert (Np : nonOverlappable (created 4 quietDay))
    by (apply nonOverlappable_by; vm_compute; reflexivity).
  assert (Nq : nonOverlappable (created 8 quietDay))
    by (apply nonOverlappable_by; vm_compute; reflexivity).
  assert (Bp : ~ isBathTask (created 4 quietDay))
    by (apply notBath_by; vm_compute; reflexivity).
  assert (Bq : ~ isBathTask (created 8 quietDay))
    by (apply notBath_by; vm_compute; reflexivity).
  assert (Fp : how (created 4 quietDay) <> Fallback)
    by (apply how_by; vm_compute; reflexivity).
  assert (Fq : how (created 8 quietDay) <> Fallback)
    by (apply how_by; vm_compute; reflexivity).
  assert (Up : how (created 4 quietDay) <> Fulfilled)
    by (apply how_by; vm_compute; reflexivity).
  assert (Uq : how (created 8 quietDay) <> Fulfilled)
    by (apply how_by; vm_compute; reflexivity).
  assert (A : ~ (how (created 4 quietDay) = Anchored /\ how (created 8 quietDay) = Anchored)).
  { intros [E _]. revert E. apply how_by. vm_compute. reflexivity. }
  split; [exact Hp|]. split; [exact Hq|]. split; [exact Hne|].
  split; [exact Np|]. split; [exact Nq|]. split; [exact Bp|]. split; [exact Bq|].
  split; [exact Fp|]. split; [exact Fq|]. split; [exact Up|]. split; [exact Uq|].
  split; [exact A|].
  exact (@placed_items_do_not_overlap sampleCatalogue 8 sampleRandom DEFAULT_PREFERENCES
           (surveyWith None) None _ _ Hp Hq Hne Np Nq Bp Bq Fp Fq Up Uq A).
Defined.

(** The default preferences hold a feed at 7:30 PM: 1170 + 30 > 1110. *)
Lemma evening_feed_ends_late : ~ EndsByBoundaryClaim quietDay.
Proof.
  intros H.
  apply (@late_by (created 3 quietDay)); [vm_compute; reflexivity|].
  apply H.
  - apply created_In. vm_compute. reflexivity.
  - apply notBath_by. vm_compute. reflexivity.
Qed.

Lemma placed_items_end_by_boundary_witness :
  let p := created 8 quietDay in
  In p quietDay /\ ~ isBathTask p
  /\ how p <> Anchored /\ how p <> Fulfilled /\ how p <> Fallback
  /\ startAt p + span p <= 1110.
Proof.
  cbv zeta.
  assert (Hp : In (created 8 quietDay) quietDay)
    by (apply created_In; vm_compute; reflexivity).
  assert (Bp : ~ isBathTask (created 8 quietDay))
    by (apply notBath_by; vm_compute; reflexivity).
  assert (Ap : how (created 8 quietDay) <> Anchored)
    by (apply how_by; vm_compute; reflexivity).
  assert (Up : how (created 8 quietDay) <> Fulfilled)
    by (apply how_by; vm_compute; reflexivity).
  assert (Fp : how (created 8 quietDay) <> Fallback)
    by (apply how_by; vm_compute; reflexivity).
  split; [exact Hp|]. split; [exact Bp|]. split; [exact Ap|].
  split; [exact Up|]. split; [exact Fp|].
  exact (@placed_items_end_by_boundary sampleCatalogue 8 sampleRandom DEFAULT_PREFERENCES
           (surveyWith None) None _ Hp Bp Ap Up Fp).
Defined.


Example visitorDay_appointment :
  map (fun apt => (startMins apt, endMins apt))
      (parseAppointments "friend coming over 6-8") = [(Some 1080, Some 480)].
Proof. vm_compute. reflexivity. Qed.


Lemma isBath_by (p : Placed) : isBathTaskb p = true -> isBathTask p.
Proof. unfold isBathTaskb, isBathTask. apply String.eqb_eq. Qed.

Lemma NoInheritedTask_by (preferences : UserPreferences) :
  forallb (fun t => negb (inheritedMember t)) (recurringTasks preferences) = true ->
  NoInheritedTask preferences.
Proof.
  unfold NoInheritedTask. rewrite forallb_forall, Forall_forall.
  intros H t Ht. apply negb_true_iff. now apply H.
Qed.

Lemma not_fulfilled_by (t : string) (apts : list ParsedAppointment) :
  forallb (fun apt => negb (fulfils t apt)) apts = true ->
  forall apt, In apt apts -> fulfillsTask apt <> Some t.
Proof.
  rewrite forallb_forall. intros H apt Hin E. specialize (H apt Hin).
  unfold fulfils in H. rewrite E, String.eqb_refl in H. discriminate.
Qed.

(** With the default preferences and the appointments "doctor 7am-1pm, friend
    1pm-11pm" the day is taken from 7 AM on: the slot finder finds no free
    start for "Vestibular play", created after the bath, and hands back its
    preferred start 1080; the item lies on the bath from 1080 to 1095. *)
Lemma later_fallback_lies_on_bath : ~ LaterAvoidBathClaim busyDay.
Proof.
  intros H.
  apply (H (firstn 9 busyDay) (created 9 busyDay) (skipn 10 busyDay)) with
    (q := created 10 busyDay).
  - vm_compute. reflexivity.
  - apply isBath_by. vm_compute. reflexivity.
  - vm_compute. left. reflexivity.
  - apply overlap_by. vm_compute. reflexivity.
Qed.

(** With a visit from 4 PM to 7 PM registered from 960 to 1140 the bath is
    still placed at 1080, on the visit.  "Crawling/walking practice", created
    after the bath, is aimed at 1080 by the staggering within the visit; the
    slot finder moves it to the free slot at 795. *)
Lemma bath_at_six_pm_witness :
  let moved := created 11 lateVisitDay in
  NoInheritedTask DEFAULT_PREFERENCES
  /\ In "Having a bath" (recurringTasks DEFAULT_PREFERENCES)
  /\ (forall apt, In apt (appointmentsOf (surveyWith (Some "friend coming over 4-7pm"))) ->
                  fulfillsTask apt <> Some "Having a bath")
  /\ In {| start := 960; end_ := 1140 |}
        (scheduledTimes (assemble sampleCatalogue 8 sampleRandom DEFAULT_PREFERENCES
                                  (surveyWith (Some "friend coming over 4-7pm")) None))
  /\ task (item moved) = "Crawling/walking practice"
  /\ how moved = FreeSlot /\ startAt moved = 795
  /\ exists earlier bath later,
      lateVisitDay = earlier ++ bath :: later
      /\ task (item bath) = "Having a bath"
      /\ suggestedTime (item bath) = Some "6:00 PM"
      /\ startAt bath = 1080 /\ span bath = 30 /\ how bath = Exempt
      /\ In (item bath)
            (generateChecklist sampleCatalogue 8 sampleRandom DEFAULT_PREFERENCES
                               (surveyWith (Some "friend coming over 4-7pm")) None)
      /\ In {| start := 1080; end_ := 1110 |}
            (scheduledTimes (assemble sampleCatalogue 8 sampleRandom DEFAULT_PREFERENCES
                                      (surveyWith (Some "friend coming over 4-7pm")) None))
      /\ (forall q, In q later -> how q = FreeSlot -> ~ intervalsOverlap q bath).
Proof.
  cbv zeta.
  assert (Hown : NoInheritedTask DEFAULT_PREFERENCES)
    by (apply NoInheritedTask_by; vm_compute; reflexivity).
  assert (Hin : In "Having a bath" (recurringTasks DEFAULT_PREFERENCES))
    by (cbn; tauto).
  assert (Hno : forall apt,
             In apt (appointmentsOf (surveyWith (Some "friend coming over 4-7pm"))) ->
             fulfillsTask apt <> Some "Having a bath")
    by (apply not_fulfilled_by; vm_compute; reflexivity).
  split; [exact Hown|]. split; [exact Hin|]. split; [exact Hno|].
  split; [apply In_by; vm_compute; reflexivity|].
  split; [vm_compute; reflexivity|]. split; [vm_compute; reflexivity|].
  split; [vm_compute; reflexivity|].
  exact (@bath_at_six_pm sampleCatalogue 8 sampleRandom DEFAULT_PREFERENCES
           (surveyWith (Some "friend coming over 4-7pm")) None Hown Hin Hno).
Defined.

(* ===================================================================== *)
(** * Further properties of the code *)
(* ===================================================================== *)

(** ** Time utilities *)

(** X1. Every minute of the day survives rendering and parsing:
    parseTimeToMinutes (minutesToTimeString m) = m for 0 <= m < 1440. *)
Theorem minutes_survive_rendering (m : Z) :
  0 <= m < 1440 -> parseTimeToMinutes (minutesToTimeString m) = m.
Proof.
  intros H. apply Z.eqb_eq. apply (@forall_range _ _ _ parsesBack_table m). lia.
Qed.

Lemma minutes_survive_rendering_witness :
  0 <= 1065 < 1440 /\ parseTimeToMinutes (minutesToTimeString 1065) = 1065.
Proof.
  split; [lia|]. apply minutes_survive_rendering. lia.
Defined.

Lemma rendersCanonical_table : forallb rendersCanonicalAt (range 0 1440) = true.
Proof. vm_compute. reflexivity. Qed.

(** X2. For every minute of the day [minutesToTimeString] gives a canonical
    "H:MM AM/PM" string: the hour between 1 and 12 without a leading zero,
    two minute digits, AM before noon and PM from noon on. *)
Theorem rendering_is_canonical (m : Z) :
  0 <= m < 1440 ->
  exists h mi pm,
    1 <= h <= 12 /\ 0 <= mi <= 59 /\ pm = (720 <=? m)
    /\ minutesToTimeString m = canonicalTime h mi pm.
Proof.
  intros H.
  assert (T := @forall_range _ _ _ rendersCanonical_table m). cbv beta in T.
  specialize (T ltac:(lia)). unfold rendersCanonicalAt in T.
  apply andb_true_iff in T. destruct T as [T H12].
  apply andb_true_iff in T. destruct T as [T H1].
  apply String.eqb_eq in T. apply Z.leb_le in H1. apply Z.leb_le in H12.
  exists (hourShown m), (m mod 60), (12 <=? m / 60).
  split; [lia|]. split; [pose proof (Z.mod_pos_bound m 60); lia|]. split; [|exact T].
  destruct (12 <=? m / 60) eqn:E1; destruct (720 <=? m) eqn:E2; try reflexivity.
  - apply Z.leb_le in E1. apply Z.leb_gt in E2.
    assert (m / 60 < 12) by (apply Z.div_lt_upper_bound; lia). lia.
  - apply Z.leb_gt in E1. apply Z.leb_le in E2.
    assert (12 <= m / 60) by (apply Z.div_le_lower_bound; lia). lia.
Qed.

Lemma rendering_is_canonical_witness :
  0 <= 725 < 1440
  /\ exists h mi pm,
      1 <= h <= 12 /\ 0 <= mi <= 59 /\ pm = (720 <=? 725)
      /\ minutesToTimeString 725 = canonicalTime h mi pm.
Proof.
  split; [lia|]. apply rendering_is_canonical. lia.
Defined.

(** A pattern whose continuation fails on digit-free text fails on
    digit-free text. *)
Lemma run_digitFree (r : regex) :
  forall (R : Type) (s : string) (c : caps) (k : string -> caps -> option R),
    (forall s' c', digitFree s' = true -> k s' c' = None) ->
    digitFree s = true -> run r s c k = None.
Proof.
  induction r as [|x|p|a IHa b IHb|a IHa b IHb|a IHa|p|n a IHa|a IHa|];
    intros R s c k Hk Hs; cbn [run].
  - now apply Hk.
  - destruct s as [|y s']; [reflexivity|]. cbn in Hs.
    apply andb_true_iff in Hs. destruct (Re.ciEq x y); [apply Hk; tauto|reflexivity].
  - destruct s as [|y s']; [reflexivity|]. cbn in Hs.
    apply andb_true_iff in Hs. destruct (p y); [apply Hk; tauto|reflexivity].
  - apply IHa; [|assumption]. intros s' c' Hs'. now apply IHb.
  - rewrite IHa by assumption. now apply IHb.
  - rewrite IHa by assumption. now apply Hk.
  - induction s as [|y s' IH]; [now apply Hk|].
    pose proof Hs as Hs0. cbn in Hs. apply andb_true_iff in Hs.
    destruct (p y); [|now apply Hk].
    rewrite IH by tauto. now apply Hk.
  - apply IHa; [|assumption]. intros s' c' Hs'. now apply Hk.
  - destruct (run a s c (fun _ _ => Some tt)); [reflexivity|now apply Hk].
  - destruct s; [now apply Hk|reflexivity].
Qed.

(** A pattern that starts with a digit, possibly after an optional prefix,
    finds nothing in digit-free text. *)
Lemma digit_first_fails (R : Type) (rest : regex) (s : string) (c : caps)
      (k : string -> caps -> option R) :
  digitFree s = true -> run (Seq (Grp 1 digits12) rest) s c k = None.
Proof.
  intros Hs. cbn [run digits12 digit].
  destruct s as [|y s']; [reflexivity|]. cbn in Hs.
  apply andb_true_iff in Hs. destruct Hs as [Hy _].
  apply negb_true_iff in Hy. now rewrite Hy.
Qed.

Lemma searchFrom_digitFree (r : regex) :
  (forall s c (k : string -> caps -> option (string * caps)),
      digitFree s = true -> run r s c k = None) ->
  forall s pre, digitFree s = true -> searchFrom r pre s = None.
Proof.
  intros Hr s. induction s as [|y s' IH]; intros pre Hs; cbn [searchFrom].
  - unfold matchAt. now rewrite Hr.
  - unfold matchAt. rewrite Hr by assumption.
    apply IH. cbn in Hs. apply andb_true_iff in Hs. tauto.
Qed.

(** X3. Text without any digit is unparseable: [parseTimeToMinutes] gives 0. *)
Theorem time_without_digit_is_zero (s : string) :
  digitFree s = true -> parseTimeToMinutes s = 0.
Proof.
  intros Hs. unfold parseTimeToMinutes, exec.
  rewrite (@searchFrom_digitFree reClock12)
    by (try assumption; intros; now apply digit_first_fails).
  rewrite (@searchFrom_digitFree reHour12)
    by (try assumption; intros; now apply digit_first_fails).
  rewrite (@searchFrom_digitFree reClock24)
    by (try assumption; intros; now apply digit_first_fails).
  rewrite (@searchFrom_digitFree reBareHour); [reflexivity| |assumption].
  intros t c k Ht. unfold reBareHour. cbn [seqs fold_right]. cbn [run].
  cbn [seqs].
  change (run (Opt (Seq (lit "at") ws1)) t c
            (fun s' c' => run (Seq (Grp 1 digits12) (alts [Cls Str.isSpace; Eos; Chr ","]))
                              s' c' k) = None).
  apply run_digitFree; [|assumption].
  intros s' c' Hs'. now apply digit_first_fails.
Qed.

Lemma time_without_digit_is_zero_witness :
  digitFree "around noon" = true /\ parseTimeToMinutes "around noon" = 0.
Proof.
  split; [reflexivity|]. apply time_without_digit_is_zero. reflexivity.
Defined.

Lemma digitsVal_nonneg (s : string) : forall acc, 0 <= acc -> 0 <= Str.digitsVal acc s.
Proof.
  induction s as [|c s IH]; intros acc H; cbn [Str.digitsVal]; [assumption|].
  destruct (Str.isDigit c) eqn:E; [|assumption]. apply IH.
  unfold Str.isDigit in E. apply andb_true_iff in E. destruct E as [E _].
  apply N.leb_le in E. unfold Str.digitVal. lia.
Qed.

Lemma parseInt_nonneg (s : string) : 0 <= Str.parseInt s.
Proof. unfold Str.parseInt. apply digitsVal_nonneg. lia. Qed.

Lemma to24_nonneg (h : Z) (pm : bool) : 0 <= h -> 0 <= to24 h pm.
Proof.
  intros H. unfold to24.
  destruct pm; cbn [andb negb];
    repeat match goal with |- context [if ?b then _ else _] => destruct b end; lia.
Qed.

Lemma parsed_minutes_lower_bound (s : string) : 0 <= parseTimeToMinutes s.
Proof.
  unfold parseTimeToMinutes.
  destruct (exec reClock12 s) as [m|].
  { pose proof (to24_nonneg (String.eqb (Str.toUpperCase (group 3 m)) "PM")
                  (parseInt_nonneg (group 1 m))).
    pose proof (parseInt_nonneg (group 2 m)). cbv zeta. lia. }
  destruct (exec reHour12 s) as [m|].
  { pose proof (to24_nonneg (String.eqb (Str.toUpperCase (group 2 m)) "PM")
                  (parseInt_nonneg (group 1 m))). cbv zeta. lia. }
  destruct (exec reClock24 s) as [m|].
  { pose proof (parseInt_nonneg (group 1 m)).
    pose proof (parseInt_nonneg (group 2 m)). cbv zeta. lia. }
  destruct (exec reBareHour s) as [m|]; [|lia].
  pose proof (parseInt_nonneg (group 1 m)). cbv zeta.
  destruct ((1 <=? Str.parseInt (group 1 m)) && (Str.parseInt (group 1 m) <=? 6)); lia.
Qed.

(** X4. Whatever the text, [parseTimeToMinutes] gives a number of minutes
    that is not negative. *)
Theorem parsed_minutes_not_negative (s : string) : 0 <= parseTimeToMinutes s.
Proof. apply parsed_minutes_lower_bound. Qed.

(** ** The checklist view against the engine *)

Lemma editedTimeBlock_thresholds (mins : Z) : editedTimeBlock mins = getTimeBlock mins.
Proof.
  unfold editedTimeBlock, getTimeBlock.
  destruct (720 <=? mins) eqn:A; destruct (840 <=? mins) eqn:B;
    destruct (1020 <=? mins) eqn:C;
    destruct (mins <? 720) eqn:A'; destruct (mins <? 840) eqn:B';
    destruct (mins <? 1020) eqn:C'; try reflexivity; exfalso;
    repeat match goal with
           | H : (_ <=? _) = true |- _ => apply Z.leb_le in H
           | H : (_ <=? _) = false |- _ => apply Z.leb_gt in H
           | H : (_ <? _) = true |- _ => apply Z.ltb_lt in H
           | H : (_ <? _) = false |- _ => apply Z.ltb_ge in H
           end; lia.
Qed.

Lemma viewReadsBack_table : forallb viewReadsBackAt (range 0 1440) = true.
Proof. vm_compute. reflexivity. Qed.

(** X5. The view's [parseTime] reads every time the engine renders back to
    the minute it was rendered from, so the view's re-sort and its time block
    use the minutes the engine placed the item at. *)
Theorem view_reads_rendered_time (m : Z) :
  0 <= m < 1440 ->
  parseTime (minutesToTimeString m) = m
  /\ editedTimeBlock (parseTime (minutesToTimeString m)) = getTimeBlock m.
Proof.
  intros H.
  assert (E : parseTime (minutesToTimeString m) = m).
  { apply Z.eqb_eq. apply (@forall_range _ _ _ viewReadsBack_table m). lia. }
  split; [exact E|]. rewrite E. apply editedTimeBlock_thresholds.
Qed.

Lemma view_reads_rendered_time_witness :
  0 <= 870 < 1440
  /\ parseTime (minutesToTimeString 870) = 870
  /\ editedTimeBlock (parseTime (minutesToTimeString 870)) = getTimeBlock 870.
Proof.
  split; [lia|]. apply view_reads_rendered_time. lia.
Defined.

(** ** The appointment parser *)

Lemma filterMap_In (A B : Type) (f : A -> option B) (xs : list A) (y : B) :
  In y (filterMap f xs) -> exists x, In x xs /\ f x = Some y.
Proof.
  induction xs as [|x xs IH]; cbn [filterMap]; [intros []|].
  destruct (f x) as [z|] eqn:E.
  - intros [<-|H]; [exists x; split; [now left|assumption]|].
    destruct (IH H) as (x' & Hx & Hf). exists x'. split; [now right|assumption].
  - intros H. destruct (IH H) as (x' & Hx & Hf). exists x'. split; [now right|assumption].
Qed.

Lemma parseAppointments_parts (text : string) (a : ParsedAppointment) :
  In a (parseAppointments text) -> exists part, parsePart part = Some a.
Proof.
  unfold parseAppointments.
  destruct (Str.isEmpty text || Str.isEmpty (Str.trim text)); [intros []|].
  intros H. apply filterMap_In in H. destruct H as (part & _ & H). now exists part.
Qed.

Lemma classify_cases (trimmed : string) :
  snd (classify trimmed) = None
  \/ classify trimmed = (outing, Some "Going for a walk").
Proof.
  unfold classify.
  destruct (test reWalk trimmed); [now right|].
  destruct (test reVisitor trimmed); [now left|].
  destruct (test reMedical trimmed); [now left|].
  destruct (test reErrand trimmed); now left.
Qed.

Lemma toLowerCase_isEmpty (s : string) :
  Str.isEmpty (Str.toLowerCase s) = Str.isEmpty s.
Proof. destruct s; reflexivity. Qed.

(** X6. The time fields of every parsed appointment agree: the start and end
    are both absent, with no time strings, or both present and not negative,
    with [startTime] and [endTime] the renderings of [startMins] and
    [endMins]. *)
Theorem parsed_times_agree (text : string) :
  Forall TimesAgree (parseAppointments text).
Proof.
  apply Forall_forall. intros a Ha.
  destruct (parseAppointments_parts _ _ Ha) as (part & Hp).
  unfold parsePart in Hp. cbv zeta in Hp.
  destruct (Str.isEmpty (Str.toLowerCase (Str.trim part))); [discriminate|].
  destruct (classify (Str.toLowerCase (Str.trim part))) as [ty ful].
  destruct (exec reRange (Str.toLowerCase (Str.trim part))) as [m|].
  { injection Hp as <-. right. eexists. eexists.
    cbn [startMins endMins startTime endTime].
    repeat split; try reflexivity; apply parsed_minutes_lower_bound. }
  destruct (exec reSingleTime (Str.toLowerCase (Str.trim part))) as [m|].
  { injection Hp as <-. right. eexists. eexists.
    cbn [startMins endMins startTime endTime].
    repeat split; try reflexivity; [apply parsed_minutes_lower_bound|].
    pose proof (parsed_minutes_lower_bound (group 1 m)). destruct ty; lia. }
  injection Hp as <-. left. cbn. tauto.
Qed.

(** X7. Every parsed appointment has a description that is not empty, and
    the only recurring task an appointment can fulfil is "Going for a walk",
    by an appointment of type outing. *)
Theorem parsed_appointments_described (text : string) :
  Forall (fun a => description a <> "" /\ FulfilsOnlyWalk a) (parseAppointments text).
Proof.
  apply Forall_forall. intros a Ha.
  destruct (parseAppointments_parts _ _ Ha) as (part & Hp).
  unfold parsePart in Hp. cbv zeta in Hp.
  rewrite toLowerCase_isEmpty in Hp.
  destruct (Str.isEmpty (Str.trim part)) eqn:Ee; [discriminate|].
  assert (Hd : Str.trim part <> "") by (intros E; rewrite E in Ee; discriminate).
  pose proof (classify_cases (Str.toLowerCase (Str.trim part))) as Hc.
  destruct (classify (Str.toLowerCase (Str.trim part))) as [ty ful].
  assert (Hf : ful = None \/ (ful = Some "Going for a walk" /\ ty = outing)).
  { destruct Hc as [Hc|Hc]; [left; exact Hc|right]. injection Hc as -> ->. now split. }
  destruct (exec reRange (Str.toLowerCase (Str.trim part))) as [m|];
    [|destruct (exec reSingleTime (Str.toLowerCase (Str.trim part))) as [m|]];
    injection Hp as <-; (split; [exact Hd|exact Hf]).
Qed.

(** ** The half-hour slot search [findAvailableSlot] *)

Lemma searchHalfHours_Some (clear : Z -> bool) (limit : Z) (fuel : nat) :
  forall mins r,
    searchHalfHours fuel clear limit mins = Some r ->
    clear r = true /\ r <= limit
    /\ exists i, 0 <= i /\ r = mins + 30 * i
                 /\ forall j, 0 <= j < i -> clear (mins + 30 * j) = false.
Proof.
  induction fuel as [|fuel IH]; intros mins r; cbn [searchHalfHours]; [discriminate|].
  destruct (mins <=? limit) eqn:L; [|discriminate]. apply Z.leb_le in L.
  destruct (clear mins) eqn:C.
  - intros [= <-]. split; [assumption|]. split; [assumption|].
    exists 0. split; [lia|]. split; [lia|]. intros j Hj. lia.
  - intros H. destruct (IH _ _ H) as (Hc & Hl & i & Hi & Hr & Hj).
    split; [assumption|]. split; [assumption|].
    exists (i + 1). split; [lia|]. split; [lia|].
    intros j Hj'. destruct (Z.eq_dec j 0) as [->|Hn].
    + now rewrite Z.mul_0_r, Z.add_0_r.
    + replace (mins + 30 * j) with (mins + 30 + 30 * (j - 1)) by lia. apply Hj. lia.
Qed.

Lemma searchHalfHours_None (clear : Z -> bool) (limit : Z) (fuel : nat) :
  forall mins,
    searchHalfHours fuel clear limit mins = None ->
    forall i, 0 <= i < Z.of_nat fuel -> mins + 30 * i <= limit ->
              clear (mins + 30 * i) = false.
Proof.
  induction fuel as [|fuel IH]; intros mins; cbn [searchHalfHours]; [intros _ i Hi; lia|].
  destruct (mins <=? limit) eqn:L.
  - destruct (clear mins) eqn:C; [discriminate|].
    intros H i Hi Hl. destruct (Z.eq_dec i 0) as [->|Hn].
    + now rewrite Z.mul_0_r, Z.add_0_r.
    + replace (mins + 30 * i) with (mins + 30 + 30 * (i - 1)) by lia.
      apply (IH _ H); lia.
  - apply Z.leb_gt in L. intros _ i Hi Hl. lia.
Qed.

(** The scan of [findAvailableSlot] visits every half-hour start of the
    window. *)
Lemma searchHalfHours_complete (clear : Z -> bool) (limit minTime : Z) :
  searchHalfHours (S (S (Z.to_nat ((limit - minTime) / 30)))) clear limit minTime = None ->
  forall i, 0 <= i -> minTime + 30 * i <= limit -> clear (minTime + 30 * i) = false.
Proof.
  intros H i Hi Hl. apply (@searchHalfHours_None _ _ _ _ H); [|assumption].
  assert (i <= (limit - minTime) / 30) by (apply Z.div_le_lower_bound; lia). lia.
Qed.

(** X8. What [findAvailableSlot] returns is the preferred start or a clear
    half-hour start of the window: [minTime] plus a multiple of 30, ending by
    [maxTime], conflicting with no timed appointment and overlapping no
    scheduled interval. *)
Theorem findAvailableSlot_result (preferredMins duration : Z)
        (apts : list ParsedAppointment) (sched : list Interval) (minTime maxTime : option Z) :
  let r := findAvailableSlot preferredMins duration apts sched minTime maxTime in
  r = preferredMins
  \/ (slotIsClear apts sched r duration = true
      /\ HalfHourStart (orDefault minTime 480) (orDefault maxTime 1080) duration r).
Proof.
  cbv zeta. unfold findAvailableSlot, orDefault. cbv zeta.
  destruct (slotIsClear apts sched preferredMins duration); [now left|].
  match goal with |- context [searchHalfHours ?f ?c ?l ?m] =>
    destruct (searchHalfHours f c l m) as [r|] eqn:E end; [|now left].
  right. apply searchHalfHours_Some in E. destruct E as (Hc & Hl & i & Hi & Hr & _).
  split; [exact Hc|]. split; [exists i; now split|lia].
Qed.

(** X9. [findAvailableSlot] finds a clear start whenever there is one on its
    half-hour grid: if some half-hour start of the window is clear, so is the
    start returned, and it is the preferred start or no later than that
    start. *)
Theorem findAvailableSlot_finds_clear_start (preferredMins duration : Z)
        (apts : list ParsedAppointment) (sched : list Interval) (minTime maxTime : option Z)
        (m : Z) :
  HalfHourStart (orDefault minTime 480) (orDefault maxTime 1080) duration m ->
  slotIsClear apts sched m duration = true ->
  let r := findAvailableSlot preferredMins duration apts sched minTime maxTime in
  slotIsClear apts sched r duration = true /\ (r = preferredMins \/ r <= m).
Proof.
  intros [(i & Hi & Hm) Hd] Hclear. cbv zeta.
  unfold findAvailableSlot, orDefault in *. cbv zeta.
  destruct (slotIsClear apts sched preferredMins duration) eqn:P; [split; [exact P|now left]|].
  match goal with |- context [searchHalfHours ?f ?c ?l ?mt] =>
    destruct (searchHalfHours f c l mt) as [r|] eqn:E end.
  - apply searchHalfHours_Some in E. destruct E as (Hc & Hl & k & Hk & Hr & Hj).
    split; [exact Hc|]. right.
    destruct (Z_lt_le_dec i k) as [Hlt|Hge]; [|lia].
    specialize (Hj i ltac:(lia)). cbv beta in Hj. rewrite <- Hm in Hj. congruence.
  - exfalso. pose proof (@searchHalfHours_complete _ _ _ E i Hi ltac:(lia)) as Hn.
    cbv beta in Hn. rewrite <- Hm in Hn. congruence.
Qed.

Lemma findAvailableSlot_finds_clear_start_witness :
  let apts := parseAppointments "doctor appointment at 10am" in
  let sched := [{| start := 480; end_ := 510 |}] in
  HalfHourStart (orDefault None 480) (orDefault None 1080) 45 510
  /\ slotIsClear apts sched 510 45 = true
  /\ slotIsClear apts sched (findAvailableSlot 600 45 apts sched None None) 45 = true
  /\ (findAvailableSlot 600 45 apts sched None None = 600
      \/ findAvailableSlot 600 45 apts sched None None <= 510).
Proof.
  cbv zeta.
  assert (H1 : HalfHourStart (orDefault None 480) (orDefault None 1080) 45 510).
  { split; [exists 1; split; [lia|reflexivity]|cbn; lia]. }
  assert (H2 : slotIsClear (parseAppointments "doctor appointment at 10am")
                           [{| start := 480; end_ := 510 |}] 510 45 = true).
  { vm_compute. reflexivity. }
  split; [exact H1|]. split; [exact H2|].
  exact (@findAvailableSlot_finds_clear_start 600 45
           (parseAppointments "doctor appointment at 10am")
           [{| start := 480; end_ := 510 |}] None None 510 H1 H2).
Defined.

(** ** The slot finder [findNextSlot] *)

(** X10. A preferred start that [isSlotAvailable] accepts is returned as it
    is: [findNextSlot] moves an item only when its preferred interval is
    taken or runs past minute 1110. *)
Theorem findNextSlot_keeps_free_preferred (sched : list Interval) (preferredMins duration : Z) :
  isSlotAvailable sched preferredMins (preferredMins + duration) = true ->
  findNextSlot sched preferredMins duration = preferredMins.
Proof.
  intros H. rewrite findNextSlot_find. unfold candidateStarts.
  assert (L : (1110 <? preferredMins + duration) = false).
  { apply isSlotAvailable_sound in H. unfold END_BY_TIME in H. apply Z.ltb_ge. lia. }
  rewrite L. cbn [app find]. rewrite H. reflexivity.
Qed.

Lemma findNextSlot_keeps_free_preferred_witness :
  isSlotAvailable [{| start := 540; end_ := 570 |}] 600 (600 + 45) = true
  /\ findNextSlot [{| start := 540; end_ := 570 |}] 600 45 = 600.
Proof.
  assert (H : isSlotAvailable [{| start := 540; end_ := 570 |}] 600 (600 + 45) = true)
    by (vm_compute; reflexivity).
  split; [exact H|]. exact (@findNextSlot_keeps_free_preferred _ 600 45 H).
Defined.

(** X11. [findNextSlot] is idempotent: asked again with the start it
    returned as the preferred start, against the same scheduled intervals, it
    returns that start. *)
Theorem findNextSlot_idempotent (sched : list Interval) (preferredMins duration : Z) :
  findNextSlot sched (findNextSlot sched preferredMins duration) duration
  = findNextSlot sched preferredMins duration.
Proof.
  destruct (findNextSlot_cases sched preferredMins duration) as [H|H]; cbv zeta in H.
  - set (r := findNextSlot sched preferredMins duration) in *.
    rewrite (findNextSlot_find sched r duration). unfold candidateStarts.
    assert (L : (1110 <? r + duration) = false).
    { apply isSlotAvailable_sound in H. unfold END_BY_TIME in H. apply Z.ltb_ge. lia. }
    rewrite L. cbn [app find]. rewrite H. reflexivity.
  - rewrite H. exact H.
Qed.

(** ** Selection: eligibility, bounds, order and diversity *)

Lemma Category_eqb_eq (a b : Category) : Category_eqb a b = true <-> a = b.
Proof. destruct a, b; cbn; split; congruence. Qed.

Lemma hasCategory_In (used : list Category) (c : Category) :
  hasCategory used c = true <-> In c used.
Proof.
  unfold hasCategory. rewrite existsb_exists. split.
  - intros (x & Hx & E). apply Category_eqb_eq in E. now subst.
  - intros H. exists c. split; [assumption|]. now apply Category_eqb_eq.
Qed.

Lemma scoreBase_Some (a : Activity) (ctx : SelectionContext) (z : Z) :
  scoreBase a ctx = Some z ->
  InAgeRange (babyAgeMonths ctx) a
  /\ (stayingHome (survey ctx) = true -> indoor a = true)
  /\ (forall wd, weather ctx = Some wd -> isRainy wd = true -> indoor a = true).
Proof.
  unfold scoreBase. cbv zeta.
  destruct (Age_ltb (babyAgeMonths ctx) (AgeRange.min (ageRange a))
            || Age_gtb (babyAgeMonths ctx) (AgeRange.max (ageRange a))) eqn:A;
    [discriminate|].
  apply orb_false_iff in A. destruct A as [A1 A2].
  intros H. split.
  { intros n En. rewrite En in A1, A2. cbn in A1, A2.
    apply Z.ltb_ge in A1. apply Z.ltb_ge in A2. lia. }
  assert (R : forall wd, weather ctx = Some wd -> isRainy wd = true -> indoor a = true).
  { intros wd Hw Hr. rewrite Hw in H.
    destruct (indoor a); [reflexivity|]. rewrite Hr in H. cbn in H. discriminate. }
  split; [|exact R].
  intros Hs.
  destruct (weather ctx) as [wd|].
  - destruct (negb (indoor a) && isRainy wd); [discriminate|].
    rewrite Hs in H. destruct (indoor a); [reflexivity|]. cbn [negb andb] in H.
    discriminate.
  - rewrite Hs in H. destruct (indoor a); [reflexivity|]. cbn [negb andb] in H.
    discriminate.
Qed.

Section SelectionProperties.

Variable activities : list Activity.
Variable ageMonths : Age.
Variable random : nat -> Q.

(** A candidate that keeps a score above 0 was not disqualified. *)
Lemma scoreAll_positive (ctx : SelectionContext) (xs : list Obj) :
  forall n s, In s (scoreAll random ctx xs n) -> Qpos (score s) = true ->
              In (activity s) xs /\ scoreBase (val (activity s)) ctx <> None.
Proof.
  induction xs as [|a xs IH]; intros n s; cbn [scoreAll]; [intros []|].
  unfold scoreActivity.
  destruct (scoreBase (val a) ctx) as [base|] eqn:E.
  - intros [<-|H] Hp; cbn [activity].
    + split; [now left|congruence].
    + destruct (IH _ _ H Hp) as [H1 H2]. split; [now right|assumption].
  - intros [<-|H] Hp.
    + cbn in Hp. discriminate.
    + destruct (IH _ _ H Hp) as [H1 H2]. split; [now right|assumption].
Qed.

Lemma scored_Eligible (sv : DailySurvey) (w : option WeatherData)
      (xs : list Obj) (s : Scored) :
  (forall a, In a xs -> overlapsWithRecurringTasks (val a) = false) ->
  In s (scoreAll random {| survey := sv; weather := w; babyAgeMonths := ageMonths |} xs 0) ->
  Qpos (score s) = true ->
  Eligible ageMonths sv w (val (activity s)).
Proof.
  intros Hx Hs Hp. destruct (scoreAll_positive _ _ _ _ Hs Hp) as [Hin Hb].
  destruct (scoreBase (val (activity s)) _) as [z|] eqn:E; [|congruence].
  apply scoreBase_Some in E. cbn [babyAgeMonths survey weather] in E.
  destruct E as (E1 & E2 & E3).
  split; [exact E1|]. split; [exact E2|]. split; [exact E3|]. now apply Hx.
Qed.

Lemma pool_Eligible (sv : DailySurvey) (w : option WeatherData) (a : Obj) :
  In a (poolObjs activities ageMonths random sv w) ->
  Eligible ageMonths sv w (val a).
Proof.
  unfold poolObjs, candidatePool. rewrite in_map_iff. intros (s & <- & Hs).
  apply filter_In in Hs. destruct Hs as [Hs Hp].
  refine (scored_Eligible _ _ _ _ _ Hs Hp).
  intros b Hb. apply filter_In in Hb. destruct Hb as [_ Hb].
  now apply negb_true_iff in Hb.
Qed.

Lemma selection_in_pool (sv : DailySurvey) (w : option WeatherData)
      (count : Z) (times : option (list Z)) (a : Obj) :
  In a (selectBonusActivities activities ageMonths random sv w count times) ->
  In a (poolObjs activities ageMonths random sv w).
Proof.
  pose proof (poolObjs_NoDup activities ageMonths random sv w) as Hn.
  unfold poolObjs in *. unfold selectBonusActivities. intros H.
  destruct times as [[|t ts]|].
  - now apply (@pickDiverseActivities_spec _ count Hn).
  - now apply (@timed_spec _ count (t :: ts) Hn).
  - now apply (@pickDiverseActivities_spec _ count Hn).
Qed.

(** X12. Every activity [selectBonusActivities] returns is eligible for the
    day: the baby's age, when [getBabyAgeMonths()] is a number, is within
    its age range (with the age [NaN] nothing is disqualified by age), it is
    an indoor activity when the day is spent at home or the weather is
    rainy, and it matches none of the walk, stroll and bath patterns of the
    recurring tasks. *)
Theorem selected_activities_are_eligible (sv : DailySurvey) (w : option WeatherData)
        (count : Z) (times : option (list Z)) :
  Forall (fun a => Eligible ageMonths sv w (val a))
         (selectBonusActivities activities ageMonths random sv w count times).
Proof.
  apply Forall_forall. intros a Ha. apply pool_Eligible. exact (selection_in_pool _ _ _ _ _ Ha).
Qed.

Lemma replacement_unfold (sv : DailySurvey) (w : option WeatherData)
      (excl : list string) (sched : option Z) :
  getReplacementActivity activities ageMonths random sv w excl sched
  = match sortByScore (replacementCandidates activities ageMonths random sv w excl sched) with
    | a :: _ => Some a
    | [] => None
    end.
Proof. reflexivity. Qed.

Lemma replacement_candidate (sv : DailySurvey) (w : option WeatherData)
      (excl : list string) (sched : option Z) (s : Scored) :
  In s (replacementCandidates activities ageMonths random sv w excl sched) ->
  In (val (activity s)) activities
  /\ ~ In (id (val (activity s))) excl
  /\ Eligible ageMonths sv w (val (activity s)).
Proof.
  unfold replacementCandidates. cbv zeta. intros Hs.
  apply filter_In in Hs. destruct Hs as [Hs Hp].
  pose proof (scoreAll_positive _ _ _ _ Hs Hp) as [Hin _].
  apply filter_In in Hin. destruct Hin as [Hin _].
  apply filter_In in Hin. destruct Hin as [Hin Hex].
  apply filter_In in Hin. destruct Hin as [Hin Hov].
  split; [now apply objects_val|]. split.
  - apply negb_true_iff in Hex. intros Hc.
    assert (existsb (String.eqb (id (val (activity s)))) excl = true).
    { apply existsb_exists. exists (id (val (activity s))).
      split; [assumption|apply String.eqb_refl]. }
    congruence.
  - refine (scored_Eligible _ _ _ _ _ Hs Hp).
    intros b Hb. apply filter_In in Hb. destruct Hb as [Hb _].
    apply filter_In in Hb. destruct Hb as [Hb _].
    apply filter_In in Hb. destruct Hb as [_ Hb].
    now apply negb_true_iff in Hb.
Qed.

Lemma replacement_candidate_of (sv : DailySurvey) (w : option WeatherData)
      (excl : list string) (sched : option Z) (a : Obj) :
  getReplacementActivity activities ageMonths random sv w excl sched = Some a ->
  In (val a) activities
  /\ ~ In (id (val a)) excl
  /\ Eligible ageMonths sv w (val a).
Proof.
  rewrite replacement_unfold.
  destruct (sortByScore _) as [|b rest] eqn:E; [discriminate|]. intros [= <-].
  assert (Hin : In b (sortByScore
                        (replacementCandidates activities ageMonths random sv w excl sched)))
    by (rewrite E; now left).
  apply (proj1 (sorted_In _ b)) in Hin. apply in_map_iff in Hin.
  destruct Hin as (s & <- & Hs). exact (@replacement_candidate sv w excl sched s Hs).
Qed.

(** X13. An activity [getReplacementActivity] returns is an entry of the
    catalogue whose id is not among the excluded ids, and it is eligible for
    the day as a selected activity is: within its age range when the age is
    a number, indoor when staying home or in rain, and not one of the walk,
    stroll or bath activities. *)
Theorem replacement_is_fresh_and_eligible (sv : DailySurvey) (w : option WeatherData)
        (excl : list string) (sched : option Z) (a : Obj) :
  getReplacementActivity activities ageMonths random sv w excl sched = Some a ->
  In (val a) activities
  /\ ~ In (id (val a)) excl
  /\ Eligible ageMonths sv w (val a).
Proof. apply replacement_candidate_of. Qed.

(** The head of the sorted candidates is a candidate no other outscores. *)
Lemma insertBy_head (x : Scored) (l : list Scored) :
  match l with [] => True | h :: _ => forall z, In z l -> (score z <= score h)%Q end ->
  match insertBy (fun y x => negb (Qle_bool (score y) (score x))) x l with
  | [] => False
  | h :: _ => forall z, z = x \/ In z l -> (score z <= score h)%Q
  end.
Proof.
  destruct l as [|y l]; cbn [insertBy].
  - intros _ z [->|[]]. apply Qle_refl.
  - intros H. destruct (Qle_bool (score y) (score x)) eqn:E; cbn [negb].
    + apply Qle_bool_iff in E. intros z [->|Hz]; [apply Qle_refl|].
      eapply Qle_trans; [apply H, Hz|exact E].
    + intros z [->|Hz]; [|now apply H].
      apply Qlt_le_weak, Qnot_le_lt. intros C. apply Qle_bool_iff in C. congruence.
Qed.

Lemma stableSort_head (l : list Scored) :
  match stableSort (fun y x => negb (Qle_bool (score y) (score x))) l with
  | [] => l = []
  | h :: _ => TopOf l h
  end.
Proof.
  induction l as [|x l IH]; cbn [stableSort]; [reflexivity|].
  set (before := fun y x : Scored => negb (Qle_bool (score y) (score x))) in *.
  pose proof (insertBy_perm before x (stableSort before l)) as P.
  pose proof (@insertBy_head x (stableSort before l)) as H. fold before in H.
  destruct (insertBy before x (stableSort before l)) as [|h t] eqn:E.
  - apply Permutation_sym, Permutation_nil in P. discriminate.
  - assert (Hl : forall z, In z l <-> In z (stableSort before l)).
    { intros z. split; apply Permutation_in;
        [|apply Permutation_sym]; apply stableSort_perm. }
    split.
    + assert (Hh : In h (x :: stableSort before l))
        by (eapply Permutation_in; [apply Permutation_sym, P|now left]).
      destruct Hh as [->|Hh]; [now left|right; now apply Hl].
    + intros z Hz. apply H.
      * destruct (stableSort before l) as [|h0 t0] eqn:E0; [exact I|].
        destruct IH as [_ IH]. intros z0 Hz0. apply IH. apply Hl. exact Hz0.
      * destruct Hz as [<-|Hz]; [now left|right; now apply Hl].
Qed.

Lemma sortByScore_head (scored : list Scored) :
  match sortByScore scored with
  | [] => scored = []
  | a :: _ => exists s, TopOf scored s /\ activity s = a
  end.
Proof.
  unfold sortByScore. pose proof (stableSort_head scored) as H.
  destruct (stableSort _ scored) as [|h t]; cbn [map]; [exact H|].
  exists h. now split.
Qed.

(** X14. [getReplacementActivity] returns the top-scoring candidate: when it
    returns an activity, no candidate that passed its filters with a score
    above 0 has a higher score, and it returns nothing only when there is no
    such candidate. *)
Theorem replacement_is_top_scoring (sv : DailySurvey) (w : option WeatherData)
        (excl : list string) (sched : option Z) :
  match getReplacementActivity activities ageMonths random sv w excl sched with
  | Some a =>
      exists s, TopOf (replacementCandidates activities ageMonths random sv w excl sched) s
                /\ activity s = a
  | None => replacementCandidates activities ageMonths random sv w excl sched = []
  end.
Proof.
  rewrite replacement_unfold.
  pose proof (sortByScore_head
                (replacementCandidates activities ageMonths random sv w excl sched)) as H.
  destruct (sortByScore _) as [|a rest]; exact H.
Qed.

End SelectionProperties.

(** The age [NaN] of an empty birth date disqualifies nothing: at 2 months
    only the cafe visit (from 0 months) is in range, with [NaN] all three
    entries of the sample catalogue are selected, and browsing by category
    then lists nothing. *)
Example age_NaN_disqualifies_nothing :
  map (fun a => id (val a))
      (selectBonusActivities sampleCatalogue 2 sampleRandom (surveyWith None) None 3 None)
  = ["cafe-visit"]
  /\ map (fun a => id (val a))
         (selectBonusActivities sampleCatalogue NaN sampleRandom (surveyWith None) None 3 None)
     = ["cafe-visit"; "sensory-bottles"; "finger-painting"]
  /\ map id (getActivitiesByCategory sampleCatalogue 8 sensory) = ["sensory-bottles"]
  /\ getActivitiesByCategory sampleCatalogue NaN sensory = [].
Proof. vm_compute. repeat split. Qed.

Section SelectionBounds.

Variable activities : list Activity.
Variable ageMonths : Age.
Variable random : nat -> Q.

(** *** The number of activities returned *)

Lemma firstPass_bound (count : Z) (sorted : list Obj) :
  forall selected used,
    Z.of_nat (length selected) <= Z.max 0 count ->
    Z.of_nat (length (fst (firstPass count sorted selected used))) <= Z.max 0 count.
Proof.
  induction sorted as [|a rest IH]; intros selected used H; cbn [firstPass]; [exact H|].
  destruct (count <=? Z.of_nat (length selected)) eqn:E; [exact H|].
  apply Z.leb_gt in E.
  destruct (negb (hasCategory used (category (val a)))); apply IH; [|exact H].
  rewrite length_app. cbn [length]. lia.
Qed.

Lemma secondPass_bound (count : Z) (sorted : list Obj) :
  forall selected,
    Z.of_nat (length selected) <= Z.max 0 count ->
    Z.of_nat (length (secondPass count sorted selected)) <= Z.max 0 count.
Proof.
  induction sorted as [|a rest IH]; intros selected H; cbn [secondPass]; [exact H|].
  destruct (count <=? Z.of_nat (length selected)) eqn:E; [exact H|].
  apply Z.leb_gt in E.
  destruct (negb (includesObj selected a)); apply IH; [|exact H].
  rewrite length_app. cbn [length]. lia.
Qed.

Lemma slotLoop_bound (count : Z) (sorted : list Obj) (times : list Z) (iters : nat) :
  forall i selected used,
    Z.of_nat (length selected) <= Z.max 0 count ->
    Z.of_nat (length (fst (slotLoop count sorted times iters i selected used)))
    <= Z.max 0 count.
Proof.
  induction iters as [|iters IH]; intros i selected used H; cbn [slotLoop]; [exact H|].
  destruct (Z.of_nat (length selected) <? count) eqn:E; [|exact H].
  apply Z.ltb_lt in E.
  destruct (pickForSlot _ _ _ _ _ _) as [a|]; apply IH; [|exact H].
  rewrite length_app. cbn [length]. lia.
Qed.

Lemma fillLoop_bound (sorted : list Obj) (times : list Z) (iters : nat) :
  forall i selected,
    (length (fillLoop sorted times iters i selected) <= length selected + iters)%nat.
Proof.
  induction iters as [|iters IH]; intros i selected; cbn [fillLoop]; [lia|].
  destruct (fillForSlot _ _ _) as [a|].
  - specialize (IH (S i) (selected ++ [a])). rewrite length_app in IH. cbn [length] in IH. lia.
  - specialize (IH (S i) selected). lia.
Qed.

(** X15. [selectBonusActivities] never returns more than [count] activities,
    with or without scheduled times, and none when [count] is 0 or less. *)
Theorem selection_is_bounded (sv : DailySurvey) (w : option WeatherData)
        (count : Z) (times : option (list Z)) :
  Z.of_nat (length (selectBonusActivities activities ageMonths random sv w count times))
  <= Z.max 0 count.
Proof.
  assert (P : forall scored,
             Z.of_nat (length (pickDiverseActivities scored count)) <= Z.max 0 count).
  { intros scored. unfold pickDiverseActivities. cbv zeta.
    pose proof (@firstPass_bound count (sortByScore scored) [] [] ltac:(cbn; lia)) as H.
    destruct (firstPass count (sortByScore scored) [] []) as [sel used].
    now apply secondPass_bound. }
  unfold selectBonusActivities. cbv zeta.
  destruct times as [[|t ts]|]; try apply P.
  unfold pickDiverseActivitiesWithTimeConstraints. cbv zeta.
  set (sorted := sortByScore _).
  pose proof (@slotLoop_bound count sorted (t :: ts) (Z.to_nat count) 0%nat [] []
                ltac:(cbn; lia)) as H.
  destruct (slotLoop count sorted (t :: ts) (Z.to_nat count) 0 [] []) as [sel used].
  cbn [fst] in H.
  pose proof (fillLoop_bound sorted (t :: ts)
                (Z.to_nat (count - Z.of_nat (length sel))) (length sel) sel) as F.
  lia.
Qed.

(** *** The plain passes: order and diversity *)

Lemma firstPass_prefix (count : Z) (sorted : list Obj) :
  forall selected used,
    exists more, fst (firstPass count sorted selected used) = selected ++ more.
Proof.
  induction sorted as [|a rest IH]; intros selected used; cbn [firstPass].
  - exists []. now rewrite app_nil_r.
  - destruct (count <=? Z.of_nat (length selected)); [exists []; now rewrite app_nil_r|].
    destruct (negb (hasCategory used (category (val a)))); [|apply IH].
    destruct (IH (selected ++ [a]) (category (val a) :: used)) as (more & E).
    exists (a :: more). rewrite E, <- app_assoc. reflexivity.
Qed.

Lemma secondPass_prefix (count : Z) (sorted : list Obj) :
  forall selected, exists more, secondPass count sorted selected = selected ++ more.
Proof.
  induction sorted as [|a rest IH]; intros selected; cbn [secondPass].
  - exists []. now rewrite app_nil_r.
  - destruct (count <=? Z.of_nat (length selected)); [exists []; now rewrite app_nil_r|].
    destruct (negb (includesObj selected a)); [|apply IH].
    destruct (IH (selected ++ [a])) as (more & E).
    exists (a :: more). rewrite E, <- app_assoc. reflexivity.
Qed.

Lemma pickDiverseActivities_head (scored : list Scored) (count : Z) :
  1 <= count ->
  match sortByScore scored with
  | [] => pickDiverseActivities scored count = []
  | a :: _ => exists more, pickDiverseActivities scored count = a :: more
  end.
Proof.
  intros Hc. unfold pickDiverseActivities. cbv zeta.
  destruct (sortByScore scored) as [|a rest]; [reflexivity|].
  pose proof (secondPass_prefix count (a :: rest)) as S2.
  cbn [firstPass length hasCategory existsb negb].
  replace (count <=? Z.of_nat 0) with false by (symmetry; apply Z.leb_gt; lia).
  destruct (firstPass_prefix count rest ([] ++ [a]) [category (val a)]) as (more & E).
  destruct (firstPass count rest ([] ++ [a]) [category (val a)]) as [sel used].
  cbn [fst] in E. subst sel.
  destruct (S2 (([] ++ [a]) ++ more)) as (more' & E'). rewrite E'.
  exists (more ++ more'). reflexivity.
Qed.

(** X16. Without scheduled times and with [count] at least 1, the first
    activity [selectBonusActivities] returns is a top-scoring candidate of
    the pool, and the result is empty only when the pool is. *)
Theorem first_selected_is_top_scoring (sv : DailySurvey) (w : option WeatherData)
        (count : Z) :
  1 <= count ->
  match selectBonusActivities activities ageMonths random sv w count None with
  | a :: _ =>
      exists s, TopOf (candidatePool activities ageMonths random sv w) s /\ activity s = a
  | [] => candidatePool activities ageMonths random sv w = []
  end.
Proof.
  intros Hc. unfold selectBonusActivities. cbv zeta.
  pose proof (pickDiverseActivities_head (candidatePool activities ageMonths random sv w) Hc)
    as H.
  pose proof (sortByScore_head (candidatePool activities ageMonths random sv w)) as T.
  destruct (sortByScore (candidatePool activities ageMonths random sv w)) as [|a rest].
  - rewrite H. exact T.
  - destruct H as (more & ->). exact T.
Qed.

Lemma firstPass_diverse (count : Z) (sorted : list Obj) :
  forall selected used,
    (forall c, In c used <-> In c (map categoryOf selected)) ->
    NoDup (map categoryOf selected) ->
    let r := fst (firstPass count sorted selected used) in
    NoDup (map categoryOf r)
    /\ (count <= Z.of_nat (length r)
        \/ forall b, In b (selected ++ sorted) -> In (categoryOf b) (map categoryOf r)).
Proof.
  induction sorted as [|a rest IH]; intros selected used Hu Hn; cbn [firstPass].
  - cbn [fst]. split; [exact Hn|]. right. intros b Hb. rewrite app_nil_r in Hb.
    now apply in_map.
  - destruct (count <=? Z.of_nat (length selected)) eqn:E.
    + apply Z.leb_le in E. cbn [fst]. split; [exact Hn|now left].
    + destruct (hasCategory used (category (val a))) eqn:Hc; cbn [negb].
      * destruct (IH selected used Hu Hn) as [N D]. split; [exact N|].
        destruct D as [D|D]; [now left|right].
        intros b Hb. apply in_app_iff in Hb. destruct Hb as [Hb|[<-|Hb]].
        -- apply D. apply in_app_iff. now left.
        -- apply hasCategory_In, Hu in Hc.
           destruct (firstPass_prefix count rest selected used) as (more & Em).
           rewrite Em, map_app, in_app_iff. now left.
        -- apply D. apply in_app_iff. now right.
      * assert (Hnot : ~ In (categoryOf a) (map categoryOf selected)).
        { intros C. apply Hu, hasCategory_In in C. unfold categoryOf in C. congruence. }
        destruct (IH (selected ++ [a]) (category (val a) :: used)) as [N D].
        -- intros c. rewrite map_app, in_app_iff. cbn [map In]. rewrite Hu.
           unfold categoryOf at 3. tauto.
        -- rewrite map_app. cbn [map]. apply NoDup_snoc; assumption.
        -- split; [exact N|]. destruct D as [D|D]; [now left|right].
           intros b Hb. apply D. rewrite <- app_assoc. exact Hb.
Qed.

(** X17. Without scheduled times the selection is diverse: either it holds
    [count] activities of pairwise different categories, or every category
    of the candidate pool is represented in it. *)
Theorem plain_selection_is_diverse (sv : DailySurvey) (w : option WeatherData) (count : Z) :
  let r := selectBonusActivities activities ageMonths random sv w count None in
  (count <= Z.of_nat (length r) /\ NoDup (map categoryOf r))
  \/ (forall b, In b (poolObjs activities ageMonths random sv w) ->
                In (categoryOf b) (map categoryOf r)).
Proof.
  cbv zeta. unfold selectBonusActivities, pickDiverseActivities, poolObjs. cbv zeta.
  set (pool := candidatePool activities ageMonths random sv w).
  destruct (@firstPass_diverse count (sortByScore pool) [] []
              (fun c => conj (fun H => H) (fun H => H)) (NoDup_nil _)) as [N D].
  destruct (firstPass count (sortByScore pool) [] []) as [sel used]. cbn [fst] in N, D.
  destruct (secondPass_prefix count (sortByScore pool) sel) as (more & E).
  destruct D as [D|D].
  - left. assert (R : secondPass count (sortByScore pool) sel = sel).
    { destruct (sortByScore pool) as [|a rest]; cbn [secondPass]; [reflexivity|].
      replace (count <=? Z.of_nat (length sel)) with true
        by (symmetry; apply Z.leb_le; exact D). reflexivity. }
    rewrite R. now split.
  - right. intros b Hb. rewrite E, map_app, in_app_iff. left.
    apply D. cbn [app]. now apply sorted_In.
Qed.

End SelectionBounds.

Lemma replacement_is_fresh_and_eligible_witness :
  exists a,
    getReplacementActivity sampleCatalogue 8 sampleRandom (surveyWith None) None
                           ["sensory-bottles"] (Some 870) = Some a
    /\ In (val a) sampleCatalogue
    /\ ~ In (id (val a)) ["sensory-bottles"]
    /\ Eligible 8 (surveyWith None) None (val a).
Proof.
  eexists. split; [vm_compute; reflexivity|].
  apply (@replacement_is_fresh_and_eligible sampleCatalogue 8 sampleRandom
           (surveyWith None) None ["sensory-bottles"] (Some 870)).
  vm_compute. reflexivity.
Defined.

Lemma first_selected_is_top_scoring_witness :
  1 <= 3
  /\ match selectBonusActivities sampleCatalogue 8 sampleRandom (surveyWith None) None 3 None
     with
     | a :: _ =>
         exists s, TopOf (candidatePool sampleCatalogue 8 sampleRandom (surveyWith None) None) s
                   /\ activity s = a
     | [] => candidatePool sampleCatalogue 8 sampleRandom (surveyWith None) None = []
     end.
Proof.
  split; [lia|].
  apply (@first_selected_is_top_scoring sampleCatalogue 8 sampleRandom (surveyWith None) None 3).
  lia.
Defined.

(** ** The assembled checklist *)

(** *** The final sort *)

Section SortedByKey.

Variable A : Type.
Variable key : A -> Z.

Lemma insertBy_sorted (x : A) (l : list A) :
  StronglySorted (fun a b => key a <= key b) l ->
  StronglySorted (fun a b => key a <= key b) (insertBy (fun a b => key a <? key b) x l).
Proof.
  induction l as [|y l IH]; intros H; cbn [insertBy].
  - constructor; constructor.
  - inversion H as [|? ? Hl Hy]; subst.
    destruct (key y <? key x) eqn:E.
    + apply Z.ltb_lt in E. constructor; [now apply IH|].
      apply Forall_forall. intros z Hz.
      apply (Permutation_in _ (Permutation_sym (insertBy_perm _ x l))) in Hz.
      destruct Hz as [<-|Hz]; [lia|].
      rewrite Forall_forall in Hy. now apply Hy.
    + apply Z.ltb_ge in E. constructor; [exact H|].
      constructor; [exact E|].
      apply Forall_forall. intros z Hz. rewrite Forall_forall in Hy.
      specialize (Hy z Hz). lia.
Qed.

Lemma stableSort_sorted (l : list A) :
  StronglySorted (fun a b => key a <= key b) (stableSort (fun a b => key a <? key b) l).
Proof.
  induction l as [|x l IH]; cbn [stableSort]; [constructor|].
  now apply insertBy_sorted.
Qed.

End SortedByKey.

(** *** The rows of the checklist *)

Lemma plainRows_S (ty : ItemType) (prefix : string) (index n : nat) :
  plainRows ty prefix index (S n)
  = (ty, idOf prefix index, None, false) :: plainRows ty prefix (S index) n.
Proof. reflexivity. Qed.

Lemma bonusRows_cons (index : nat) (a : Activity) (acts : list Activity) :
  bonusRows index (a :: acts)
  = (bonus, idOf "bonus-" index, Some a, false) :: bonusRows (S index) acts.
Proof. reflexivity. Qed.

Lemma rowsOf_register (st : State) (p : Placed) :
  rowsOf (register st p) = rowsOf st ++ [rowOf (item p)].
Proof. unfold rowsOf, register. cbn [items]. now rewrite map_app. Qed.

Lemma rowsOf_emit (st : State) (p : Placed) :
  rowsOf (emit st p) = rowsOf st ++ [rowOf (item p)].
Proof. unfold rowsOf, emit. cbn [items]. now rewrite map_app. Qed.

Lemma addFeeds_rows (times : list string) :
  forall index st,
    rowsOf (addFeeds times index st)
    = rowsOf st ++ plainRows feeding "feeding-" index (length times).
Proof.
  induction times as [|t times IH]; intros index st; cbn [addFeeds length].
  - unfold plainRows. cbn. now rewrite app_nil_r.
  - rewrite IH, rowsOf_register, plainRows_S, <- app_assoc. reflexivity.
Qed.

Lemma addAppointments_items (apts : list ParsedAppointment) :
  forall st, items (addAppointments apts st) = items st.
Proof.
  induction apts as [|apt apts IH]; intros st; cbn [addAppointments]; [reflexivity|].
  rewrite IH. destruct (startMins apt), (endMins apt); reflexivity.
Qed.

Lemma addNaps_rows (prefs : UserPreferences) (iters : nat) :
  forall i st,
    rowsOf (addNaps prefs iters i st) = rowsOf st ++ plainRows nap "nap-" i iters.
Proof.
  induction iters as [|iters IH]; intros i st; cbn [addNaps].
  - unfold plainRows. cbn. now rewrite app_nil_r.
  - cbv zeta. rewrite IH, rowsOf_register, plainRows_S, <- app_assoc. reflexivity.
Qed.

Lemma addRecurring_rows (apts : list ParsedAppointment) (t : string) (index : nat)
      (st : State) :
  rowsOf (addRecurring apts t index st)
  = rowsOf st ++ [(recurring, idOf "recurring-" index, None, false)].
Proof.
  unfold addRecurring. cbv zeta.
  match goal with |- context [match ?a with Some _ => _ | None => _ end] =>
    destruct a as [[apt s]|] end.
  - now rewrite rowsOf_emit.
  - now rewrite rowsOf_register.
Qed.

Lemma addRecurringTasks_rows (apts : list ParsedAppointment) (tasks : list string) :
  forall index st,
    rowsOf (addRecurringTasks apts tasks index st)
    = rowsOf st ++ plainRows recurring "recurring-" index (length tasks).
Proof.
  induction tasks as [|t tasks IH]; intros index st; cbn [addRecurringTasks length].
  - unfold plainRows. cbn. now rewrite app_nil_r.
  - rewrite IH, addRecurring_rows, plainRows_S, <- app_assoc. reflexivity.
Qed.

Lemma addBonuses_rows (apts : list ParsedAppointment) (acts : list Activity) :
  forall index st,
    rowsOf (addBonuses apts acts index st) = rowsOf st ++ bonusRows index acts.
Proof.
  induction acts as [|a acts IH]; intros index st; cbn [addBonuses].
  - unfold bonusRows. cbn. now rewrite app_nil_r.
  - unfold addBonus. cbv zeta.
    rewrite IH, rowsOf_register, bonusRows_cons, <- app_assoc. reflexivity.
Qed.

(** *** Identifiers *)

Lemma append_cancel_l (p a b : string) : (p ++ a = p ++ b)%string -> a = b.
Proof.
  induction p as [|c p IH]; cbn; [trivial|]. intros [= H]. now apply IH.
Qed.

Lemma to_int_not_nil (z : Z) : Z.to_int z <> Decimal.Pos Decimal.Nil
                               /\ Z.to_int z <> Decimal.Neg Decimal.Nil.
Proof.
  destruct z as [|p|p]; cbn; split; try discriminate;
    intros [= E]; exact (DecimalPos.Unsigned.to_uint_nonnil p E).
Qed.

Lemma ofZ_inj (a b : Z) : Str.ofZ a = Str.ofZ b -> a = b.
Proof.
  unfold Str.ofZ. intros E. apply DecimalZ.to_int_inj.
  destruct (to_int_not_nil a) as [A1 A2]. destruct (to_int_not_nil b) as [B1 B2].
  pose proof (NilZero.isi _ A1 A2) as Ia. pose proof (NilZero.isi _ B1 B2) as Ib.
  rewrite E in Ia. congruence.
Qed.

Lemma idOf_inj (prefix : string) (i j : nat) : idOf prefix i = idOf prefix j -> i = j.
Proof.
  unfold idOf. intros E. apply append_cancel_l, ofZ_inj in E. lia.
Qed.

Lemma idOf_headChar (c : ascii) (prefix : string) (i : nat) :
  headChar (idOf (String c prefix) i) = Some c.
Proof. reflexivity. Qed.

Lemma plainRows_ids (ty : ItemType) (prefix : string) (index n : nat) :
  map rowId (plainRows ty prefix index n) = map (idOf prefix) (seq index n).
Proof. unfold plainRows. rewrite map_map. reflexivity. Qed.

Lemma bonusRows_ids (acts : list Activity) :
  forall index,
    map rowId (bonusRows index acts) = map (idOf "bonus-") (seq index (length acts)).
Proof.
  induction acts as [|a acts IH]; intros index; [reflexivity|].
  rewrite bonusRows_cons. cbn [map length seq]. now rewrite IH.
Qed.

Lemma ids_NoDup (prefix : string) (index n : nat) :
  NoDup (map (idOf prefix) (seq index n)).
Proof.
  apply NoDup_map_by with (f := fun i : nat => i).
  - rewrite map_id. apply seq_NoDup.
  - intros x y _ _. apply idOf_inj.
Qed.

Lemma ids_headChar (c : ascii) (prefix : string) (index n : nat) (x : string) :
  In x (map (idOf (String c prefix)) (seq index n)) -> headChar x = Some c.
Proof. rewrite in_map_iff. intros (i & <- & _). reflexivity. Qed.

Lemma expectedRows_NoDup (preferences : UserPreferences) (acts : list Activity) :
  NoDup (map rowId (expectedRows preferences acts)).
Proof.
  unfold expectedRows. rewrite !map_app, !plainRows_ids, bonusRows_ids.
  repeat apply NoDup_app; try apply ids_NoDup;
    intros x Hx Hy;
    repeat (apply in_app_iff in Hy; destruct Hy as [Hy|Hy]);
    apply ids_headChar in Hx; apply ids_headChar in Hy; congruence.
Qed.

Section ChecklistProperties.

Variable activities : list Activity.
Variable ageMonths : Age.
Variable random : nat -> Q.
Variable preferences : UserPreferences.
Variable sv : DailySurvey.
Variable w : option WeatherData.

Lemma placements_rows :
  map (fun p => rowOf (item p)) (placements activities ageMonths random preferences sv w)
  = expectedRows preferences
                 (map val (selectBonusActivities activities ageMonths random sv w 3 None)).
Proof.
  unfold placements, assemble. cbv zeta.
  change (map (fun p => rowOf (item p)) (items ?st)) with (rowsOf st).
  rewrite addBonuses_rows, addRecurringTasks_rows.
  assert (N : forall st,
             rowsOf (if 0 <? napsPerDay preferences
                     then addNaps preferences (Z.to_nat (napsPerDay preferences)) 0 st
                     else st)
             = rowsOf st ++ plainRows nap "nap-" 0 (Z.to_nat (napsPerDay preferences))).
  { intros st. destruct (0 <? napsPerDay preferences) eqn:E; [apply addNaps_rows|].
    apply Z.ltb_ge in E. replace (Z.to_nat (napsPerDay preferences)) with 0%nat by lia.
    unfold plainRows. cbn. now rewrite app_nil_r. }
  rewrite N. unfold rowsOf at 1. rewrite addAppointments_items.
  change (map (fun p => rowOf (item p)) (items ?st)) with (rowsOf st).
  rewrite addFeeds_rows. unfold rowsOf at 1. cbn [items map app].
  unfold expectedRows. now rewrite <- !app_assoc.
Qed.

Lemma checklist_rows :
  Permutation (map rowOf (generateChecklist activities ageMonths random preferences sv w))
              (expectedRows preferences
                 (map val (selectBonusActivities activities ageMonths random sv w 3 None))).
Proof.
  rewrite <- placements_rows, <- (map_map item rowOf).
  apply Permutation_map, Permutation_sym. unfold generateChecklist.
  apply stableSort_perm.
Qed.

(** X18. When no recurring task is named like an inherited member of
    [Object.prototype] (the call then returns), the checklist holds exactly
    one item for each feeding time, each nap, each recurring task and each
    selected activity, and nothing for an appointment: the types, ids,
    activities and completion flags of its items are, up to the final
    reordering, feeding-0.., nap-0.., recurring-0.. and bonus-0.. with the
    selected activities, none of them completed. *)
Theorem checklist_has_one_item_per_entry :
  NoInheritedTask preferences ->
  Permutation
    (map rowOf (generateChecklist activities ageMonths random preferences sv w))
    (expectedRows preferences
       (map val (selectBonusActivities activities ageMonths random sv w 3 None))).
Proof. intros _. exact checklist_rows. Qed.

(** X19. The ids of the items of a generated checklist are pairwise
    distinct. *)
Theorem checklist_ids_are_distinct :
  NoDup (map itemId (generateChecklist activities ageMonths random preferences sv w)).
Proof.
  change (map itemId ?l) with (map (fun it => rowId (rowOf it)) l).
  rewrite <- (map_map rowOf rowId).
  apply (Permutation_NoDup (Permutation_sym (Permutation_map rowId checklist_rows))).
  apply expectedRows_NoDup.
Qed.

(** X20. Every activity a generated checklist carries sits on a bonus item
    and is an entry of the catalogue that is eligible for the day: within
    the age range when the age is a number, indoor when staying home or in
    rain, and not one of the walk, stroll or bath activities. *)
Theorem checklist_activities_are_eligible :
  Forall (fun it =>
            forall a, itemActivity it = Some a ->
                      itemType it = bonus /\ In a activities /\ Eligible ageMonths sv w a)
         (generateChecklist activities ageMonths random preferences sv w).
Proof.
  apply Forall_forall. intros it Hit a Ha.
  assert (Hr : In (rowOf it)
                  (expectedRows preferences
                     (map val (selectBonusActivities activities ageMonths random sv w 3 None)))).
  { apply (Permutation_in _ checklist_rows). now apply in_map. }
  unfold expectedRows, plainRows, bonusRows, rowOf in Hr. rewrite Ha in Hr.
  repeat (apply in_app_iff in Hr; destruct Hr as [Hr|Hr]);
    apply in_map_iff in Hr; destruct Hr as (x & E & Hx); try discriminate.
  destruct x as [i b]. cbn [fst snd] in E. injection E as Ety Eid Eact Ec. subst b.
  apply in_combine_r in Hx. apply in_map_iff in Hx. destruct Hx as (o & <- & Ho).
  split; [now symmetry|]. split.
  - exact (selection_from_catalogue _ _ _ _ _ _ _ _ Ho).
  - apply (@pool_Eligible activities ageMonths random).
    exact (@selection_in_pool activities ageMonths random sv w 3 None o Ho).
Qed.

(** X21. The items of a generated checklist are in ascending order of the
    minutes their suggested times parse to (0 for an item without one). *)
Theorem checklist_is_sorted_by_time :
  StronglySorted (fun a b => sortKey a <= sortKey b)
                 (generateChecklist activities ageMonths random preferences sv w).
Proof. unfold generateChecklist. apply stableSort_sorted. Qed.

End ChecklistProperties.

(** *** Feeds and look-ups *)

Lemma canonicalTime_renders_back (h m : Z) (pm : bool) :
  1 <= h <= 12 -> 0 <= m <= 59 ->
  minutesToTimeString (parseTimeToMinutes (canonicalTime h m pm)) = canonicalTime h m pm.
Proof.
  intros Hh Hm.
  assert (H1 := @forall_range _ _ _ roundTrip_table h). cbv beta in H1.
  assert (H2 := @forall_range _ _ _ (H1 ltac:(lia)) m). cbv beta in H2.
  specialize (H2 ltac:(lia)).
  apply andb_true_iff in H2. destruct H2 as [Ht Hf].
  apply String.eqb_eq. destruct pm; assumption.
Qed.

Lemma Extends_In (st st' : State) (p : Placed) :
  Extends st st' -> In p (items st) -> In p (items st').
Proof. intros [[more E] _] H. rewrite E. apply in_app_iff. now left. Qed.

Lemma addFeeds_Extends (times : list string) :
  forall index st, Extends st (addFeeds times index st).
Proof.
  induction times as [|t times IH]; intros index st; cbn [addFeeds].
  - apply Extends_refl.
  - eapply Extends_trans; [apply Extends_register|apply IH].
Qed.

Lemma addNaps_Extends (prefs : UserPreferences) (iters : nat) :
  forall i st, Extends st (addNaps prefs iters i st).
Proof.
  induction iters as [|iters IH]; intros i st; cbn [addNaps].
  - apply Extends_refl.
  - eapply Extends_trans; [apply Extends_register|apply IH].
Qed.

Lemma addFeeds_at (times : list string) :
  forall index st i t,
    nth_error times i = Some t ->
    exists p,
      In p (items (addFeeds times index st))
      /\ itemId (item p) = idOf "feeding-" (index + i)
      /\ itemType (item p) = feeding
      /\ task (item p) = "Feed baby"
      /\ time (item p) = Some (minutesToTimeString (parseTimeToMinutes t))
      /\ suggestedTime (item p) = Some (minutesToTimeString (parseTimeToMinutes t)).
Proof.
  induction times as [|t0 times IH]; intros index st i t Hi; [destruct i; discriminate|].
  cbn [addFeeds]. destruct i as [|i].
  - injection Hi as ->. eexists. split.
    + apply (@Extends_In _ _ _ (addFeeds_Extends times (S index) _)).
      unfold register. cbn [items]. apply in_app_iff. right. now left.
    + cbn [item itemId itemType task time suggestedTime]. rewrite Nat.add_0_r.
      repeat split; reflexivity.
  - cbn [nth_error] in Hi.
    match goal with |- context [addFeeds times (S index) ?s] =>
      destruct (IH (S index) s i t Hi) as (p & Hp & Hid & H) end.
    exists p. split; [exact Hp|]. split; [|exact H].
    rewrite Hid. f_equal. lia.
Qed.

Lemma find_by_id (activities : list Activity) (a : Activity) :
  NoDup (map id activities) -> In a activities ->
  getActivityById activities (id a) = Some a.
Proof.
  unfold getActivityById.
  induction activities as [|b rest IH]; intros N H; [destruct H|].
  cbn [map] in N. inversion N as [|? ? Hb Hrest]; subst. cbn [find].
  destruct (String.eqb (id b) (id a)) eqn:E.
  - apply String.eqb_eq in E. destruct H as [->|H]; [reflexivity|].
    exfalso. apply Hb. rewrite E. now apply in_map.
  - destruct H as [->|H]; [rewrite String.eqb_refl in E; discriminate|].
    now apply IH.
Qed.

Section FeedsAndLookups.

Variable activities : list Activity.
Variable ageMonths : Age.
Variable random : nat -> Q.
Variable preferences : UserPreferences.
Variable sv : DailySurvey.
Variable w : option WeatherData.

(** X22. A feed is never moved: when no recurring task is named like an
    inherited member of [Object.prototype] (the call then returns), for a
    feeding time of the preferences written in the canonical form
    "H:MM AM/PM" the checklist holds the item feeding-i with the task
    "Feed baby" whose time and suggested time are that very string. *)
Theorem feeds_stay_at_their_time (i : nat) (h m : Z) (pm : bool) :
  NoInheritedTask preferences ->
  nth_error (feedingTimes preferences) i = Some (canonicalTime h m pm) ->
  1 <= h <= 12 -> 0 <= m <= 59 ->
  exists it,
    In it (generateChecklist activities ageMonths random preferences sv w)
    /\ itemId it = idOf "feeding-" i
    /\ itemType it = feeding
    /\ task it = "Feed baby"
    /\ time it = Some (canonicalTime h m pm)
    /\ suggestedTime it = Some (canonicalTime h m pm).
Proof.
  intros _ Hi Hh Hm.
  destruct (@addFeeds_at (feedingTimes preferences) 0%nat
              {| scheduledTimes := []; items := [] |} i _ Hi)
    as (p & Hp & Hid & Hty & Htask & Htime & Hsug).
  rewrite canonicalTime_renders_back in Htime, Hsug by assumption.
  exists (item p). split; [|now repeat split].
  unfold generateChecklist.
  apply (Permutation_in _ (stableSort_perm _ _)). apply in_map.
  unfold placements, assemble. cbv zeta.
  apply (@Extends_In _ _ _ (addBonuses_Extends _ _ _ _)).
  apply (@Extends_In _ _ _ (addRecurringTasks_Extends _ _ _ _)).
  assert (N : forall st, In p (items st) ->
                         In p (items (if 0 <? napsPerDay preferences
                                      then addNaps preferences
                                             (Z.to_nat (napsPerDay preferences)) 0 st
                                      else st))).
  { intros st H. destruct (0 <? napsPerDay preferences); [|exact H].
    exact (@Extends_In _ _ _ (addNaps_Extends _ _ _ _) H). }
  apply N. rewrite addAppointments_items. exact Hp.
Qed.

(** X23. When the ids of the catalogue are pairwise distinct,
    [getActivityById] finds every activity a generated checklist carries:
    looking up the id of the activity of an item returns that activity. *)
Theorem checklist_activities_can_be_looked_up :
  NoDup (map id activities) ->
  Forall (fun it =>
            forall a, itemActivity it = Some a ->
                      getActivityById activities (id a) = Some a)
         (generateChecklist activities ageMonths random preferences sv w).
Proof.
  intros N. apply Forall_forall. intros it Hit a Ha.
  apply find_by_id; [exact N|].
  pose proof (@checklist_rows activities ageMonths random preferences sv w) as P.
  cbv zeta in P.
  assert (Hr : In (rowOf it)
                  (expectedRows preferences
                     (map val (selectBonusActivities activities ageMonths random sv w 3 None)))).
  { apply (Permutation_in _ P). now apply in_map. }
  unfold expectedRows, plainRows, bonusRows, rowOf in Hr. rewrite Ha in Hr.
  repeat (apply in_app_iff in Hr; destruct Hr as [Hr|Hr]);
    apply in_map_iff in Hr; destruct Hr as (x & E & Hx); try discriminate.
  destruct x as [k b]. cbn [fst snd] in E. injection E as Ety Eid Eact Ec. subst b.
  apply in_combine_r in Hx. apply in_map_iff in Hx. destruct Hx as (o & <- & Ho).
  exact (selection_from_catalogue _ _ _ _ _ _ _ _ Ho).
Qed.

End FeedsAndLookups.

Lemma sampleCatalogue_ids : NoDup (map id sampleCatalogue).
Proof.
  cbn. repeat constructor; cbn; intros H;
    repeat (destruct H as [H|H]; [discriminate|]); exact H.
Qed.

Lemma feeds_stay_at_their_time_witness :
  NoInheritedTask DEFAULT_PREFERENCES
  /\ nth_error (feedingTimes DEFAULT_PREFERENCES) 3 = Some (canonicalTime 7 30 true)
  /\ 1 <= 7 <= 12 /\ 0 <= 30 <= 59
  /\ exists it,
      In it (generateChecklist sampleCatalogue 8 sampleRandom DEFAULT_PREFERENCES
                               (surveyWith None) None)
      /\ itemId it = idOf "feeding-" 3
      /\ itemType it = feeding
      /\ task it = "Feed baby"
      /\ time it = Some (canonicalTime 7 30 true)
      /\ suggestedTime it = Some (canonicalTime 7 30 true).
Proof.
  assert (Hown : NoInheritedTask DEFAULT_PREFERENCES)
    by (apply NoInheritedTask_by; vm_compute; reflexivity).
  split; [exact Hown|]. split; [reflexivity|]. split; [lia|]. split; [lia|].
  apply (@feeds_stay_at_their_time sampleCatalogue 8 sampleRandom DEFAULT_PREFERENCES
           (surveyWith None) None 3 7 30 true); [exact Hown|reflexivity|lia|lia].
Defined.

Lemma checklist_has_one_item_per_entry_witness :
  NoInheritedTask DEFAULT_PREFERENCES
  /\ Permutation
       (map rowOf (generateChecklist sampleCatalogue 8 sampleRandom DEFAULT_PREFERENCES
                                     (surveyWith None) None))
       (expectedRows DEFAULT_PREFERENCES
          (map val (selectBonusActivities sampleCatalogue 8 sampleRandom (surveyWith None)
                                          None 3 None))).
Proof.
  assert (Hown : NoInheritedTask DEFAULT_PREFERENCES)
    by (apply NoInheritedTask_by; vm_compute; reflexivity).
  split; [exact Hown|].
  exact (@checklist_has_one_item_per_entry sampleCatalogue 8 sampleRandom
           DEFAULT_PREFERENCES (surveyWith None) None Hown).
Defined.

Lemma checklist_activities_can_be_looked_up_witness :
  NoDup (map id sampleCatalogue)
  /\ Forall (fun it =>
               forall a, itemActivity it = Some a ->
                         getActivityById sampleCatalogue (id a) = Some a)
            (generateChecklist sampleCatalogue 8 sampleRandom DEFAULT_PREFERENCES
                               (surveyWith None) None).
Proof.
  split; [exact sampleCatalogue_ids|].
  apply (@checklist_activities_can_be_looked_up sampleCatalogue 8 sampleRandom
           DEFAULT_PREFERENCES (surveyWith None) None).
  exact sampleCatalogue_ids.
Defined.

(** ** The callers: toggling an item and refreshing a bonus activity *)

Lemma flipCompleted_twice (it : ChecklistItem) : flipCompleted (flipCompleted it) = it.
Proof. destruct it. unfold flipCompleted. cbn. now rewrite negb_involutive. Qed.

Lemma flip_twice_map (wanted : string) (l : list ChecklistItem) :
  map (fun it => if String.eqb (itemId it) wanted then flipCompleted it else it)
      (map (fun it => if String.eqb (itemId it) wanted then flipCompleted it else it) l)
  = l.
Proof.
  induction l as [|it l IH]; cbn [map]; [reflexivity|]. rewrite IH. f_equal.
  destruct (String.eqb (itemId it) wanted) eqn:E; [|now rewrite E].
  change (itemId (flipCompleted it)) with (itemId it). rewrite E.
  apply flipCompleted_twice.
Qed.

(** X24. Toggling the same item twice restores what is stored: the second
    [toggleChecklistItem] leaves the stored checklist as it was before the
    first, whether or not there is a checklist for today. *)
Theorem toggle_twice_restores (today wanted : string) (stored : option DailyChecklist) :
  snd (toggleChecklistItem today wanted (snd (toggleChecklistItem today wanted stored)))
  = stored.
Proof.
  unfold toggleChecklistItem, getTodayChecklist.
  destruct stored as [c|]; [|reflexivity].
  destruct (String.eqb (checklistDate c) today) eqn:E; cbn [snd]; [|now rewrite E].
  cbn [checklistDate]. rewrite E. cbn [snd checklistItems checklistDate surveyCompleted].
  rewrite flip_twice_map. now destruct c.
Qed.

Lemma map_one (A : Type) (key : A -> string) (f : A -> A) (wanted : string) (l : list A) :
  NoDup (map key l) ->
  forall it, In it l -> key it = wanted ->
  exists l1 l2,
    l = l1 ++ it :: l2
    /\ map (fun x => if String.eqb (key x) wanted then f x else x) l = l1 ++ f it :: l2.
Proof.
  induction l as [|x l IH]; intros N it Hin Hk; [destruct Hin|].
  cbn [map] in N. inversion N as [|? ? Hx Hl]; subst.
  destruct Hin as [->|Hin].
  - exists [], l. split; [reflexivity|]. cbn [map app]. rewrite String.eqb_refl. f_equal.
    rewrite <- (map_id l) at 2. apply map_ext_in. intros y Hy.
    destruct (String.eqb (key y) (key it)) eqn:E; [|reflexivity].
    apply String.eqb_eq in E. exfalso. apply Hx. rewrite <- E. now apply in_map.
  - destruct (IH Hl it Hin eq_refl) as (l1 & l2 & E1 & E2).
    exists (x :: l1), l2. split; [now rewrite E1|]. cbn [map app]. rewrite E2. f_equal.
    destruct (String.eqb (key x) (key it)) eqn:E; [|reflexivity].
    apply String.eqb_eq in E. exfalso. apply Hx. rewrite E. now apply in_map.
Qed.

(** X25. On a checklist for today whose ids are pairwise distinct, as those
    of a generated checklist are, [toggleChecklistItem] changes exactly the
    item with the given id: that item has its [completed] flag negated, and
    every other item, the order and the date are kept; the checklist
    returned is the one stored. *)
Theorem toggle_flips_one_item (today wanted : string) (c : DailyChecklist)
        (it : ChecklistItem) :
  checklistDate c = today ->
  NoDup (map itemId (checklistItems c)) ->
  In it (checklistItems c) -> itemId it = wanted ->
  exists l1 l2 u,
    checklistItems c = l1 ++ it :: l2
    /\ toggleChecklistItem today wanted (Some c) = (Some u, Some u)
    /\ checklistItems u = l1 ++ flipCompleted it :: l2
    /\ checklistDate u = checklistDate c.
Proof.
  intros Hd N Hin Hid.
  destruct (@map_one _ itemId flipCompleted wanted _ N it Hin Hid) as (l1 & l2 & E1 & E2).
  exists l1, l2. eexists. split; [exact E1|].
  unfold toggleChecklistItem, getTodayChecklist.
  rewrite Hd, String.eqb_refl. cbv zeta. split; [reflexivity|].
  cbn [checklistItems checklistDate]. split; [exact E2|exact Hd].
Qed.

Lemma toggle_flips_one_item_witness :
  checklistDate sampleChecklist = "2026-03-02"
  /\ NoDup (map itemId (checklistItems sampleChecklist))
  /\ In sampleBonusItem (checklistItems sampleChecklist)
  /\ itemId sampleBonusItem = "bonus-0"
  /\ exists l1 l2 u,
      checklistItems sampleChecklist = l1 ++ sampleBonusItem :: l2
      /\ toggleChecklistItem "2026-03-02" "bonus-0" (Some sampleChecklist) = (Some u, Some u)
      /\ checklistItems u = l1 ++ flipCompleted sampleBonusItem :: l2
      /\ checklistDate u = checklistDate sampleChecklist.
Proof.
  assert (N : NoDup (map itemId (checklistItems sampleChecklist))).
  { cbn. repeat constructor; cbn; intros H;
      repeat (destruct H as [H|H]; [discriminate|]); exact H. }
  assert (I : In sampleBonusItem (checklistItems sampleChecklist)) by (right; now left).
  split; [reflexivity|]. split; [exact N|]. split; [exact I|]. split; [reflexivity|].
  exact (@toggle_flips_one_item "2026-03-02" "bonus-0" sampleChecklist sampleBonusItem
           eq_refl N I eq_refl).
Defined.

Section PageProperties.

Variable activities : list Activity.
Variable ageMonths : Age.
Variable random : nat -> Q.

Lemma refresh_inv (items items' : list ChecklistItem) (sv : DailySurvey)
      (w : option WeatherData) (wanted : string) :
  refreshBonusActivity activities ageMonths random items sv w wanted = Some items' ->
  exists it replacement,
    find (fun i => String.eqb (itemId i) wanted) items = Some it
    /\ isBonus it = true
    /\ getReplacementActivity activities ageMonths random sv w
                              (currentBonusIdsOf items) (scheduledMinsOf it)
       = Some replacement
    /\ items' = map (fun i => if String.eqb (itemId i) wanted
                              then withActivity i (val replacement) else i) items.
Proof.
  unfold refreshBonusActivity.
  destruct (find _ items) as [it|]; [|discriminate].
  destruct (isBonus it) eqn:B; cbn [negb]; [|discriminate]. cbv zeta.
  destruct (getReplacementActivity _ _ _ _ _ _ _) as [r|] eqn:R; [|discriminate].
  intros [= <-]. exists it, r. repeat split; assumption.
Qed.

(** X26. A refresh that saves touches bonus items only and changes nothing
    but the activity and the task text: the item asked for is a bonus item,
    the ids, suggested times and completion flags of all items are as
    before, and every item with another id is kept as it is. *)
Theorem refresh_keeps_the_schedule (items items' : list ChecklistItem) (sv : DailySurvey)
        (w : option WeatherData) (wanted : string) :
  refreshBonusActivity activities ageMonths random items sv w wanted = Some items' ->
  (exists it, In it items /\ itemId it = wanted /\ itemType it = bonus)
  /\ map itemId items' = map itemId items
  /\ map suggestedTime items' = map suggestedTime items
  /\ map completed items' = map completed items
  /\ (forall it, In it items -> itemId it <> wanted -> In it items').
Proof.
  intros H. destruct (@refresh_inv _ _ _ _ _ H) as (it & r & Hf & Hb & _ & ->).
  split.
  { exists it. apply find_some in Hf. destruct Hf as [Hin Hid].
    apply String.eqb_eq in Hid. repeat split; try assumption.
    unfold isBonus in Hb. destruct (itemType it); try discriminate. reflexivity. }
  rewrite !map_map.
  repeat split; try (apply map_ext; intros i; destruct (String.eqb (itemId i) wanted);
                     reflexivity).
  intros i Hi Hn. apply in_map_iff. exists i. split; [|exact Hi].
  destruct (String.eqb (itemId i) wanted) eqn:E; [|reflexivity].
  apply String.eqb_eq in E. contradiction.
Qed.

(** X27. After a refresh that saves, the item asked for carries an activity
    of the catalogue whose id is the id of no activity a bonus item carried
    before the refresh, and which is eligible for the day: within its age
    range when the age is a number, indoor when staying home or in rain, and
    not one of the walk, stroll or bath activities. *)
Theorem refresh_gives_a_new_activity (items items' : list ChecklistItem) (sv : DailySurvey)
        (w : option WeatherData) (wanted : string) :
  refreshBonusActivity activities ageMonths random items sv w wanted = Some items' ->
  exists a,
    In a activities
    /\ Eligible ageMonths sv w a
    /\ ~ In (id a) (currentBonusIdsOf items)
    /\ (exists it', In it' items' /\ itemId it' = wanted)
    /\ forall it', In it' items' -> itemId it' = wanted -> itemActivity it' = Some a.
Proof.
  intros H. destruct (@refresh_inv _ _ _ _ _ H) as (it & r & Hf & Hb & Hr & ->).
  pose proof (@replacement_candidate_of activities ageMonths random sv w _ _ _ Hr)
    as (H1 & H2 & H3).
  exists (val r). split; [exact H1|]. split; [exact H3|]. split; [exact H2|]. split.
  - apply find_some in Hf. destruct Hf as [Hin Hid].
    exists (withActivity it (val r)). split; [|now apply String.eqb_eq in Hid].
    apply in_map_iff. exists it. rewrite Hid. now split.
  - intros it' Hin Hid. apply in_map_iff in Hin. destruct Hin as (i & <- & Hi).
    destruct (String.eqb (itemId i) wanted) eqn:E; [reflexivity|].
    apply String.eqb_neq in E. contradiction.
Qed.

Lemma clock12_matches_table : forallb clockMatchesAt (range 0 1440) = true.
Proof. vm_compute. reflexivity. Qed.

Lemma scheduledMinsOf_rendered (it : ChecklistItem) (m : Z) :
  suggestedTime it = Some (minutesToTimeString m) -> 0 <= m < 1440 ->
  scheduledMinsOf it = Some m.
Proof.
  intros Hs Hm. unfold scheduledMinsOf. rewrite Hs.
  pose proof (@forall_range _ _ _ viewReadsBack_table m ltac:(lia)) as V.
  pose proof (@forall_range _ _ _ rendersCanonical_table m ltac:(lia)) as C.
  unfold viewReadsBackAt, parseTime in V. apply Z.eqb_eq in V.
  unfold rendersCanonicalAt in C.
  apply andb_true_iff in C. destruct C as [C _].
  apply andb_true_iff in C. destruct C as [C _]. apply String.eqb_eq in C.
  destruct (Str.isEmpty (minutesToTimeString m)) eqn:Ee.
  { rewrite C in Ee. unfold canonicalTime in Ee.
    destruct (hourShown m <? 10); discriminate. }
  destruct (exec reClock12 (minutesToTimeString m)) as [mm|] eqn:X.
  - cbv zeta in V. cbv zeta. now rewrite V.
  - exfalso.
    pose proof (@forall_range _ _ _ clock12_matches_table m ltac:(lia)) as K.
    unfold clockMatchesAt in K. rewrite X in K. discriminate.
Qed.

(** X28. A refresh respects the 3 PM cut-off at the time the item shows: when
    the suggested time of the item asked for is the rendering of a minute
    [m] of the day, a food or venue activity put on it ends by 3 PM, that is
    [m + duration <= 900]. *)
Theorem refresh_respects_the_cutoff (items items' : list ChecklistItem) (sv : DailySurvey)
        (w : option WeatherData) (wanted : string) (it : ChecklistItem) (m : Z) :
  find (fun i => String.eqb (itemId i) wanted) items = Some it ->
  suggestedTime it = Some (minutesToTimeString m) ->
  0 <= m < 1440 ->
  refreshBonusActivity activities ageMonths random items sv w wanted = Some items' ->
  Forall (fun it' =>
            itemId it' = wanted ->
            forall a, itemActivity it' = Some a ->
                      isCafeOrFoodActivity a = true -> m + duration a <= 900)
         items'.
Proof.
  intros Hf Hs Hm H. destruct (@refresh_inv _ _ _ _ _ H) as (it0 & r & Hf0 & _ & Hr & ->).
  rewrite Hf in Hf0. injection Hf0 as <-.
  rewrite (@scheduledMinsOf_rendered _ _ Hs Hm) in Hr.
  apply getReplacementActivity_ok in Hr.
  apply Forall_forall. intros it' Hin Hid a Ha Hc.
  apply in_map_iff in Hin. destruct Hin as (i & <- & Hi).
  destruct (String.eqb (itemId i) wanted) eqn:E.
  - cbn [withActivity itemActivity] in Ha. injection Ha as <-.
    unfold endsAfter3pm in Hr. rewrite Hc in Hr. cbn [andb] in Hr.
    apply Z.ltb_ge in Hr. lia.
  - apply String.eqb_neq in E. contradiction.
Qed.

End PageProperties.

Lemma refresh_keeps_the_schedule_witness :
  exists items',
    refreshBonusActivity sampleCatalogue 8 sampleRandom [sampleFeedItem; sampleBonusItem]
                         (surveyWith None) None "bonus-0" = Some items'
    /\ (exists it, In it [sampleFeedItem; sampleBonusItem]
                   /\ itemId it = "bonus-0" /\ itemType it = bonus)
    /\ map itemId items' = map itemId [sampleFeedItem; sampleBonusItem]
    /\ map suggestedTime items' = map suggestedTime [sampleFeedItem; sampleBonusItem]
    /\ map completed items' = map completed [sampleFeedItem; sampleBonusItem]
    /\ (forall it, In it [sampleFeedItem; sampleBonusItem] -> itemId it <> "bonus-0" ->
                   In it items').
Proof.
  eexists. split; [vm_compute; reflexivity|].
  apply (@refresh_keeps_the_schedule sampleCatalogue 8 sampleRandom
           [sampleFeedItem; sampleBonusItem] _ (surveyWith None) None "bonus-0").
  vm_compute. reflexivity.
Defined.

Lemma refresh_gives_a_new_activity_witness :
  exists items',
    refreshBonusActivity sampleCatalogue 8 sampleRandom [sampleFeedItem; sampleBonusItem]
                         (surveyWith None) None "bonus-0" = Some items'
    /\ exists a,
        In a sampleCatalogue
        /\ Eligible 8 (surveyWith None) None a
        /\ ~ In (id a) (currentBonusIdsOf [sampleFeedItem; sampleBonusItem])
        /\ (exists it', In it' items' /\ itemId it' = "bonus-0")
        /\ forall it', In it' items' -> itemId it' = "bonus-0" -> itemActivity it' = Some a.
Proof.
  eexists. split; [vm_compute; reflexivity|].
  apply (@refresh_gives_a_new_activity sampleCatalogue 8 sampleRandom
           [sampleFeedItem; sampleBonusItem] _ (surveyWith None) None "bonus-0").
  vm_compute. reflexivity.
Defined.

Lemma refresh_respects_the_cutoff_witness :
  exists items',
    find (fun i => String.eqb (itemId i) "bonus-0") [sampleFeedItem; sampleBonusItem]
    = Some sampleBonusItem
    /\ suggestedTime sampleBonusItem = Some (minutesToTimeString 570)
    /\ 0 <= 570 < 1440
    /\ refreshBonusActivity sampleCatalogue 8 sampleRandom [sampleFeedItem; sampleBonusItem]
                            (surveyWith None) None "bonus-0" = Some items'
    /\ Forall (fun it' =>
                 itemId it' = "bonus-0" ->
                 forall a, itemActivity it' = Some a ->
                           isCafeOrFoodActivity a = true -> 570 + duration a <= 900)
              items'.
Proof.
  eexists. split; [reflexivity|]. split; [reflexivity|]. split; [lia|].
  split; [vm_compute; reflexivity|].
  apply (@refresh_respects_the_cutoff sampleCatalogue 8 sampleRandom
           [sampleFeedItem; sampleBonusItem] _ (surveyWith None) None "bonus-0"
           sampleBonusItem 570); [reflexivity|reflexivity|lia|].
  vm_compute. reflexivity.
Defined.

Lemma Age_range_test (n lo hi : Z) :
  lo <= n <= hi -> Age_geb (Months n) lo && Age_leb (Months n) hi = true.
Proof. intros H. cbn. apply andb_true_iff. split; apply Z.leb_le; lia. Qed.

(** X29. Browsing by category shows every suggested activity when the stored
    birth date gives an age: for an age of [n] months,
    [getActivitiesByCategory], asked for the category of an activity that
    [selectBonusActivities] returned, lists that activity.  With the age
    [NaN] of an empty or invalid birth date [getActivitiesByCategory] lists
    nothing. *)
Theorem selected_activities_are_browsable (activities : list Activity) (n : Z)
        (random : nat -> Q) (sv : DailySurvey) (w : option WeatherData)
        (count : Z) (times : option (list Z)) :
  Forall (fun a => In (val a)
                      (getActivitiesByCategory activities (Months n) (category (val a))))
         (selectBonusActivities activities (Months n) random sv w count times)
  /\ forall c, getActivitiesByCategory activities NaN c = [].
Proof.
  split.
  - apply Forall_forall. intros a Ha. unfold getActivitiesByCategory.
    apply filter_In. split; [exact (@selection_from_catalogue _ _ _ _ _ _ _ _ Ha)|].
    pose proof (@pool_Eligible activities (Months n) random sv w a
                  (@selection_in_pool activities (Months n) random sv w count times a Ha))
      as (Hage & _).
    assert (C : Category_eqb (category (val a)) (category (val a)) = true)
      by now apply Category_eqb_eq.
    rewrite C. cbn [andb]. apply Age_range_test. now apply Hage.
  - intros c. unfold getActivitiesByCategory.
    induction activities as [|a rest IH]; [reflexivity|]. cbn [filter].
    cbn [Age_geb Age_leb]. rewrite andb_false_r. exact IH.
Qed.
